(** * Deterministic clustering of questionnaire items (harmony)

    A shallow embedding of [src/harmony/matching/deterministic_clustering.py]
    and the properties of its two functions, [generate_semantic_keywords] and
    [find_clusters_deterministic].

    The file has two parts.  Part I holds the model: the Python, numpy and
    networkx primitives the source calls, each written out with the behaviour
    the source relies on, and then the two functions, line by line.  Part II
    holds the lemmas and the theorems.

    Numbers are IEEE 754 binary64 values, Rocq's primitive [float], which is
    what [np.abs] returns for numpy's default dtype and what the [Counter] of
    centrality scores accumulates.

    The numerical results of lines 66-75 (the embedding model, numpy's mean
    and argsort, scikit-learn's cosine kernel) depend on the dtype of the
    vectors, on the order in which the linear-algebra library adds, and on
    how an unstable sort arranges equal values.  The model does not fix
    them: they are the fields of a [Provider], and the theorems hold for
    every provider that meets the contract [provider_ok]. *)

From Stdlib Require Import ZArith Uint63 Floats List Permutation Lia Bool.
From stdpp Require Import base option list sorting gmap strings.

Set Warnings "-inexact-float".

(* ===================================================================== *)
(** * Part I: the model                                                   *)
(* ===================================================================== *)

(** ** Floating-point vocabulary *)

Module F.

Definition zero : float := PrimFloat.zero.

(** Python's [a < b] and [a > b] on floats: both are false when either
    side is a NaN. *)
Definition lt (a b : float) : bool := PrimFloat.ltb a b.
Definition gt (a b : float) : bool := PrimFloat.ltb b a.
Definition le (a b : float) : bool := PrimFloat.leb a b.

Definition not_nan (a : float) : Prop := PrimFloat.is_nan a = false.

(** numpy's sorting order: [a] goes before [b] when [a < b], or when [b] is
    a NaN and [a] is not (NaNs are sorted to the end). *)
Definition np_lt (a b : float) : bool :=
  PrimFloat.ltb a b || (PrimFloat.is_nan b && negb (PrimFloat.is_nan a)).

End F.

(** ** Exceptions and the provider call log

    The only exceptions the two functions can raise are [IndexError] (a
    list indexed out of range) and [ValueError] ([max] of an empty
    dictionary, and an array that scikit-learn's validation refuses).  The
    only effect is a call of the embedding provider,
    [model.encode(texts)], which the model records in a log. *)

Inductive exn := IndexError | ValueError.

Inductive result (A : Type) :=
| Ok (a : A)
| Raise (e : exn).
Arguments Ok {A} a.
Arguments Raise {A} e.

(** A computation returns a result together with the provider calls it
    made, oldest first. *)
Definition M (A : Type) : Type := result A * list (list string).

Definition ret {A} (a : A) : M A := (Ok a, []).
Definition raise {A} (e : exn) : M A := (Raise e, []).
Definition bind {A B} (f : A -> M B) (m : M A) : M B :=
  match m with
  | (Ok a, log) => let '(r, log') := f a in (r, log ++ log')
  | (Raise e, log) => (Raise e, log)
  end.

#[global] Instance M_ret : MRet M := @ret.
#[global] Instance M_bind : MBind M := @bind.

Fixpoint mapM {A B} (f : A -> M B) (l : list A) : M (list B) :=
  match l with
  | [] => mret []
  | x :: l' => y ← f x; ys ← mapM f l'; mret (y :: ys)
  end.

(** ** Python built-ins *)

Module Py.

(** [l[i]] on a list: [IndexError] out of range. *)
Definition getitem {A} (l : list A) (i : nat) : M A :=
  match l !! i with
  | Some a => ret a
  | None => raise IndexError
  end.

(** [sorted(l, key=key, reverse=True)].  Python's sort is stable, and stays
    stable under [reverse=True]: the result is in descending key order and
    items whose keys compare equal keep the order they had in [l].  It
    compares keys with [<] only.  The model inserts each item in front of
    the first item that is not strictly greater; on keys that [<] orders
    totally (no NaN) this is the one stable descending arrangement, and so
    the list CPython returns.  With a NaN among the keys [<] is no order,
    and what CPython returns depends on the runs its merge sort finds: the
    model then gives one permutation of [l], which need not be CPython's.
    Statements about the order of the result assume keys without NaN. *)
Fixpoint insert_desc {A} (key : A -> float) (x : A) (l : list A) : list A :=
  match l with
  | [] => [x]
  | y :: l' =>
      if F.lt (key x) (key y) then y :: insert_desc key x l' else x :: y :: l'
  end.

Definition sorted_reverse {A} (key : A -> float) (l : list A) : list A :=
  foldr (insert_desc key) [] l.

(** [max(l, key=key)]: the first item whose key no later item exceeds;
    an item replaces the current best only when its key is strictly
    greater ([>]).  [ValueError] on an empty argument. *)
Fixpoint max_from {A} (key : A -> float) (best : A) (l : list A) : A :=
  match l with
  | [] => best
  | x :: l' =>
      if F.gt (key x) (key best) then max_from key x l' else max_from key best l'
  end.

Definition max_key {A} (key : A -> float) (l : list A) : M A :=
  match l with
  | [] => raise ValueError
  | x :: l' => ret (max_from key x l')
  end.

(** [sorted(set(l))] for a list of integers: the distinct values in
    ascending order. *)
Fixpoint insert_uniq (x : nat) (l : list nat) : list nat :=
  match l with
  | [] => [x]
  | y :: l' =>
      if x <? y then x :: y :: l'
      else if x =? y then y :: l'
      else y :: insert_uniq x l'
  end.

Definition sorted_set (l : list nat) : list nat := foldr insert_uniq [] l.

(** A [dict] with integer keys, in insertion order.  [d[k] = v]
    overwrites in place when [k] is present and appends otherwise. *)
Abbreviation dict V := (list (nat * V)).

Fixpoint setitem {V} (d : dict V) (k : nat) (v : V) : dict V :=
  match d with
  | [] => [(k, v)]
  | (k', v') :: d' =>
      if k' =? k then (k, v) :: d' else (k', v') :: setitem d' k v
  end.

(** [collections.Counter] with integer keys: a missing key reads as 0. *)
Definition counter_get (c : gmap nat float) (k : nat) : float :=
  default F.zero (c !! k).

(** [c[k] += v] *)
Definition counter_iadd (c : gmap nat float) (k : nat) (v : float) : gmap nat float :=
  <[k := PrimFloat.add (counter_get c k) v]> c.

(** [l[-k:]]: the last [k] items for a positive [k] (all of them when [l]
    is shorter); for [k = 0] the slice starts at index [-0 = 0] and is all
    of [l]; for a negative [k] it starts at index [-k]. *)
Definition slice_last {A} (k : Z) (l : list A) : list A :=
  if (0 <? k)%Z then drop (length l - Z.to_nat k) l
  else drop (Z.to_nat (- k)) l.

End Py.

(** ** CPython's [set] of small non-negative integers

    The source iterates over the sets that networkx returns, so the order
    in which a [set] yields its elements reaches the output.  The language
    leaves that order open; CPython fixes it as the slot order of an
    open-addressing hash table ([Objects/setobject.c]).  The model below
    follows [set_add_entry], [set_insert_clean] and [set_table_resize] for
    keys that are integers [0 <= n < 2^61 - 1], whose hash is [n]. *)

Module PySet.

Definition MINSIZE : nat := 8.
Definition LINEAR_PROBES : Z := 9.
Definition PERTURB_SHIFT : Z := 5.

(** The table: a slot is empty or holds a key.  Its length is a power of
    two, [mask + 1]. *)
Definition table := list (option nat).

Definition mask (t : table) : Z := Z.of_nat (length t) - 1.

Definition slot_free (t : table) (j : Z) : bool :=
  bool_decide (t !! Z.to_nat j = Some None).

(** The first free slot among [i, i+1, ..., i+probes]. *)
Fixpoint first_free (t : table) (i : Z) (probes : nat) : option nat :=
  if slot_free t i then Some (Z.to_nat i)
  else match probes with
       | 0 => None
       | S p => first_free t (i + 1) p
       end.

(** The probe sequence: the slot [hash & mask] and, when they lie inside
    the table, the nine slots after it; then the next start
    [(i * 5 + 1 + perturb) & mask] with [perturb] shifted right by five.
    [fuel] bounds the number of starts. *)
Fixpoint probe (fuel : nat) (t : table) (i perturb : Z) : option nat :=
  match fuel with
  | 0 => None
  | S fuel' =>
      let probes := if (i + LINEAR_PROBES <=? mask t)%Z then Z.to_nat LINEAR_PROBES else 0 in
      match first_free t i probes with
      | Some j => Some j
      | None =>
          let perturb' := Z.shiftr perturb PERTURB_SHIFT in
          probe fuel' t (Z.land (i * 5 + 1 + perturb') (mask t)) perturb'
      end
  end.

(** Store [key] in the first free slot of its probe sequence.  Once
    [perturb] has been shifted down to zero the starts run through every
    slot, so a table with a free slot never exhausts the fuel; the last
    branch only makes the function total. *)
Definition insert_clean (t : table) (key : nat) : table :=
  let hash := Z.of_nat key in
  match probe (16 + length t) t (Z.land hash (mask t)) hash with
  | Some j => <[j := Some key]> t
  | None => t ++ [Some key]
  end.

Definition keys (t : table) : list nat := omap id t.

Definition used (t : table) : nat := length (keys t).

(** [set_table_resize]: the smallest power of two above [minused],
    starting from [MINSIZE]; the keys are stored again in slot order. *)
Fixpoint newsize (fuel : nat) (size minused : nat) : nat :=
  match fuel with
  | 0 => size
  | S fuel' => if size <=? minused then newsize fuel' (2 * size) minused else size
  end.

Definition resize (t : table) (minused : nat) : table :=
  foldl insert_clean (replicate (newsize (S minused) MINSIZE minused) None) (keys t).

(** [set.add(key)]: nothing when the key is present; otherwise it is
    stored and the table grows once [fill * 5 >= mask * 3]. *)
Definition add (t : table) (key : nat) : table :=
  if bool_decide (key ∈ keys t) then t
  else
    let t' := insert_clean t key in
    if (Z.of_nat (used t') * 5 <? mask t' * 3)%Z then t'
    else resize t' (if (50000 <? Z.of_nat (used t'))%Z then used t' * 2 else used t' * 4).

Definition empty : table := replicate MINSIZE None.

(** The order in which a set yields its keys, as a function of the keys
    added to it (in the order they were added). *)
Definition iter (history : list nat) : list nat :=
  keys (foldl add empty history).

End PySet.

(** ** numpy *)

Module Np.

(** A two-dimensional [np.ndarray] of dtype float64, as its rows.  numpy
    arrays are rectangular; [rectangular] says so. *)
Abbreviation ndarray := (list (list float)).

Definition shape0 (a : ndarray) : nat := length a.
Definition shape1 (a : ndarray) : nat :=
  match a with
  | [] => 0
  | row :: _ => length row
  end.

Definition rectangular (a : ndarray) : Prop :=
  Forall (fun row => length row = shape1 a) a.

(** [a[y, x]], read inside the shape (the default is for the type only). *)
Definition item (a : ndarray) (y x : nat) : float :=
  nth x (nth y a []) F.zero.

(** [np.abs(a)] *)
Definition abs (a : ndarray) : ndarray :=
  (fun row : list float => PrimFloat.abs <$> row) <$> a.

(** The sum that repeated [+=] computes: binary64 additions, left to
    right, from zero. *)
Definition sum (l : list float) : float := fold_left PrimFloat.add l F.zero.

End Np.

(** ** scikit-learn *)

Module Sk.

(** The validation that [cosine_similarity] applies to each of its two
    arguments ([check_pairwise_arrays], [check_array]): a two-dimensional
    array with at least one row, at least one column and only finite
    entries.  An array that fails it makes the call raise [ValueError]. *)
Definition check_array (a : Np.ndarray) : bool :=
  (1 <=? Np.shape0 a) && (1 <=? Np.shape1 a) && forallb (forallb PrimFloat.is_finite) a.

End Sk.

(** ** The numerical provider

    What [generate_semantic_keywords] obtains from numerical libraries:
    the vectors of the embedding model (line 43, line 66), numpy's mean
    over the rows (line 69), the similarities that scikit-learn computes
    from validated arrays (line 72: every row scaled to unit norm, then
    the products of the first argument with the rows of the second), and
    numpy's [argsort] (line 75). *)
Record Provider := mkProvider {
  encode : list string -> Np.ndarray;
  mean_axis0 : Np.ndarray -> list float;
  cosine_kernel : list float -> Np.ndarray -> list float;
  argsort : list float -> list nat
}.

(** ** networkx *)

Module Nx.

(** An undirected [nx.Graph]: the nodes in the order they were added, and
    every edge once, in the order they were added. *)
Record Graph := mkGraph { nodes : list nat; edges : list (nat * nat) }.

Definition empty : Graph := mkGraph [] [].

Definition add_node (g : Graph) (v : nat) : Graph :=
  if bool_decide (v ∈ nodes g) then g else mkGraph (nodes g ++ [v]) (edges g).

Definition add_nodes_from (g : Graph) (vs : list nat) : Graph := foldl add_node g vs.

Definition joins (u v : nat) (e : nat * nat) : bool :=
  ((e.1 =? u) && (e.2 =? v)) || ((e.1 =? v) && (e.2 =? u)).

Definition has_edge (g : Graph) (u v : nat) : bool := existsb (joins u v) (edges g).

(** [g.add_edge(u, v)]: missing end points become nodes; an edge that is
    already there is not added again. *)
Definition add_edge (g : Graph) (u v : nat) : Graph :=
  let g' := add_node (add_node g u) v in
  if has_edge g' u v then g' else mkGraph (nodes g') (edges g' ++ [(u, v)]).

(** [g.adj[v]]: the neighbours of [v], in the order their edges were
    added. *)
Definition neighbors (g : Graph) (v : nat) : list nat :=
  e ← edges g; if e.1 =? v then [e.2] else if e.2 =? v then [e.1] else [].

(** [_plain_bfs]: breadth-first search from [source].  [seen] is the set
    under construction, kept as the list of its keys in the order they
    were added; a node enters [seen] and the next level when it is met for
    the first time. *)
Definition visit (st : list nat * list nat) (w : nat) : list nat * list nat :=
  if bool_decide (w ∈ st.1) then st else (st.1 ++ [w], st.2 ++ [w]).

Definition expand_level (g : Graph) (seen thislevel : list nat) : list nat * list nat :=
  foldl (fun st v => foldl visit st (neighbors g v)) (seen, []) thislevel.

(** The [while nextlevel:] loop.  Every level holds nodes not seen before,
    so there are at most as many levels as nodes; [fuel] is that bound. *)
Fixpoint bfs_levels (fuel : nat) (g : Graph) (seen thislevel : list nat) : list nat :=
  match fuel with
  | 0 => seen
  | S fuel' =>
      match thislevel with
      | [] => seen
      | _ :: _ =>
          let '(seen', nextlevel) := expand_level g seen thislevel in
          bfs_levels fuel' g seen' nextlevel
      end
  end.

Definition plain_bfs (g : Graph) (source : nat) : list nat :=
  bfs_levels (length (nodes g)) g [source] [source].

(** [nx.connected_components(g)]: for every node not yet covered, in node
    order, the set of nodes reachable from it.  Each component is a Python
    [set]; it is given here as the list of its members in the order the
    set yields them, [set_iter] applied to the order they were added. *)
Fixpoint components_from (set_iter : list nat -> list nat) (g : Graph)
    (seen : gset nat) (vs : list nat) : list (list nat) :=
  match vs with
  | [] => []
  | v :: vs' =>
      if bool_decide (v ∈ seen) then components_from set_iter g seen vs'
      else
        let c := set_iter (plain_bfs g v) in
        c :: components_from set_iter g (seen ∪ list_to_set c) vs'
  end.

Definition connected_components (set_iter : list nat -> list nat) (g : Graph)
    : list (list nat) :=
  components_from set_iter g ∅ (nodes g).

Definition number_connected_components (set_iter : list nat -> list nat) (g : Graph) : nat :=
  length (connected_components set_iter g).

End Nx.

(** ** The data model of harmony *)

(** Modelled from the spec: [harmony.schemas.requests.text.Question] is
    declared outside this file's source; the functions read only its
    [question_text]. *)
Record Question := mkQuestion { question_text : string }.

(** [harmony.schemas.responses.text.HarmonyCluster], with the fields the
    constructor call of the source names. *)
Record HarmonyCluster := mkHarmonyCluster {
  cluster_id : nat;
  centroid_id : nat;
  centroid : Question;
  items : list Question;
  item_ids : list nat;
  text_description : string;
  keywords : list string
}.

(** ** The two functions of the source *)

Section Clustering.

(** The iteration order of Python sets ([PySet.iter] under CPython). *)
Variable set_iter : list nat -> list nat.

(** The embedding model and the numerical routines applied to its
    vectors. *)
Variable provider : Provider.

(** [model.encode(texts)]: the call is logged. *)
Definition model_encode (texts : list string) : M Np.ndarray :=
  (Ok (encode provider texts), [texts]).

(** [cosine_similarity(x, y)[0]] for a one-row [x]: [ValueError] unless
    both arrays pass the validation and have rows of one length; then the
    similarity of [x] to every row of [y]. *)
Definition cosine_similarity (x : list float) (y : Np.ndarray) : M (list float) :=
  if Sk.check_array [x] && Sk.check_array y && (length x =? Np.shape1 y)
  then mret (cosine_kernel provider x y)
  else raise ValueError.

Definition generate_semantic_keywords (cluster_items : list Question) (top_k : Z)
    : M (list string) :=
  let texts := question_text <$> cluster_items in
  match texts with
  | [] => mret []
  | _ :: _ =>
      embeddings ← model_encode texts;
      let cluster_embedding := mean_axis0 provider embeddings in
      similarities ← cosine_similarity cluster_embedding embeddings;
      let top_indices := reverse (Py.slice_last top_k (argsort provider similarities)) in
      mapM (Py.getitem texts) top_indices
  end.

(** [coord_to_sim]: the dictionary comprehension of lines 103-107, keys in
    row-major order. *)
Definition coord_to_sim (abs_similarities : Np.ndarray) : list ((nat * nat) * float) :=
  y ← seq 0 (Np.shape0 abs_similarities);
  x ← seq 0 (Np.shape1 abs_similarities);
  [((y, x), Np.item abs_similarities y x)].

(** The ranked stream of line 117. *)
Definition ranked (abs_similarities : Np.ndarray) : list ((nat * nat) * float) :=
  Py.sorted_reverse snd (coord_to_sim abs_similarities).

(** The loop of lines 117-124 over the rest of the ranked stream, on the
    graph and the score counter. *)
Fixpoint merge_loop (num_clusters : Z) (stream : list ((nat * nat) * float))
    (graph : Nx.Graph) (total_score : gmap nat float) : Nx.Graph * gmap nat float :=
  match stream with
  | [] => (graph, total_score)
  | ((y, x), sim) :: stream' =>
      if x =? y then merge_loop num_clusters stream' graph total_score
      else if (Z.of_nat (Nx.number_connected_components set_iter graph) <=? num_clusters)%Z
      then (graph, total_score)
      else
        let graph := Nx.add_edge graph y x in
        let total_score := Py.counter_iadd total_score x sim in
        let total_score := Py.counter_iadd total_score y sim in
        merge_loop num_clusters stream' graph total_score
  end.

(** Lines 101-124: the graph and the scores when the loop ends. *)
Definition merge (item_to_item_similarity_matrix : Np.ndarray) (num_clusters : Z)
    : Nx.Graph * gmap nat float :=
  let abs_similarities := Np.abs item_to_item_similarity_matrix in
  let graph := Nx.add_nodes_from Nx.empty (seq 0 (Np.shape0 item_to_item_similarity_matrix)) in
  merge_loop num_clusters (ranked abs_similarities) graph ∅.

(** Lines 127-132: the lookup table from question index to group index. *)
Definition group_lookup (components : list (list nat)) : Py.dict nat :=
  (foldl (fun '(d, group_idx) component =>
            (foldl (fun d idx => Py.setitem d idx group_idx) d component, S group_idx))
         ([], 0) components).1.

(** Lines 141-145: one pass over the lookup table for [group_idx]. *)
Fixpoint collect (questions : list Question) (total_score : gmap nat float)
    (group_idx : nat) (d : Py.dict nat)
    (acc : list Question * list nat * Py.dict float)
    : M (list Question * list nat * Py.dict float) :=
  match d with
  | [] => mret acc
  | (question_idx, g) :: d' =>
      if g =? group_idx then
        q ← Py.getitem questions question_idx;
        collect questions total_score group_idx d'
          (acc.1.1 ++ [q], acc.1.2 ++ [question_idx],
           Py.setitem acc.2 question_idx (Py.counter_get total_score question_idx))
      else collect questions total_score group_idx d' acc
  end.

(** [candidate_scores.get], the key function of line 148 (the default is
    for the type only: [max] passes keys of the dictionary). *)
Definition dict_get (d : Py.dict float) (k : nat) : float :=
  default F.zero (snd <$> List.find (fun e => e.1 =? k) d).

(** Lines 137-164: the body of the loop over the groups. *)
Definition make_cluster (questions : list Question) (total_score : gmap nat float)
    (question_idx_to_group_idx : Py.dict nat) (group_no group_idx : nat) : M HarmonyCluster :=
  '(items, item_ids, candidate_scores) ←
     collect questions total_score group_idx question_idx_to_group_idx ([], [], []);
  best_question_idx ← Py.max_key (dict_get candidate_scores) (fst <$> candidate_scores);
  best ← Py.getitem questions best_question_idx;
  let text_description := question_text best in
  cluster_keywords ← generate_semantic_keywords items 5;
  centroid ← Py.getitem questions best_question_idx;
  mret (mkHarmonyCluster group_no best_question_idx centroid items item_ids
          text_description cluster_keywords).

Definition find_clusters_deterministic (questions : list Question)
    (item_to_item_similarity_matrix : Np.ndarray) (num_clusters : Z)
    : M (list HarmonyCluster) :=
  let '(graph, total_score) := merge item_to_item_similarity_matrix num_clusters in
  let question_idx_to_group_idx := group_lookup (Nx.connected_components set_iter graph) in
  let all_groups := Py.sorted_set (snd <$> question_idx_to_group_idx) in
  mapM (fun '(group_no, group_idx) =>
          make_cluster questions total_score question_idx_to_group_idx group_no group_idx)
       (zip (seq 0 (length all_groups)) all_groups).

End Clustering.

(* ===================================================================== *)
(** * Specification vocabulary                                            *)
(* ===================================================================== *)

(** ** The order of binary64 values

    [Prim2SF] maps a primitive float to its IEEE 754 description.  On these
    descriptions the order is a statement about signs, exponents and
    mantissas; the comparison operators are specified against it. *)

Module SF.

Definition lt (x y : spec_float) : Prop :=
  match x, y with
  | S754_nan, _ | _, S754_nan => False
  | S754_infinity s1, S754_infinity s2 => s1 = true /\ s2 = false
  | S754_infinity s, _ => s = true
  | _, S754_infinity s => s = false
  | S754_finite s _ _, S754_zero _ => s = true
  | S754_zero _, S754_finite s _ _ => s = false
  | S754_zero _, S754_zero _ => False
  | S754_finite s1 m1 e1, S754_finite s2 m2 e2 =>
      match s1, s2 with
      | true, false => True
      | false, true => False
      | false, false => (e1 < e2 \/ (e1 = e2 /\ Z.pos m1 < Z.pos m2))%Z
      | true, true => (e2 < e1 \/ (e1 = e2 /\ Z.pos m2 < Z.pos m1))%Z
      end
  end.

(** Numerical equality: the two zeros are equal, a NaN equals nothing. *)
Definition eq (x y : spec_float) : Prop :=
  match x, y with
  | S754_nan, _ | _, S754_nan => False
  | S754_infinity s1, S754_infinity s2 => s1 = s2
  | S754_zero _, S754_zero _ => True
  | S754_finite s1 m1 e1, S754_finite s2 m2 e2 => s1 = s2 /\ m1 = m2 /\ e1 = e2
  | _, _ => False
  end.

(** Not a NaN and not below zero. *)
Definition nonneg (x : spec_float) : Prop :=
  match x with
  | S754_nan => False
  | S754_zero _ => True
  | S754_infinity s | S754_finite s _ _ => s = false
  end.

End SF.

(** A score or a weight: a value that is not a NaN and not negative. *)
Definition weight (a : float) : Prop := SF.nonneg (Prim2SF a).

(** ** Graphs *)

Module Spec.

(** Two nodes are adjacent when an edge joins them, in either direction. *)
Definition adjacent (g : Nx.Graph) (u v : nat) : Prop :=
  (u, v) ∈ Nx.edges g \/ (v, u) ∈ Nx.edges g.

(** They are connected when a path of edges leads from one to the other. *)
Definition connected (g : Nx.Graph) : relation nat := rtc (adjacent g).

(** The nodes are distinct and the edges join nodes of the graph. *)
Definition graph_wf (g : Nx.Graph) : Prop :=
  NoDup (Nx.nodes g) /\
  forall u v, (u, v) ∈ Nx.edges g -> u ∈ Nx.nodes g /\ v ∈ Nx.nodes g.

(** [reps] holds one node of [vs] from every class of [R]. *)
Definition transversal (R : relation nat) (vs reps : list nat) : Prop :=
  NoDup reps /\
  (forall r, r ∈ reps -> r ∈ vs) /\
  (forall a b, a ∈ reps -> b ∈ reps -> R a b -> a = b) /\
  (forall v, v ∈ vs -> exists r, r ∈ reps /\ R r v).

(** The nodes from which [Nx.components_from] starts a search. *)
Fixpoint sources (g : Nx.Graph) (seen : gset nat) (vs : list nat) : list nat :=
  match vs with
  | [] => []
  | v :: vs' =>
      if bool_decide (v ∈ seen) then sources g seen vs'
      else v :: sources g (seen ∪ list_to_set (Nx.plain_bfs g v)) vs'
  end.

(** A similarity matrix for [n] items: [n] rows of [n] entries. *)
Definition square (n : nat) (m : Np.ndarray) : Prop :=
  length m = n /\ Forall (fun row => length row = n) m.

(** The number of connected components. *)
Definition ncc (g : Nx.Graph) : nat := length (sources g ∅ (Nx.nodes g)).

(** Python's set iteration order yields every key of a set once. *)
Definition set_order (set_iter : list nat -> list nat) : Prop :=
  forall l, NoDup l -> set_iter l ≡ₚ l.

End Spec.

(** ** Clusters and keywords *)

(** The provider's contract.  The model of line 43 returns one vector
    for every text, all of one positive length and with finite entries,
    and the mean of its vectors is finite as well, so the validation of
    line 72 passes; scikit-learn returns one similarity for every row;
    [argsort] returns the indices in ascending order of their values,
    NaNs last, equal values in an order that numpy leaves open. *)
Record provider_ok (p : Provider) : Prop := {
  encode_rows : forall texts, length (encode p texts) = length texts;
  encode_valid : forall texts, texts <> [] -> Sk.check_array (encode p texts) = true;
  mean_valid : forall texts, texts <> [] ->
    Sk.check_array [mean_axis0 p (encode p texts)] = true /\
    length (mean_axis0 p (encode p texts)) = Np.shape1 (encode p texts);
  kernel_rows : forall x y, length (cosine_kernel p x y) = length y;
  argsort_perm : forall s, argsort p s ≡ₚ seq 0 (length s);
  argsort_sorted : forall s,
    StronglySorted (fun a b => F.np_lt (nth b s F.zero) (nth a s F.zero) = false)
      (argsort p s)
}.

(** The similarity of every text to the mean embedding as the provider
    computes it (lines 66-72), and the indices line 75 of the source
    selects from it. *)
Definition similarities (p : Provider) (texts : list string) : list float :=
  cosine_kernel p (mean_axis0 p (encode p texts)) (encode p texts).

Definition top_indices (p : Provider) (texts : list string) (top_k : Z) : list nat :=
  reverse (Py.slice_last top_k (argsort p (similarities p texts))).

(** The similarity of the text at index [i]. *)
Definition similarity (p : Provider) (texts : list string) (i : nat) : float :=
  nth i (similarities p texts) F.zero.

(** The lookup table of lines 127-132 when no index occurs twice: the
    members of every component with the group index of the component. *)
Fixpoint tag (group_idx : nat) (components : list (list nat)) : list (nat * nat) :=
  match components with
  | [] => []
  | c :: cs => ((fun idx => (idx, group_idx)) <$> c) ++ tag (S group_idx) cs
  end.

(** The centroid of a group: [max] over its members by score. *)
Definition centroid_of (total_score : gmap nat float) (members : list nat) : option nat :=
  match members with
  | [] => None
  | i :: rest => Some (Py.max_from (Py.counter_get total_score) i rest)
  end.

(** What the cluster built for the group [members] with number [group_no]
    holds. *)
Record cluster_spec (provider : Provider)
    (questions : list Question) (total_score : gmap nat float)
    (group_no : nat) (members : list nat) (c : HarmonyCluster) : Prop := {
  spec_cluster_id : cluster_id c = group_no;
  spec_item_ids : item_ids c = members;
  spec_items : Forall2 (fun i q => questions !! i = Some q) members (items c);
  spec_centroid_id : centroid_of total_score members = Some (centroid_id c);
  spec_centroid : questions !! centroid_id c = Some (centroid c);
  spec_text_description : text_description c = question_text (centroid c);
  spec_keywords :
    (generate_semantic_keywords provider (items c) 5).1 = Ok (keywords c)
}.

(** No entry of the matrix is a NaN. *)
Definition nan_free (m : list (list float)) : Prop :=
  Forall (Forall F.not_nan) m.

(** The centrality score of an item when the merge loop has ended. *)
Definition score (set_iter : list nat -> list nat) (m : list (list float))
    (num_clusters : Z) (i : nat) : float :=
  Py.counter_get (merge set_iter m num_clusters).2 i.

(** ** The accepted edges

    The entries of the ranked stream that the loop of lines 117-124
    accepts: it adds their edge and adds their weight to the score of
    both end points. *)

Fixpoint accepted (set_iter : list nat -> list nat) (num_clusters : Z)
    (stream : list ((nat * nat) * float)) (graph : Nx.Graph) : list ((nat * nat) * float) :=
  match stream with
  | [] => []
  | ((y, x), sim) :: stream' =>
      if x =? y then accepted set_iter num_clusters stream' graph
      else if (Z.of_nat (Nx.number_connected_components set_iter graph) <=? num_clusters)%Z
      then []
      else ((y, x), sim) :: accepted set_iter num_clusters stream' (Nx.add_edge graph y x)
  end.

Definition accepted_edges (set_iter : list nat -> list nat) (m : list (list float))
    (num_clusters : Z) : list ((nat * nat) * float) :=
  accepted set_iter num_clusters (ranked (Np.abs m))
    (Nx.add_nodes_from Nx.empty (seq 0 (Np.shape0 m))).

(** What one accepted entry does to the scores (lines 123 and 124). *)
Definition add_entry (ts : gmap nat float) (e : (nat * nat) * float) : gmap nat float :=
  Py.counter_iadd (Py.counter_iadd ts e.1.2 e.2) e.1.1 e.2.

(** The entry [e] has [v] as an end point. *)
Definition incident (v : nat) (e : (nat * nat) * float) : Prop := e.1.1 = v \/ e.1.2 = v.

#[global] Instance incident_dec v e : Decision (incident v e).
Proof. unfold incident. apply _. Defined.

(** The weights added to the score of [v], in the order they are added. *)
Definition contributions (v : nat) (acc : list ((nat * nat) * float)) : list float :=
  snd <$> filter (incident v) acc.

(** ** The scenario of the specification

    Four items A, B, C, D (indices 0 to 3) with [sim(A,B) = 0.9],
    [sim(C,D) = 0.8], every cross pair at most [0.1] in absolute value,
    and any diagonal that is not a NaN. *)
Definition scenario (m : list (list float)) : Prop :=
  exists d0 d1 d2 d3 c02 c03 c12 c13 c20 c21 c30 c31 : float,
    m = [[d0;  0.9; c02; c03];
         [0.9; d1;  c12; c13];
         [c20; c21; d2;  0.8];
         [c30; c31; 0.8; d3 ]]%float /\
    Forall F.not_nan [d0; d1; d2; d3] /\
    Forall (fun c => F.le (PrimFloat.abs c) 0.1 = true)
      [c02; c03; c12; c13; c20; c21; c30; c31].

(** An entry of the stream off the diagonal. *)
Definition off_diagonal (e : (nat * nat) * float) : Prop := e.1.1 <> e.1.2.

#[global] Instance off_diagonal_dec e : Decision (off_diagonal e).
Proof. unfold off_diagonal. apply _. Defined.

(** The fields of a cluster that do not come from the provider. *)
Definition core (c : HarmonyCluster)
    : nat * nat * Question * list Question * list nat * string :=
  (cluster_id c, centroid_id c, centroid c, items c, item_ids c, text_description c).

(** ** Accepted pairs and chains of them *)

(** The loop accepted an entry that joins [a] and [b], in either
    direction. *)
Definition accepted_pair (set_iter : list nat -> list nat) (m : list (list float))
    (num_clusters : Z) (a b : nat) : Prop :=
  (a, b) ∈ (accepted_edges set_iter m num_clusters).*1 \/
  (b, a) ∈ (accepted_edges set_iter m num_clusters).*1.

(** A chain of accepted pairs leads from one item to the other. *)
Definition linked (set_iter : list nat -> list nat) (m : list (list float))
    (num_clusters : Z) : relation nat :=
  rtc (accepted_pair set_iter m num_clusters).

(** ** CPython sets of small integers *)

(** Every key of the table sits in the slot of its own number. *)
Definition direct (t : PySet.table) : Prop :=
  forall j x, t !! j = Some (Some x) -> x = j.

(** The tables that sets of integers below eight go through: the first
    table of eight slots with at most four keys, or the table of
    thirty-two slots after the one resize. *)
Definition small_table (t : PySet.table) : Prop :=
  ((length t = 8 /\ PySet.used t <= 4) \/ length t = 32) /\
  direct t /\
  Forall (fun x => x < 8) (PySet.keys t).

(** ** Inputs for the examples *)

Module Example.

(** A provider for the examples, in binary64 throughout.  It stands in
    for the platform's, whose rounding and whose order of equal values it
    does not claim to reproduce; the examples need a provider that meets
    the contract.

    The vector of a text: its length and a constant. *)
Definition of_nat (n : nat) : float := PrimFloat.of_uint63 (Uint63.of_Z (Z.of_nat n)).

Definition vector (t : string) : list float :=
  let v := of_nat (String.length t) in
  [if PrimFloat.is_finite v then v else PrimFloat.one; PrimFloat.one].

Definition vectors (texts : list string) : list (list float) := vector <$> texts.

(** The mean of every column, added left to right; the first row should
    a sum overflow. *)
Definition column_mean (e : list (list float)) : list float :=
  (fun j => PrimFloat.div (Np.sum ((fun row : list float => nth j row F.zero) <$> e))
                          (of_nat (length e)))
    <$> seq 0 (Np.shape1 e).

Definition mean (e : list (list float)) : list float :=
  let m := column_mean e in
  if forallb PrimFloat.is_finite m then m else hd [] e.

(** The cosine of the angle between [x] and every row of [e]: rows
    divided by their Euclidean norm, a zero norm replaced by one, and
    products added left to right. *)
Definition dot (u v : list float) : float := Np.sum (zip_with PrimFloat.mul u v).

Definition normalize (v : list float) : list float :=
  let n := PrimFloat.sqrt (dot v v) in
  let n := if PrimFloat.eqb n F.zero then PrimFloat.one else n in
  (fun x => PrimFloat.div x n) <$> v.

Definition cosine (x : list float) (e : list (list float)) : list float :=
  (fun row : list float => dot (normalize x) (normalize row)) <$> e.

(** A stable sort by insertion: ascending, NaNs last, equal values in
    index order. *)
Fixpoint insert_asc (key : nat -> float) (i : nat) (l : list nat) : list nat :=
  match l with
  | [] => [i]
  | j :: l' =>
      if F.np_lt (key j) (key i) then j :: insert_asc key i l' else i :: j :: l'
  end.

Definition stable_argsort (s : list float) : list nat :=
  foldr (insert_asc (fun i => nth i s F.zero)) [] (seq 0 (length s)).

Definition provider : Provider := mkProvider vectors mean cosine stable_argsort.

(** A provider whose vectors hold an infinity. *)
Definition overflowing : Provider :=
  mkProvider (fun texts => (fun _ => [PrimFloat.infinity]) <$> texts) mean cosine stable_argsort.

Definition questions (n : nat) : list Question :=
  (fun i => mkQuestion (String.concat "" (replicate (S i) "q"))%string) <$> seq 0 n.

(** The four items of the scenario: [sim(A,B) = 0.9], [sim(C,D) = 0.8],
    cross pairs at most [0.1]. *)
Definition scenario_matrix : list (list float) :=
  [[1;    0.9;  0.1;  0.05];
   [0.9;  1;   -0.1;  0   ];
   [0.1; -0.1;  1;    0.8 ];
   [0.05; 0;    0.8;  1   ]]%float.

(** Nine items of which only items 1 and 8 are similar. *)
Definition tie_matrix : list (list float) :=
  (fun y => (fun x => if y =? x then 1%float
                      else if ((y =? 1) && (x =? 8)) || ((y =? 8) && (x =? 1)) then 0.9%float
                      else 0%float) <$> seq 0 9) <$> seq 0 9.

(** Two items. *)
Definition pair_matrix : list (list float) := [[1; 0.5]; [0.5; 1]]%float.

(** Three items. *)
Definition triple_matrix : list (list float) :=
  [[1; 0.5; 0.2]; [0.5; 1; 0.3]; [0.2; 0.3; 1]]%float.

(** Two items with NaN for their similarity. *)
Definition nan_matrix : list (list float) :=
  [[1; PrimFloat.nan]; [PrimFloat.nan; 1]]%float.

(** Two rows of three entries. *)
Definition wide_matrix : list (list float) :=
  [[1; 0.5; 0.9]; [0.5; 1; 0.2]]%float.

(** The matrix of the scenario with the signs of some entries changed,
    and with another diagonal. *)
Definition scenario_matrix_signs : list (list float) :=
  [[-1;    0.9; -0.1;  0.05];
   [-0.9;  1;    0.1;  0   ];
   [0.1;   0.1;  1;   -0.8 ];
   [-0.05; 0;    0.8;  1   ]]%float.

Definition scenario_matrix_diagonal : list (list float) :=
  [[0;    0.9;  0.1;  0.05];
   [0.9;  0.5; -0.1;  0   ];
   [0.1; -0.1;  2;    0.8 ];
   [0.05; 0;    0.8;  0   ]]%float.

End Example.

(** ** Proof automation for the case analyses on float descriptions *)

Ltac sf_destruct :=
  repeat match goal with
         | x : spec_float |- _ => destruct x
         | s : bool |- _ => destruct s
         end; simpl in *.

Ltac sf_compare :=
  rewrite ?Pos.compare_cont_spec; simpl;
  repeat match goal with
         | |- context [(?a ?= ?b)%Z] => destruct (Z.compare_spec a b); simpl
         | |- context [(?a ?= ?b)%positive] => destruct (Pos.compare_spec a b); simpl
         end.

Ltac sf_crush := intros; try done; try lia; intuition (try done; try lia; try congruence).

(* ===================================================================== *)
(** * Part II: lemmas and theorems                                        *)
(* ===================================================================== *)

(** ** Facts about binary64 comparison and addition *)

Module FloatFacts.

Lemma SFltb_lt x y : SFltb x y = true <-> SF.lt x y.
Proof. unfold SFltb. sf_destruct; sf_compare; split; sf_crush. Qed.

Lemma SFleb_le x y : SFleb x y = true <-> SF.lt x y \/ SF.eq x y.
Proof. unfold SFleb. sf_destruct; sf_compare; split; sf_crush. Qed.

Lemma SFeqb_refl x : SFeqb x x = true <-> x <> S754_nan.
Proof.
  unfold SFeqb. destruct x as [s|s| |s m e]; simpl; try destruct s; simpl;
    rewrite ?Pos.compare_cont_spec, ?Z.compare_refl, ?Pos.compare_refl; simpl; split; sf_crush.
Qed.

Lemma sf_lt_trans x y z : SF.lt x y -> SF.lt y z -> SF.lt x z.
Proof. sf_destruct; sf_crush. Qed.

Lemma sf_lt_irrefl x : ~ SF.lt x x.
Proof. sf_destruct; sf_crush. Qed.

Lemma sf_trichotomy x y :
  x <> S754_nan -> y <> S754_nan -> SF.lt x y \/ SF.eq x y \/ SF.lt y x.
Proof.
  sf_destruct; intros; try done; try lia; auto.
  all: destruct (Z.lt_total e e0) as [?|[?|?]], (Pos.lt_total m m0) as [?|[?|?]];
    subst; auto; sf_crush.
Qed.

Lemma sf_eq_lt x y z : SF.eq x y -> SF.lt y z -> SF.lt x z.
Proof. sf_destruct; sf_crush. Qed.

Lemma sf_lt_eq x y z : SF.lt x y -> SF.eq y z -> SF.lt x z.
Proof. sf_destruct; sf_crush. Qed.

Lemma sf_eq_not_lt x y : SF.eq x y -> ~ SF.lt x y /\ ~ SF.lt y x.
Proof. sf_destruct; sf_crush. Qed.

Lemma sf_lt_asym x y : SF.lt x y -> ~ SF.lt y x.
Proof. intros H1 H2. exact (sf_lt_irrefl _ (sf_lt_trans _ _ _ H1 H2)). Qed.

(** *** The primitive operators *)

Lemma is_nan_spec a : PrimFloat.is_nan a = true <-> Prim2SF a = S754_nan.
Proof.
  unfold PrimFloat.is_nan. rewrite FloatAxioms.eqb_spec.
  generalize (Prim2SF a). intros s. pose proof (SFeqb_refl s) as H.
  destruct (SFeqb s s); simpl; split; intros; try done.
  - exfalso. by apply H.
  - destruct s; try done; exfalso; by (assert (false = true) by (by apply H)).
Qed.

Lemma not_nan_spec a : F.not_nan a <-> Prim2SF a <> S754_nan.
Proof.
  unfold F.not_nan. rewrite <- is_nan_spec. by destruct (PrimFloat.is_nan a).
Qed.

Lemma lt_spec a b : F.lt a b = true <-> SF.lt (Prim2SF a) (Prim2SF b).
Proof. unfold F.lt. by rewrite FloatAxioms.ltb_spec, SFltb_lt. Qed.

Lemma gt_spec a b : F.gt a b = true <-> SF.lt (Prim2SF b) (Prim2SF a).
Proof. apply lt_spec. Qed.

Lemma le_spec a b :
  F.le a b = true <-> SF.lt (Prim2SF a) (Prim2SF b) \/ SF.eq (Prim2SF a) (Prim2SF b).
Proof. unfold F.le. by rewrite FloatAxioms.leb_spec, SFleb_le. Qed.

Lemma lt_irrefl a : F.lt a a = false.
Proof.
  destruct (F.lt a a) eqn:E; [|done]. apply lt_spec in E. by apply sf_lt_irrefl in E.
Qed.

Lemma lt_trans a b c : F.lt a b = true -> F.lt b c = true -> F.lt a c = true.
Proof. rewrite !lt_spec. apply sf_lt_trans. Qed.

Lemma lt_not_nan a b : F.lt a b = true -> F.not_nan a /\ F.not_nan b.
Proof.
  rewrite lt_spec, !not_nan_spec. destruct (Prim2SF a), (Prim2SF b); simpl; sf_crush.
Qed.

(** On values that are not NaNs the order is total: a value that is not
    below another is above it or equal to it. *)
Lemma le_of_not_lt a b :
  F.not_nan a -> F.not_nan b -> F.lt b a = false -> F.le a b = true.
Proof.
  rewrite !not_nan_spec. intros Ha Hb Hlt. apply le_spec.
  destruct (sf_trichotomy _ _ Ha Hb) as [?|[?|H]]; auto.
  apply lt_spec in H. congruence.
Qed.

Lemma not_lt_of_le a b : F.le a b = true -> F.lt b a = false.
Proof.
  rewrite le_spec. intros H. destruct (F.lt b a) eqn:E; [|done].
  apply lt_spec in E. destruct H as [H|H].
  - by apply sf_lt_asym in H.
  - by apply sf_eq_not_lt in H as [_ H].
Qed.

Lemma le_not_nan a b : F.le a b = true -> F.not_nan a /\ F.not_nan b.
Proof.
  rewrite le_spec, !not_nan_spec. destruct (Prim2SF a), (Prim2SF b); simpl; sf_crush.
Qed.

Lemma lt_le_trans a b c : F.lt a b = true -> F.le b c = true -> F.lt a c = true.
Proof.
  rewrite le_spec, !lt_spec. intros H [H'|H'].
  - by eapply sf_lt_trans.
  - by eapply sf_lt_eq.
Qed.

Lemma le_lt_trans a b c : F.le a b = true -> F.lt b c = true -> F.lt a c = true.
Proof.
  rewrite le_spec, !lt_spec. intros [H|H] H'.
  - by eapply sf_lt_trans.
  - by eapply sf_eq_lt.
Qed.

(** Negative transitivity: a value between which and [a < b] no order
    holds would have to be a NaN. *)
Lemma lt_cotrans a b c :
  F.not_nan c -> F.lt a b = true -> F.lt a c = true \/ F.lt c b = true.
Proof.
  intros Hc Hab. destruct (lt_not_nan _ _ Hab) as [Ha Hb].
  rewrite !lt_spec in *. rewrite !not_nan_spec in *.
  destruct (sf_trichotomy _ _ Ha Hc) as [?|[H|H]]; auto; right.
  - apply sf_eq_not_lt in H as H'.
    revert H Hab. clear. destruct (Prim2SF a), (Prim2SF b), (Prim2SF c); sf_destruct; sf_crush.
  - by eapply sf_lt_trans.
Qed.

(** *** Weights: absolute values and their sums *)

Lemma weight_not_nan a : weight a -> F.not_nan a.
Proof. unfold weight. rewrite not_nan_spec. by destruct (Prim2SF a). Qed.

Lemma weight_zero : weight F.zero.
Proof. by vm_compute. Qed.

Lemma weight_abs a : F.not_nan a -> weight (PrimFloat.abs a).
Proof.
  unfold weight. rewrite not_nan_spec, abs_spec. by destruct (Prim2SF a).
Qed.

Lemma iter_pos_invariant {A} (P : A -> Prop) (f : A -> A) :
  (forall x, P x -> P (f x)) -> forall p x, P x -> P (SpecFloat.iter_pos f p x).
Proof. intros Hf. induction p; simpl; auto. Qed.

Lemma shr_1_nonneg mrs : (0 <= shr_m mrs)%Z -> (0 <= shr_m (shr_1 mrs))%Z.
Proof. destruct mrs as [[|[p|p|]|[p|p|]] r s]; simpl; lia. Qed.

Lemma shr_fexp_nonneg m e l :
  (0 <= m)%Z -> (0 <= shr_m (shr_fexp prec emax m e l).1)%Z.
Proof.
  intros Hm. unfold shr_fexp, shr.
  assert (0 <= shr_m (shr_record_of_loc m l))%Z as H0
    by (destruct l as [|[]]; simpl; lia).
  destruct (_ - e)%Z; simpl; try done.
  by apply (iter_pos_invariant (fun r => 0 <= shr_m r)%Z), H0; apply shr_1_nonneg.
Qed.

Lemma round_nearest_even_nonneg m l : (0 <= m)%Z -> (0 <= round_nearest_even m l)%Z.
Proof. destruct l as [|[]]; simpl; try lia. destruct (Z.even m); lia. Qed.

(** Rounding a non-negative mantissa never yields a NaN and keeps the
    sign it is given. *)
Lemma binary_round_aux_sign sx mx ex lx :
  (0 <= mx)%Z ->
  match binary_round_aux prec emax sx mx ex lx with
  | S754_nan => False
  | S754_zero s | S754_infinity s | S754_finite s _ _ => s = sx
  end.
Proof.
  intros Hm. unfold binary_round_aux.
  pose proof (shr_fexp_nonneg mx ex lx Hm) as H1.
  destruct (shr_fexp prec emax mx ex lx) as [mrs' e'] eqn:E1. simpl in H1.
  pose proof (shr_fexp_nonneg _ e' loc_Exact
                (round_nearest_even_nonneg _ (loc_of_shr_record mrs') H1)) as H2.
  destruct (shr_fexp prec emax (round_nearest_even _ _) e' loc_Exact) as [mrs'' e''] eqn:E2.
  simpl in H2. destruct (shr_m mrs''); try lia; try done.
  by destruct (_ <=? _)%Z.
Qed.

Lemma SFadd_nonneg x y : SF.nonneg x -> SF.nonneg y -> SF.nonneg (SF64add x y).
Proof.
  destruct x as [sx|sx| |sx mx ex], y as [sy|sy| |sy my ey]; simpl; try done;
    intros Hx Hy; subst; try (by repeat case_match).
  unfold binary_normalize. simpl.
  pose proof (binary_round_aux_sign false) as H.
  unfold binary_round. destruct (shl_align _ _ _) as [mz ez].
  specialize (H (Z.pos mz) ez loc_Exact ltac:(lia)). by destruct (binary_round_aux _ _ _ _ _ _).
Qed.

Lemma weight_add a b : weight a -> weight b -> weight (PrimFloat.add a b).
Proof. unfold weight. rewrite add_spec. apply SFadd_nonneg. Qed.

End FloatFacts.

(** ** CPython sets yield every key once *)

Module PySetFacts.

Lemma keys_insert (t : PySet.table) j x :
  t !! j = Some None -> PySet.keys (<[j := Some x]> t) ≡ₚ x :: PySet.keys t.
Proof.
  unfold PySet.keys. revert j. induction t as [|o t IH]; intros [|j] Hj; simplify_eq/=; try done.
  destruct o as [y|]; simpl.
  - rewrite (IH j Hj). apply perm_swap.
  - by apply IH.
Qed.

Lemma keys_app (t1 t2 : PySet.table) : PySet.keys (t1 ++ t2) = PySet.keys t1 ++ PySet.keys t2.
Proof. apply omap_app. Qed.

Lemma keys_replicate n : PySet.keys (replicate n None) = [].
Proof. unfold PySet.keys. induction n; simpl; auto. Qed.

Lemma first_free_spec t i probes j :
  PySet.first_free t i probes = Some j -> t !! j = Some None.
Proof.
  revert i. induction probes as [|p IH]; intros i; simpl; unfold PySet.slot_free;
    case_bool_decide; intros; simplify_eq; eauto.
Qed.

Lemma probe_spec fuel t i perturb j :
  PySet.probe fuel t i perturb = Some j -> t !! j = Some None.
Proof.
  revert i perturb. induction fuel as [|fuel IH]; intros i perturb; simpl; [done|].
  destruct (PySet.first_free _ _ _) eqn:E; intros; simplify_eq; eauto using first_free_spec.
Qed.

Lemma keys_insert_clean t x : PySet.keys (PySet.insert_clean t x) ≡ₚ x :: PySet.keys t.
Proof.
  unfold PySet.insert_clean. destruct (PySet.probe _ _ _ _) eqn:E.
  - eauto using keys_insert, probe_spec.
  - rewrite keys_app. simpl. by rewrite Permutation_app_comm.
Qed.

Lemma keys_foldl_insert_clean l t :
  PySet.keys (foldl PySet.insert_clean t l) ≡ₚ PySet.keys t ++ l.
Proof.
  revert t. induction l as [|x l IH]; intros t; simpl.
  - by rewrite app_nil_r.
  - rewrite IH, keys_insert_clean. simpl. apply Permutation_middle.
Qed.

Lemma keys_resize t n : PySet.keys (PySet.resize t n) ≡ₚ PySet.keys t.
Proof. unfold PySet.resize. by rewrite keys_foldl_insert_clean, keys_replicate. Qed.

Lemma keys_add t x :
  x ∉ PySet.keys t -> PySet.keys (PySet.add t x) ≡ₚ x :: PySet.keys t.
Proof.
  intros Hx. unfold PySet.add. rewrite bool_decide_eq_false_2 by done.
  destruct (_ <? _)%Z; rewrite ?keys_resize; apply keys_insert_clean.
Qed.

Lemma keys_foldl_add l t :
  NoDup (PySet.keys t ++ l) -> PySet.keys (foldl PySet.add t l) ≡ₚ PySet.keys t ++ l.
Proof.
  revert t. induction l as [|x l IH]; intros t Hnd; simpl.
  - by rewrite app_nil_r.
  - assert (x ∉ PySet.keys t) as Hx.
    { apply NoDup_app in Hnd as (_ & Hd & _). intros Hin. apply (Hd _ Hin). by left. }
    rewrite IH.
    + rewrite keys_add by done. simpl. apply Permutation_middle.
    + rewrite keys_add by done. simpl. by rewrite Permutation_middle.
Qed.

(** A set built from distinct keys yields exactly those keys. *)
Lemma iter_permutation l : NoDup l -> PySet.iter l ≡ₚ l.
Proof.
  intros Hl. unfold PySet.iter. rewrite keys_foldl_add; unfold PySet.empty;
    by rewrite keys_replicate.
Qed.

End PySetFacts.

(** ** Breadth-first search and connected components *)

Module GraphFacts.
Import Spec.

Lemma elem_of_neighbors g v w : w ∈ Nx.neighbors g v <-> adjacent g v w.
Proof.
  unfold Nx.neighbors, adjacent. rewrite list_elem_of_bind. split.
  - intros ([a b] & Hw & He). simpl in Hw.
    destruct (Nat.eqb_spec a v) as [Ea|Ea].
    + apply list_elem_of_singleton in Hw. subst. by left.
    + destruct (Nat.eqb_spec b v) as [Eb|Eb].
      * apply list_elem_of_singleton in Hw. subst. by right.
      * by apply elem_of_nil in Hw.
  - intros [H|H].
    + exists (v, w). split; [|done]. simpl. rewrite Nat.eqb_refl. by left.
    + exists (w, v). split; [|done]. simpl. rewrite Nat.eqb_refl.
      destruct (Nat.eqb_spec w v) as [->|]; by left.
Qed.

#[global] Instance adjacent_sym g : Symmetric (adjacent g).
Proof. intros u v. unfold adjacent. tauto. Qed.

#[global] Instance connected_equivalence g : Equivalence (connected g).
Proof. unfold connected. apply _. Qed.

Lemma connected_sym g u v : connected g u v -> connected g v u.
Proof. by intros ?. Qed.

Lemma connected_step g u v w : connected g u v -> adjacent g v w -> connected g u w.
Proof. intros. by eapply rtc_r. Qed.

(** *** One level of the search *)

Lemma visit_fold ws st :
  NoDup st.1 ->
  exists new,
    (foldl Nx.visit st ws).1 = st.1 ++ new /\
    (foldl Nx.visit st ws).2 = st.2 ++ new /\
    NoDup (st.1 ++ new) /\
    (forall w, w ∈ new -> w ∈ ws) /\
    (forall w, w ∈ ws -> w ∈ st.1 ++ new).
Proof.
  revert st. induction ws as [|w ws IH]; intros [seen next] Hnd; simpl in *.
  - exists []. rewrite !app_nil_r. split_and!; auto; intros ? H; by apply elem_of_nil in H.
  - destruct (decide (w ∈ seen)) as [Hw|Hw].
    + assert (Nx.visit (seen, next) w = (seen, next)) as ->
        by (unfold Nx.visit; simpl; by rewrite bool_decide_eq_true_2).
      destruct (IH (seen, next) Hnd) as (new & E1 & E2 & H1 & H2 & H3). simpl in *.
      exists new. split_and!; auto.
      * intros w' Hw'. apply elem_of_cons. right. auto.
      * intros w' [->|Hin]%elem_of_cons; [|auto]. apply elem_of_app. by left.
    + assert (Nx.visit (seen, next) w = (seen ++ [w], next ++ [w])) as ->
        by (unfold Nx.visit; simpl; by rewrite bool_decide_eq_false_2).
      assert (NoDup (seen ++ [w])) as Hnd'.
      { apply NoDup_app. repeat split; auto.
        - intros x Hx ->%list_elem_of_singleton. done.
        - apply NoDup_singleton. }
      destruct (IH (seen ++ [w], next ++ [w]) Hnd') as (new & E1 & E2 & H1 & H2 & H3).
      simpl in *. exists (w :: new). rewrite E1, E2, <- !(assoc_L (++)). simpl.
      rewrite <- !(assoc_L (++)) in H1. simpl in H1.
      split_and!; auto.
      * intros w' [->|Hin]%elem_of_cons; apply elem_of_cons; [by left|right; auto].
      * intros w' [->|Hin]%elem_of_cons.
        -- apply elem_of_app. right. by left.
        -- specialize (H3 _ Hin). by rewrite <- (assoc_L (++)) in H3.
Qed.

Lemma expand_level_fold g level st :
  NoDup st.1 ->
  let st' := foldl (fun st v => foldl Nx.visit st (Nx.neighbors g v)) st level in
  exists new,
    st'.1 = st.1 ++ new /\
    st'.2 = st.2 ++ new /\
    NoDup (st.1 ++ new) /\
    (forall w, w ∈ new -> exists v, v ∈ level /\ adjacent g v w) /\
    (forall v w, v ∈ level -> adjacent g v w -> w ∈ st.1 ++ new).
Proof.
  revert st. induction level as [|v level IH]; intros st Hnd; simpl.
  - exists []. rewrite !app_nil_r. split_and!; auto.
    + intros ? H; by apply elem_of_nil in H.
    + intros ? ? H; by apply elem_of_nil in H.
  - destruct (visit_fold (Nx.neighbors g v) st Hnd) as (new1 & E1 & E2 & H1 & H2 & H3).
    set (st1 := foldl Nx.visit st (Nx.neighbors g v)) in *.
    assert (NoDup st1.1) as Hnd1 by (by rewrite E1).
    destruct (IH st1 Hnd1) as (new2 & F1 & F2 & G1 & G2 & G3).
    exists (new1 ++ new2). rewrite F1, F2, E1, E2, !(assoc_L (++)).
    rewrite E1 in G1. rewrite E1 in G3.
    split_and!; auto.
    + intros w [Hw|Hw]%elem_of_app.
      * exists v. split; [by left|]. apply elem_of_neighbors. auto.
      * destruct (G2 _ Hw) as (v' & ? & ?). exists v'. split; [by right|done].
    + intros v' w [->|Hin]%elem_of_cons Hadj.
      * apply elem_of_app. left. apply H3. by apply elem_of_neighbors.
      * eauto.
Qed.

Lemma expand_level_spec g seen level :
  NoDup seen ->
  exists new,
    Nx.expand_level g seen level = (seen ++ new, new) /\
    NoDup (seen ++ new) /\
    (forall w, w ∈ new -> exists v, v ∈ level /\ adjacent g v w) /\
    (forall v w, v ∈ level -> adjacent g v w -> w ∈ seen ++ new).
Proof.
  intros Hnd. destruct (expand_level_fold g level (seen, []) Hnd) as (new & E1 & E2 & H).
  exists new. split; [|done]. unfold Nx.expand_level.
  destruct (foldl _ _ _) as [a b]. simpl in *. by subst.
Qed.

Lemma adjacent_nodes g u w : graph_wf g -> adjacent g u w -> u ∈ Nx.nodes g /\ w ∈ Nx.nodes g.
Proof. intros [_ Hwf] [H|H]; apply Hwf in H; tauto. Qed.

Lemma NoDup_incl_length (l k : list nat) :
  NoDup l -> (forall x, x ∈ l -> x ∈ k) -> length l <= length k.
Proof. intros Hl Hin. apply submseteq_length. by apply NoDup_submseteq. Qed.

(** *** The search as a whole *)

Lemma bfs_levels_spec fuel g : graph_wf g -> forall seen level,
  NoDup seen ->
  (forall u, u ∈ seen -> u ∈ Nx.nodes g) ->
  (forall u, u ∈ level -> u ∈ seen) ->
  (forall u w, u ∈ seen -> u ∉ level -> adjacent g u w -> w ∈ seen) ->
  (level = [] \/ length (Nx.nodes g) < fuel + length seen) ->
  let R := Nx.bfs_levels fuel g seen level in
  NoDup R /\
  (forall u, u ∈ seen -> u ∈ R) /\
  (forall u, u ∈ R -> u ∈ Nx.nodes g) /\
  (forall u w, u ∈ R -> adjacent g u w -> w ∈ R) /\
  (forall w, w ∈ R -> exists u, u ∈ seen /\ connected g u w).
Proof.
  intros Hwf. induction fuel as [|fuel IH]; intros seen level Hnd Hnodes Hlevel Hclosed Hfuel.
  - assert (level = []) as ->.
    { destruct Hfuel as [?|Hf]; [done|]. pose proof (NoDup_incl_length _ _ Hnd Hnodes). simpl in Hf. lia. }
    simpl. split_and!; auto.
    + intros u w Hu. apply Hclosed; [done|]. apply not_elem_of_nil.
    + intros w Hw. exists w. split; [done|]. reflexivity.
  - destruct level as [|v level]; simpl.
    { split_and!; auto.
      + intros u w Hu. apply Hclosed; [done|]. apply not_elem_of_nil.
      + intros w Hw. exists w. split; [done|]. reflexivity. }
    destruct (expand_level_spec g seen (v :: level) Hnd) as (new & -> & Hnd' & Hnew & Hadj).
    assert (forall u, u ∈ seen ++ new -> u ∈ Nx.nodes g) as Hnodes'.
    { intros u [Hu|Hu]%elem_of_app; [auto|].
      destruct (Hnew _ Hu) as (v' & _ & Hv'). by apply (adjacent_nodes g v' u). }
    destruct (IH (seen ++ new) new) as (H1 & H2 & H3 & H4 & H5); auto.
    + intros u Hu. apply elem_of_app. by right.
    + intros u w [Hu|Hu]%elem_of_app Hun Ha; [|done].
      destruct (decide (u ∈ v :: level)) as [Hl|Hl]; [by eapply Hadj|].
      apply elem_of_app. left. by eapply Hclosed.
    + destruct new as [|n new]; [by left|right].
      destruct Hfuel as [?|Hf]; [done|]. rewrite length_app. simpl in *. lia.
    + split_and!; auto.
      * intros u Hu. apply H2, elem_of_app. by left.
      * intros w Hw. destruct (H5 _ Hw) as (u & [Hu|Hu]%elem_of_app & Hc); [by exists u|].
        destruct (Hnew _ Hu) as (v' & Hv' & Ha). exists v'. split; [auto|].
        etrans; [|exact Hc]. by apply rtc_once.
Qed.

(** [plain_bfs] returns the nodes connected to its source, each once. *)
Lemma plain_bfs_spec g v :
  graph_wf g -> v ∈ Nx.nodes g ->
  NoDup (Nx.plain_bfs g v) /\
  (forall w, w ∈ Nx.plain_bfs g v <-> connected g v w) /\
  (forall w, w ∈ Nx.plain_bfs g v -> w ∈ Nx.nodes g).
Proof.
  intros Hwf Hv. unfold Nx.plain_bfs.
  destruct (bfs_levels_spec (length (Nx.nodes g)) g Hwf [v] [v]) as (H1 & H2 & H3 & H4 & H5).
  - apply NoDup_singleton.
  - by intros u ->%list_elem_of_singleton.
  - done.
  - intros u w Hu Hn. done.
  - right. simpl. lia.
  - split_and!; auto. intros w. split.
    + intros Hw. by destruct (H5 _ Hw) as (u & ->%list_elem_of_singleton & Hc).
    + unfold connected. revert w. apply rtc_ind_r.
      * apply H2. by apply list_elem_of_singleton.
      * eauto.
Qed.

Lemma elem_of_plain_bfs g v w :
  graph_wf g -> v ∈ Nx.nodes g -> w ∈ Nx.plain_bfs g v <-> connected g v w.
Proof. intros Hwf Hv. by apply plain_bfs_spec. Qed.

Lemma connected_nodes g v w : graph_wf g -> v ∈ Nx.nodes g -> connected g v w -> w ∈ Nx.nodes g.
Proof.
  intros Hwf Hv Hc. destruct (plain_bfs_spec g v Hwf Hv) as (_ & H & Hn). by apply Hn, H.
Qed.

Lemma connected_decide g v w :
  graph_wf g -> v ∈ Nx.nodes g -> connected g v w \/ ~ connected g v w.
Proof.
  intros Hwf Hv. rewrite <- (elem_of_plain_bfs g v w Hwf Hv).
  destruct (decide (w ∈ Nx.plain_bfs g v)); auto.
Qed.

(** *** The components *)

Lemma sources_spec g : graph_wf g -> forall vs seen,
  NoDup vs ->
  (forall v, v ∈ vs -> v ∈ Nx.nodes g) ->
  (forall u w, u ∈ seen -> connected g u w -> w ∈ seen) ->
  let S := sources g seen vs in
  NoDup S /\
  (forall s, s ∈ S -> s ∈ vs /\ s ∉ seen) /\
  (forall a b, a ∈ S -> b ∈ S -> connected g a b -> a = b) /\
  (forall v, v ∈ vs -> v ∈ seen \/ exists s, s ∈ S /\ connected g s v).
Proof.
  intros Hwf. induction vs as [|v vs IH]; intros seen Hnd Hnodes Hclosed; simpl.
  - split_and!; [apply NoDup_nil_2|..]; intros; exfalso; by eapply not_elem_of_nil.
  - apply NoDup_cons in Hnd as [Hv Hnd].
    assert (forall v', v' ∈ vs -> v' ∈ Nx.nodes g) as Hnodes' by (intros; apply Hnodes; by right).
    case_bool_decide as Hseen.
    + destruct (IH seen Hnd Hnodes' Hclosed) as (H1 & H2 & H3 & H4). split_and!; auto.
      * intros s Hs. destruct (H2 _ Hs). split; [by right|done].
      * intros v' [->|Hv']%elem_of_cons; auto.
    + assert (v ∈ Nx.nodes g) as Hvn by (apply Hnodes; by left).
      set (seen' := seen ∪ list_to_set (Nx.plain_bfs g v)).
      assert (forall u, u ∈ seen' <-> u ∈ seen \/ connected g v u) as Hseen'.
      { intros u. unfold seen'. rewrite elem_of_union, elem_of_list_to_set.
        by rewrite elem_of_plain_bfs. }
      destruct (IH seen' Hnd Hnodes') as (H1 & H2 & H3 & H4).
      { intros u w [Hu|Hu]%Hseen' Hc; apply Hseen'; [left; by eapply Hclosed|right].
        by etrans. }
      split_and!.
      * apply NoDup_cons. split; [|done]. intros Hin. by destruct (H2 _ Hin).
      * intros s [->|Hs]%elem_of_cons; [split; [by left|done]|].
        destruct (H2 _ Hs) as [? Hns]. split; [by right|]. intros ?. apply Hns, Hseen'. by left.
      * intros a b [->|Ha]%elem_of_cons [->|Hb]%elem_of_cons Hc; auto.
        -- destruct (H2 _ Hb) as [_ Hns]. exfalso. apply Hns, Hseen'. by right.
        -- destruct (H2 _ Ha) as [_ Hns]. exfalso. apply Hns, Hseen'. right. by symmetry.
      * intros v' [->|Hv']%elem_of_cons.
        -- right. exists v. split; [by left|reflexivity].
        -- destruct (H4 _ Hv') as [[?|?]%Hseen'|(s & ? & ?)]; auto.
           ++ right. exists v. split; [by left|done].
           ++ right. exists s. split; [by right|done].
Qed.

(** The sources are one node from every connected component. *)
Lemma sources_transversal g :
  graph_wf g -> transversal (connected g) (Nx.nodes g) (sources g ∅ (Nx.nodes g)).
Proof.
  intros Hwf. assert (NoDup (Nx.nodes g)) as Hnd by apply Hwf.
  destruct (sources_spec g Hwf (Nx.nodes g) ∅ Hnd) as (H1 & H2 & H3 & H4).
  { auto. }
  { intros u w Hu. by apply not_elem_of_empty in Hu. }
  split_and!; auto.
  - intros r Hr. by destruct (H2 _ Hr).
  - intros v Hv. destruct (H4 _ Hv) as [Hin|?]; [|done]. by apply not_elem_of_empty in Hin.
Qed.

Section SetOrder.

Variable set_iter : list nat -> list nat.
Hypothesis set_iter_perm : set_order set_iter.

Lemma components_from_sources g : graph_wf g -> forall vs seen,
  (forall v, v ∈ vs -> v ∈ Nx.nodes g) ->
  Nx.components_from set_iter g seen vs
  = (fun v => set_iter (Nx.plain_bfs g v)) <$> sources g seen vs.
Proof using set_iter_perm.
  intros Hwf. induction vs as [|v vs IH]; intros seen Hnodes; simpl; [done|].
  assert (forall v', v' ∈ vs -> v' ∈ Nx.nodes g) as Hnodes' by (intros; apply Hnodes; by right).
  case_bool_decide; [by apply IH|].
  assert (list_to_set (set_iter (Nx.plain_bfs g v)) = (list_to_set (Nx.plain_bfs g v) : gset nat))
    as ->.
  { apply set_eq. intros x. rewrite !elem_of_list_to_set.
    assert (set_iter (Nx.plain_bfs g v) ≡ₚ Nx.plain_bfs g v) as Hp.
    { apply set_iter_perm, plain_bfs_spec; [done|]. apply Hnodes. by left. }
    by rewrite Hp. }
  simpl. f_equal. by apply IH.
Qed.

Lemma connected_components_sources g :
  graph_wf g ->
  Nx.connected_components set_iter g
  = (fun v => set_iter (Nx.plain_bfs g v)) <$> sources g ∅ (Nx.nodes g).
Proof using set_iter_perm. intros Hwf. by apply components_from_sources. Qed.

Lemma number_connected_components_sources g :
  graph_wf g ->
  Nx.number_connected_components set_iter g = length (sources g ∅ (Nx.nodes g)).
Proof using set_iter_perm.
  intros Hwf. unfold Nx.number_connected_components.
  by rewrite connected_components_sources, length_fmap.
Qed.

End SetOrder.

End GraphFacts.

(** ** Counting components *)

Module CountFacts.
Import Spec GraphFacts.

Lemma injection_length (Q : nat -> nat -> Prop) (l1 : list nat) : forall l2 : list nat,
  NoDup l1 ->
  (forall a, a ∈ l1 -> exists b, b ∈ l2 /\ Q a b) ->
  (forall a a' b, a ∈ l1 -> a' ∈ l1 -> Q a b -> Q a' b -> a = a') ->
  length l1 <= length l2.
Proof.
  induction l1 as [|a l1 IH]; intros l2 Hnd Hex Hinj; simpl; [lia|].
  apply NoDup_cons in Hnd as [Ha Hnd].
  destruct (Hex a) as (b & Hb & Hab); [by left|].
  apply elem_of_Permutation in Hb as [l2' Hl2].
  rewrite Hl2. simpl. apply le_n_S, IH; [done| |].
  - intros a' Ha'. destruct (Hex a') as (b' & Hb' & Hab'); [by right|].
    rewrite Hl2 in Hb'. apply elem_of_cons in Hb' as [->|Hb']; [|by exists b'].
    exfalso. apply Ha. rewrite (Hinj a a' b); auto; [by left|by right].
  - intros a1 a2 b' H1 H2. apply Hinj; by right.
Qed.

Section Transversals.

Variable R : relation nat.
Context `{!Equivalence R}.
Variable vs : list nat.

(** Two choices of one node per class have the same size. *)
Lemma transversal_length (r1 r2 : list nat) :
  transversal R vs r1 -> transversal R vs r2 -> length r1 = length r2.
Proof.
  assert (forall r1 r2, transversal R vs r1 -> transversal R vs r2 -> length r1 <= length r2)
    as Hle; [|intros; apply Nat.le_antisymm; by apply Hle].
  clear r1 r2. intros r1 r2 (Hnd1 & Hin1 & Hp1 & _) (_ & _ & _ & Hc2).
  apply (injection_length (fun a b => R b a)); [done| |].
  - intros a Ha. apply Hc2, Hin1, Ha.
  - intros a a' b Ha Ha' H1 H2. apply Hp1; [done..|]. by rewrite <- H1, <- H2.
Qed.

Lemma transversal_nonempty (r : list nat) : transversal R vs r -> vs <> [] -> 1 <= length r.
Proof.
  intros (_ & _ & _ & Hc) Hvs. destruct vs as [|v ?]; [done|].
  destruct (Hc v) as (s & Hs & _); [by left|]. destruct r; [by apply elem_of_nil in Hs|simpl; lia].
Qed.

Lemma transversal_bound (r : list nat) : transversal R vs r -> length r <= length vs.
Proof. intros (Hnd & Hin & _). by apply NoDup_incl_length. Qed.

(** Joining the classes of [y] and [x] removes one class. *)
Lemma transversal_merge (R' : relation nat) (y x : nat) (r : list nat) :
  (forall a b, R' a b <-> R a b \/ (R a y /\ R x b) \/ (R a x /\ R y b)) ->
  y ∈ vs -> x ∈ vs -> ~ R y x ->
  transversal R vs r ->
  exists r', transversal R' vs r' /\ length r' + 1 = length r.
Proof.
  intros HR' Hy Hx Hyx (Hnd & Hin & Hp & Hc).
  destruct (Hc x Hx) as (rx & Hrx & Hrxx). destruct (Hc y Hy) as (ry & Hry & Hryy).
  assert (ry <> rx) as Hne. { intros ->. apply Hyx. by rewrite <- Hryy, <- Hrxx. }
  apply elem_of_Permutation in Hrx as Hperm. destruct Hperm as [r' Hperm].
  assert (forall a, a ∈ r <-> a = rx \/ a ∈ r') as Hmem.
  { intros a. rewrite Hperm. apply elem_of_cons. }
  rewrite Hperm in Hnd. apply NoDup_cons in Hnd as [Hrx' Hnd'].
  exists r'. split; [|rewrite Hperm; simpl; lia].
  split_and!; [done|..].
  - intros a Ha. apply Hin, Hmem. by right.
  - intros a b Ha Hb [Hab|[[Hay Hxb]|[Hax Hyb]]]%HR'.
    + apply Hp; [apply Hmem; by right..|done].
    + exfalso. apply Hrx'. rewrite (Hp rx b); [done|done|apply Hmem; by right|].
      by rewrite Hrxx.
    + exfalso. apply Hrx'. rewrite (Hp rx a); [done|done|apply Hmem; by right|].
      by rewrite Hrxx, Hax.
  - intros v Hv. destruct (Hc v Hv) as (s & [->|Hs]%Hmem & Hsv).
    + exists ry. split.
      * apply Hmem in Hry as [?|?]; done.
      * apply HR'. right. left. split; [done|]. by rewrite <- Hrxx.
    + exists s. split; [done|]. apply HR'. by left.
Qed.

End Transversals.

(** *** Adding an edge *)

Lemma add_node_present g v : v ∈ Nx.nodes g -> Nx.add_node g v = g.
Proof. intros Hv. unfold Nx.add_node. by rewrite bool_decide_eq_true_2. Qed.

Lemma has_edge_adjacent g u v : Nx.has_edge g u v = true <-> adjacent g u v.
Proof.
  unfold Nx.has_edge, adjacent, Nx.joins. rewrite existsb_exists. split.
  - intros ([a b] & Hin%list_elem_of_In & H). simpl in H.
    apply orb_true_iff in H as [H|H]; apply andb_true_iff in H as [->%Nat.eqb_eq ->%Nat.eqb_eq]; auto.
  - intros [H|H]; [exists (u, v)|exists (v, u)]; (split; [by apply list_elem_of_In|]); simpl;
      rewrite !Nat.eqb_refl; simpl; by rewrite ?orb_true_r.
Qed.

Lemma add_edge_nodes g y x :
  y ∈ Nx.nodes g -> x ∈ Nx.nodes g -> Nx.nodes (Nx.add_edge g y x) = Nx.nodes g.
Proof.
  intros Hy Hx. unfold Nx.add_edge. rewrite (add_node_present g y Hy), (add_node_present g x Hx).
  by destruct (Nx.has_edge g y x).
Qed.

Lemma add_edge_adjacent g y x a b :
  y ∈ Nx.nodes g -> x ∈ Nx.nodes g ->
  adjacent (Nx.add_edge g y x) a b <-> adjacent g a b \/ (a = y /\ b = x) \/ (a = x /\ b = y).
Proof.
  intros Hy Hx. unfold Nx.add_edge. rewrite (add_node_present g y Hy), (add_node_present g x Hx).
  destruct (Nx.has_edge g y x) eqn:E.
  - apply has_edge_adjacent in E. split; [auto|]. intros [?|[[-> ->]|[-> ->]]]; [done|done|].
    by symmetry.
  - unfold adjacent. simpl. rewrite !elem_of_app, !list_elem_of_singleton. split.
    + intros [[?|?]|[?|?]]; simplify_eq; auto.
    + intros [[?|?]|[[-> ->]|[-> ->]]]; auto.
Qed.

Lemma add_edge_wf g y x :
  graph_wf g -> y ∈ Nx.nodes g -> x ∈ Nx.nodes g -> graph_wf (Nx.add_edge g y x).
Proof.
  intros [Hnd Hwf] Hy Hx. split; rewrite add_edge_nodes by done; [done|].
  intros u v Huv.
  assert (adjacent (Nx.add_edge g y x) u v) as [[H|H]|[[-> ->]|[-> ->]]]%add_edge_adjacent
    by (by left); auto.
  apply Hwf in H. tauto.
Qed.

Lemma add_edge_connected g y x a b :
  y ∈ Nx.nodes g -> x ∈ Nx.nodes g ->
  connected (Nx.add_edge g y x) a b <->
  connected g a b \/ (connected g a y /\ connected g x b) \/ (connected g a x /\ connected g y b).
Proof.
  intros Hy Hx. split.
  - unfold connected at 1. revert b. apply rtc_ind_r; [left; reflexivity|].
    intros b c _ Hbc IH. apply add_edge_adjacent in Hbc; [|done..].
    assert (forall u v w, connected g u v -> adjacent g v w -> connected g u w) as Hstep
      by (intros; by eapply connected_step).
    destruct Hbc as [Hbc|[[-> ->]|[-> ->]]]; destruct IH as [IH|[[I1 I2]|[I1 I2]]];
      first [ by (left; eauto)
            | by (right; left; split; first [done|reflexivity|eauto])
            | by (right; right; split; first [done|reflexivity|eauto]) ].
  - assert (forall u v, connected g u v -> connected (Nx.add_edge g y x) u v) as Hsub.
    { intros u v. apply rtc_subrel. intros u' v' H. apply add_edge_adjacent; auto. }
    assert (connected (Nx.add_edge g y x) y x) as Hyx.
    { apply rtc_once, add_edge_adjacent; auto. }
    intros [H|[[H1 H2]|[H1 H2]]]; [by apply Hsub|..].
    + etrans; [by apply Hsub|]. etrans; [exact Hyx|]. by apply Hsub.
    + etrans; [by apply Hsub|]. etrans; [symmetry; exact Hyx|]. by apply Hsub.
Qed.

(** An accepted edge lowers the number of components by one when it
    joins two of them and leaves it as it is otherwise. *)
Lemma ncc_add_edge g y x :
  graph_wf g -> y ∈ Nx.nodes g -> x ∈ Nx.nodes g ->
  (connected g y x /\ ncc (Nx.add_edge g y x) = ncc g) \/
  (~ connected g y x /\ ncc (Nx.add_edge g y x) + 1 = ncc g).
Proof.
  intros Hwf Hy Hx.
  pose proof (add_edge_wf g y x Hwf Hy Hx) as Hwf'.
  pose proof (sources_transversal _ Hwf') as HT'. rewrite add_edge_nodes in HT' by done.
  pose proof (sources_transversal _ Hwf) as HT.
  destruct (connected_decide g y x Hwf Hy) as [Hc|Hc]; [left|right]; (split; [done|]); unfold ncc.
  - rewrite add_edge_nodes in * by done.
    apply (transversal_length (connected g) (Nx.nodes g)); [|done].
    destruct HT' as (H1 & H2 & H3 & H4). split_and!; auto.
    + intros a b Ha Hb Hab. apply H3; auto. apply add_edge_connected; auto.
    + intros v Hv. destruct (H4 v Hv) as (r & Hr & Hrv). exists r. split; [done|].
      apply (add_edge_connected g y x r v Hy Hx) in Hrv as [?|[[? ?]|[? ?]]]; [done| |].
      * etrans; [done|]. by etrans.
      * etrans; [done|]. etrans; [symmetry; exact Hc|done].
  - destruct (transversal_merge (connected g) (Nx.nodes g) (connected (Nx.add_edge g y x))
                y x _ (fun a b => add_edge_connected g y x a b Hy Hx) Hy Hx Hc HT)
      as (r' & Hr' & Hlen).
    rewrite add_edge_nodes in * by done.
    by rewrite (transversal_length _ _ _ _ HT' Hr').
Qed.

Lemma ncc_bounds g : graph_wf g -> ncc g <= length (Nx.nodes g) /\ (Nx.nodes g <> [] -> 1 <= ncc g).
Proof.
  intros Hwf. pose proof (sources_transversal _ Hwf) as HT. split.
  - by eapply transversal_bound.
  - by eapply transversal_nonempty.
Qed.

(** Without edges every node is a component of its own. *)
Lemma ncc_no_edges ns : NoDup ns -> ncc (Nx.mkGraph ns []) = length ns.
Proof.
  intros Hnd. set (g := Nx.mkGraph ns []).
  assert (graph_wf g) as Hwf by (split; [done|]; intros ? ? H; by apply elem_of_nil in H).
  apply (transversal_length (connected g) ns); [by apply (sources_transversal g)|].
  split_and!; auto.
  - intros a b _ _ Hab. apply rtc_inv in Hab as [?|(c & [H|H] & _)]; [done|..];
      by apply elem_of_nil in H.
  - intros v Hv. exists v. split; [done|reflexivity].
Qed.

(** When every node is connected to the first one there is one component. *)
Lemma ncc_all_connected g v vs :
  graph_wf g -> Nx.nodes g = v :: vs -> (forall w, w ∈ vs -> connected g v w) -> ncc g = 1.
Proof.
  intros Hwf Hn Hall. change 1 with (length [v]).
  apply (transversal_length (connected g) (Nx.nodes g)); [by apply sources_transversal|].
  split_and!.
  - apply NoDup_singleton.
  - intros r ->%list_elem_of_singleton. rewrite Hn. by left.
  - by intros a b ->%list_elem_of_singleton ->%list_elem_of_singleton.
  - intros w. rewrite Hn. intros [->|Hw]%elem_of_cons; exists v; (split; [by left|]);
      [reflexivity|auto].
Qed.

End CountFacts.

(** ** The ranked stream *)

Module StreamFacts.
Import Spec.

Lemma insert_desc_perm {A} (key : A -> float) x l : Py.insert_desc key x l ≡ₚ x :: l.
Proof.
  induction l as [|y l IH]; simpl; [done|]. destruct (F.lt _ _); [|done].
  rewrite IH. apply perm_swap.
Qed.

(** Sorting rearranges; it neither drops nor repeats an item. *)
Lemma sorted_reverse_perm {A} (key : A -> float) l : Py.sorted_reverse key l ≡ₚ l.
Proof.
  unfold Py.sorted_reverse. induction l as [|x l IH]; simpl; [done|].
  by rewrite insert_desc_perm, IH.
Qed.

Lemma square_shape n m : square n m -> Np.shape0 m = n /\ Np.shape1 m = n.
Proof.
  intros [Hlen Hrows]. split; [done|]. unfold Np.shape1. destruct m as [|row m]; [done|].
  by apply Forall_cons in Hrows as [? _].
Qed.

Lemma square_abs n m : square n m -> square n (Np.abs m).
Proof.
  intros [Hlen Hrows]. unfold Np.abs, square. rewrite length_fmap. split; [done|].
  apply Forall_fmap. eapply Forall_impl; [exact Hrows|]. intros row Hr. simpl. by rewrite length_fmap.
Qed.

Lemma abs_item n m y x :
  square n m -> y < n -> x < n -> Np.item (Np.abs m) y x = PrimFloat.abs (Np.item m y x).
Proof.
  intros [Hlen Hrows] Hy Hx. unfold Np.item, Np.abs.
  destruct (lookup_lt_is_Some_2 m y) as [row Hrow]; [lia|].
  assert (length row = n) as Hr by (eapply Forall_forall in Hrows; [done|by eapply list_elem_of_lookup_2]).
  destruct (lookup_lt_is_Some_2 row x) as [w Hw]; [lia|].
  rewrite (nth_lookup_Some _ _ _ (PrimFloat.abs <$> row)) by (by rewrite list_lookup_fmap, Hrow).
  rewrite (nth_lookup_Some _ _ _ (PrimFloat.abs w)) by (by rewrite list_lookup_fmap, Hw).
  rewrite (nth_lookup_Some _ _ _ row) by done. by rewrite (nth_lookup_Some _ _ _ w).
Qed.

(** The dictionary holds every coordinate of the matrix once, with the
    entry at that coordinate. *)
Lemma elem_of_coord_to_sim a y x w :
  ((y, x), w) ∈ coord_to_sim a <-> y < Np.shape0 a /\ x < Np.shape1 a /\ w = Np.item a y x.
Proof.
  unfold coord_to_sim. rewrite list_elem_of_bind. split.
  - intros (y' & (x' & ?%list_elem_of_singleton & Hx%elem_of_seq)%list_elem_of_bind & Hy%elem_of_seq).
    simplify_eq. split_and!; [lia..|done].
  - intros (Hy & Hx & ->). exists y. split; [|apply elem_of_seq; lia].
    apply list_elem_of_bind. exists x. split; [by apply list_elem_of_singleton|apply elem_of_seq; lia].
Qed.

Lemma elem_of_ranked a y x w :
  ((y, x), w) ∈ ranked a <-> y < Np.shape0 a /\ x < Np.shape1 a /\ w = Np.item a y x.
Proof. unfold ranked. by rewrite sorted_reverse_perm, elem_of_coord_to_sim. Qed.

End StreamFacts.

(** ** The merge loop *)

Module MergeFacts.
Import Spec GraphFacts CountFacts StreamFacts.

Lemma add_nodes_from_fresh ns es vs :
  NoDup (ns ++ vs) -> Nx.add_nodes_from (Nx.mkGraph ns es) vs = Nx.mkGraph (ns ++ vs) es.
Proof.
  revert ns. induction vs as [|v vs IH]; intros ns Hnd; simpl.
  - by rewrite app_nil_r.
  - unfold Nx.add_nodes_from in *. simpl.
    assert (Nx.add_node (Nx.mkGraph ns es) v = Nx.mkGraph (ns ++ [v]) es) as ->.
    { unfold Nx.add_node. simpl. rewrite bool_decide_eq_false_2; [done|].
      apply NoDup_app in Hnd as (_ & Hd & _). intros Hin. apply (Hd _ Hin). by left. }
    rewrite IH, <- (assoc_L (++)); [done|]. by rewrite <- (assoc_L (++)).
Qed.

Lemma initial_graph n :
  Nx.add_nodes_from Nx.empty (seq 0 n) = Nx.mkGraph (seq 0 n) [].
Proof. unfold Nx.empty. rewrite add_nodes_from_fresh; [done|]. apply NoDup_seq. Qed.

Lemma initial_graph_wf n : graph_wf (Nx.mkGraph (seq 0 n) []).
Proof. split; [apply NoDup_seq|]. intros ? ? H. by apply elem_of_nil in H. Qed.

Section Loop.

Variable set_iter : list nat -> list nat.
Hypothesis set_iter_perm : set_order set_iter.
Variable num_clusters : Z.

(** What the loop keeps and what it reaches: the graph stays well formed
    on the same nodes, edges are only added, the number of components
    never rises and never falls below [num_clusters] once it is above;
    and the loop ends either at the stop condition or with every
    off-diagonal pair of the stream joined. *)
Lemma merge_loop_spec stream : forall g ts,
  graph_wf g ->
  (forall y x w, ((y, x), w) ∈ stream -> y ∈ Nx.nodes g /\ x ∈ Nx.nodes g) ->
  let r := merge_loop set_iter num_clusters stream g ts in
  graph_wf r.1 /\
  Nx.nodes r.1 = Nx.nodes g /\
  (forall a b, adjacent g a b -> adjacent r.1 a b) /\
  ncc r.1 <= ncc g /\
  ((Z.of_nat (ncc g) <= num_clusters)%Z -> r = (g, ts)) /\
  ((num_clusters <= Z.of_nat (ncc g))%Z -> (num_clusters <= Z.of_nat (ncc r.1))%Z) /\
  ((Z.of_nat (ncc r.1) <= num_clusters)%Z \/
   forall y x w, ((y, x), w) ∈ stream -> y <> x -> adjacent r.1 y x).
Proof using set_iter_perm.
  induction stream as [|[[y x] sim] stream IH]; intros g ts Hwf Hin; simpl.
  - split_and!; auto. right. intros ? ? ? H. by apply elem_of_nil in H.
  - assert (forall y x w, ((y, x), w) ∈ stream -> y ∈ Nx.nodes g /\ x ∈ Nx.nodes g) as Hin'
      by (intros; eapply Hin; by right).
    destruct (Nat.eqb_spec x y) as [->|Hne].
    { destruct (IH g ts Hwf Hin') as (H1 & H2 & H3 & H4 & H5 & H6 & H7). split_and!; auto.
      destruct H7 as [?|H7]; [by left|right]. intros y' x' w' [?|?]%elem_of_cons ?; simplify_eq; eauto. }
    rewrite (number_connected_components_sources set_iter set_iter_perm g Hwf). fold (ncc g).
    destruct (Z.leb_spec (Z.of_nat (ncc g)) num_clusters) as [Hle|Hgt]; simpl.
    { split_and!; auto. }
    destruct (Hin y x sim) as [Hy Hx]; [by left|].
    set (g1 := Nx.add_edge g y x).
    assert (graph_wf g1) as Hwf1 by (by apply add_edge_wf).
    assert (Nx.nodes g1 = Nx.nodes g) as Hn1 by (by apply add_edge_nodes).
    assert (ncc g1 = ncc g \/ ncc g1 + 1 = ncc g) as Hc1
      by (destruct (ncc_add_edge g y x Hwf Hy Hx) as [[_ ?]|[_ ?]]; auto).
    destruct (IH g1 (Py.counter_iadd (Py.counter_iadd ts x sim) y sim) Hwf1)
      as (H1 & H2 & H3 & H4 & H5 & H6 & H7).
    { intros. rewrite Hn1. eauto. }
    assert (forall a b, adjacent g a b -> adjacent g1 a b) as Hsub
      by (intros; apply add_edge_adjacent; auto).
    split_and!; auto.
    + congruence.
    + lia.
    + lia.
    + intros _. apply H6. lia.
    + destruct H7 as [?|H7]; [by left|right].
      intros y' x' w' [?|?]%elem_of_cons ?; simplify_eq; eauto.
      apply H3, add_edge_adjacent; auto.
Qed.

End Loop.

End MergeFacts.

(** ** The graph and the components the merge ends with *)

Module ResultFacts.
Import Spec GraphFacts CountFacts StreamFacts MergeFacts.

Section Merge.

Variable set_iter : list nat -> list nat.
Hypothesis set_iter_perm : set_order set_iter.

Lemma merge_spec n m num_clusters :
  square n m ->
  let r := merge set_iter m num_clusters in
  graph_wf r.1 /\
  Nx.nodes r.1 = seq 0 n /\
  ncc r.1 <= n /\
  ((Z.of_nat n <= num_clusters)%Z -> r = (Nx.mkGraph (seq 0 n) [], ∅)) /\
  ((num_clusters <= Z.of_nat n)%Z -> (num_clusters <= Z.of_nat (ncc r.1))%Z) /\
  ((Z.of_nat (ncc r.1) <= num_clusters)%Z \/
   forall y x, y < n -> x < n -> y <> x -> adjacent r.1 y x).
Proof using set_iter_perm.
  intros Hsq. unfold merge.
  destruct (square_shape n m Hsq) as [Hs0 Hs1].
  destruct (square_shape n _ (square_abs n m Hsq)) as [Ha0 Ha1].
  rewrite Hs0, initial_graph.
  pose proof (ncc_no_edges (seq 0 n) (NoDup_seq 0 n)) as Hncc. rewrite length_seq in Hncc.
  destruct (merge_loop_spec set_iter set_iter_perm num_clusters (ranked (Np.abs m))
              (Nx.mkGraph (seq 0 n) []) ∅ (initial_graph_wf n))
    as (H1 & H2 & H3 & H4 & H5 & H6 & H7).
  { intros y x w (Hy & Hx & _)%elem_of_ranked. simpl. rewrite !elem_of_seq. lia. }
  rewrite Hncc in *. simpl in H2. split_and!; auto.
  destruct H7 as [?|H7]; [by left|right]. intros y x Hy Hx Hne.
  apply (H7 y x (Np.item (Np.abs m) y x)); [|done]. apply elem_of_ranked. split_and!; [lia..|done].
Qed.

(** The number of components when the loop ends: the requested number,
    or the number of items when that is smaller. *)
Lemma merge_count n m num_clusters :
  square n m -> 1 <= n -> (1 <= num_clusters)%Z ->
  Z.of_nat (ncc (merge set_iter m num_clusters).1) = Z.min num_clusters (Z.of_nat n).
Proof using set_iter_perm.
  intros Hsq Hn Hk. destruct (merge_spec n m num_clusters Hsq) as (Hwf & Hnodes & Hle & H1 & H2 & H3).
  destruct (Z.le_gt_cases (Z.of_nat n) num_clusters) as [Hnk|Hnk].
  - rewrite (H1 Hnk). simpl. rewrite ncc_no_edges by apply NoDup_seq. rewrite length_seq. lia.
  - specialize (H2 ltac:(lia)). destruct H3 as [H3|H3]; [lia|].
    assert (ncc (merge set_iter m num_clusters).1 = 1) as Hone; [|lia].
    destruct n as [|n]; [lia|].
    eapply (ncc_all_connected _ 0 (seq 1 n)); [done|by rewrite Hnodes|].
    intros w Hw%elem_of_seq. apply rtc_once, H3; lia.
Qed.

(** A requested number below one is never reached: every pair is joined
    and one component is left. *)
Lemma merge_count_nonpositive n m num_clusters :
  square n m -> 1 <= n -> (num_clusters <= 0)%Z ->
  ncc (merge set_iter m num_clusters).1 = 1.
Proof using set_iter_perm.
  intros Hsq Hn Hk. destruct (merge_spec n m num_clusters Hsq) as (Hwf & Hnodes & Hle & H1 & H2 & H3).
  destruct (ncc_bounds _ Hwf) as [_ Hpos].
  rewrite Hnodes in Hpos. specialize (Hpos ltac:(by destruct n; [lia|])).
  destruct H3 as [H3|H3]; [lia|].
  destruct n as [|n]; [lia|].
  eapply (ncc_all_connected _ 0 (seq 1 n)); [done|by rewrite Hnodes|].
  intros w Hw%elem_of_seq. apply rtc_once, H3; lia.
Qed.

(** *** The components as lists *)

Lemma component_spec g v :
  graph_wf g -> v ∈ Nx.nodes g ->
  let c := set_iter (Nx.plain_bfs g v) in
  NoDup c /\ (forall w, w ∈ c <-> connected g v w) /\ (forall w, w ∈ c -> w ∈ Nx.nodes g).
Proof using set_iter_perm.
  intros Hwf Hv. destruct (plain_bfs_spec g v Hwf Hv) as (Hnd & Hiff & Hn).
  pose proof (set_iter_perm _ Hnd) as Hp. simpl. rewrite Hp. split_and!; [done|..].
  - intros w. by rewrite Hp.
  - intros w. rewrite Hp. auto.
Qed.

Lemma elem_of_component g v w :
  graph_wf g -> v ∈ Nx.nodes g -> w ∈ set_iter (Nx.plain_bfs g v) <-> connected g v w.
Proof using set_iter_perm. intros Hwf Hv. by apply component_spec. Qed.

Lemma concat_mjoin {A} (ls : list (list A)) : concat ls = mjoin ls.
Proof. induction ls as [|l ls IH]; simpl; [done|]. by rewrite IH. Qed.

Lemma elem_of_concat {A} (x : A) (ls : list (list A)) :
  x ∈ concat ls <-> exists l, x ∈ l /\ l ∈ ls.
Proof. rewrite concat_mjoin. apply list_elem_of_join. Qed.

Lemma NoDup_concat_fmap (f : nat -> list nat) (srcs : list nat) :
  (forall s, s ∈ srcs -> NoDup (f s)) ->
  NoDup srcs ->
  (forall a b w, a ∈ srcs -> b ∈ srcs -> w ∈ f a -> w ∈ f b -> a = b) ->
  NoDup (concat (f <$> srcs)).
Proof.
  induction srcs as [|s srcs IH]; intros Hnd Hs Hdisj; simpl; [apply NoDup_nil_2|].
  apply NoDup_cons in Hs as [Hs Hs']. apply NoDup_app. split_and!.
  - apply Hnd. by left.
  - intros w Hw (c & Hc & (b & -> & Hb)%list_elem_of_fmap)%elem_of_concat.
    apply Hs. rewrite (Hdisj s b w); auto; [by left|by right].
  - apply IH; auto.
    + intros; apply Hnd. by right.
    + intros a b w Ha Hb. apply Hdisj; by right.
Qed.

(** The components split the nodes: every node is in exactly one. *)
Lemma components_partition g :
  graph_wf g -> concat (Nx.connected_components set_iter g) ≡ₚ Nx.nodes g.
Proof using set_iter_perm.
  intros Hwf. rewrite (connected_components_sources set_iter set_iter_perm g Hwf).
  destruct (sources_transversal g Hwf) as (Hnd & Hin & Hp & Hc).
  apply NoDup_Permutation.
  - apply NoDup_concat_fmap; [|done|].
    + intros s Hs. by apply component_spec, Hin.
    + intros a b w Ha Hb Hwa Hwb. apply Hp; [done..|].
      apply elem_of_component in Hwa; [|by auto..].
      apply elem_of_component in Hwb; [|by auto..]. etrans; [exact Hwa|by symmetry].
  - apply Hwf.
  - intros w. rewrite elem_of_concat. split.
    + intros (c & Hw & (s & -> & Hs)%list_elem_of_fmap).
      apply elem_of_component in Hw; [|by auto..]. eapply connected_nodes; [done| |done]. auto.
    + intros Hw. destruct (Hc w Hw) as (s & Hs & Hsw).
      exists (set_iter (Nx.plain_bfs g s)). split; [|apply list_elem_of_fmap; by exists s].
      apply elem_of_component; auto.
Qed.

Lemma components_nonempty g c :
  graph_wf g -> c ∈ Nx.connected_components set_iter g -> c <> [].
Proof using set_iter_perm.
  intros Hwf. rewrite (connected_components_sources set_iter set_iter_perm g Hwf).
  intros (s & -> & Hs)%list_elem_of_fmap Hnil.
  destruct (sources_transversal g Hwf) as (_ & Hin & _).
  assert (s ∈ set_iter (Nx.plain_bfs g s)) as Hmem
    by (apply elem_of_component; [done|by auto|reflexivity]).
  rewrite Hnil in Hmem. by apply elem_of_nil in Hmem.
Qed.

Lemma components_length g :
  graph_wf g -> length (Nx.connected_components set_iter g) = ncc g.
Proof using set_iter_perm.
  intros Hwf. by rewrite (connected_components_sources set_iter set_iter_perm g Hwf), length_fmap.
Qed.

End Merge.

End ResultFacts.

(** ** The result-and-log monad *)

Module MonadFacts.

Lemma bind_ret_l {A B} (a : A) (f : A -> M B) : (mret a ≫= f) = f a.
Proof. unfold mbind, M_bind, mret, M_ret, bind, ret. by destruct (f a). Qed.

Lemma bind_raise_l {A B} (e : exn) (f : A -> M B) : (raise e ≫= f) = raise e.
Proof. done. Qed.

Lemma bind_Ok {A B} (m : M A) (f : A -> M B) a log :
  m = (Ok a, log) -> (m ≫= f) = ((f a).1, log ++ (f a).2).
Proof. intros ->. unfold mbind, M_bind, bind. by destruct (f a). Qed.

Lemma bind_Raise {A B} (m : M A) (f : A -> M B) e log :
  m = (Raise e, log) -> (m ≫= f) = (Raise e, log).
Proof. by intros ->. Qed.

Lemma getitem_Some {A} (l : list A) i a : l !! i = Some a -> Py.getitem l i = mret a.
Proof. intros H. unfold Py.getitem. by rewrite H. Qed.

Lemma getitem_None {A} (l : list A) i : l !! i = None -> Py.getitem l i = raise IndexError.
Proof. intros H. unfold Py.getitem. by rewrite H. Qed.

(** Reading a list at valid indices yields the items at them. *)
Lemma mapM_getitem {A} (l : list A) idxs :
  Forall (fun i => i < length l) idxs ->
  exists xs, mapM (Py.getitem l) idxs = mret xs /\ Forall2 (fun i x => l !! i = Some x) idxs xs.
Proof.
  induction 1 as [|i idxs Hi _ (xs & IH & HF)]; simpl.
  - by exists [].
  - destruct (lookup_lt_is_Some_2 l i Hi) as [x Hx]. exists (x :: xs).
    rewrite (getitem_Some _ _ _ Hx), bind_ret_l, IH, bind_ret_l. split; [done|by constructor].
Qed.

(** A loop whose every step succeeds succeeds, with a result per step. *)
Lemma mapM_Ok {A B} (f : A -> M B) (P : A -> B -> Prop) (l : list A) :
  (forall x, x ∈ l -> exists y, (f x).1 = Ok y /\ P x y) ->
  exists ys, (mapM f l).1 = Ok ys /\ Forall2 P l ys.
Proof.
  induction l as [|x l IH]; intros Hf; simpl.
  - by exists [].
  - destruct (Hf x) as (y & Hy & HP); [by left|].
    destruct IH as (ys & Hys & HF); [intros; apply Hf; by right|].
    exists (y :: ys). split; [|by constructor].
    destruct (f x) as [r log] eqn:Ef. simpl in Hy. subst r.
    destruct (mapM f l) as [r' log'] eqn:Em. simpl in Hys. subst r'.
    reflexivity.
Qed.

End MonadFacts.

(** ** Keywords *)

Module KeywordFacts.
Import MonadFacts.

Lemma np_lt_asym a b : F.np_lt a b = true -> F.np_lt b a = false.
Proof.
  unfold F.np_lt. intros H. apply orb_true_iff in H as [H|[H1 H2]%andb_true_iff].
  - destruct (FloatFacts.lt_not_nan _ _ H) as [Ha Hb]. unfold F.not_nan in *.
    rewrite Ha, Hb. simpl. rewrite orb_false_r.
    destruct (PrimFloat.ltb b a) eqn:E; [|done].
    pose proof (FloatFacts.lt_trans _ _ _ H E) as Hc. by rewrite FloatFacts.lt_irrefl in Hc.
  - apply negb_true_iff in H2. rewrite H1, H2. simpl. rewrite orb_false_r.
    destruct (PrimFloat.ltb b a) eqn:E; [|done].
    destruct (FloatFacts.lt_not_nan _ _ E) as [Hb _]. unfold F.not_nan in Hb. congruence.
Qed.

Lemma np_lt_cotrans a b c : F.np_lt a b = true -> F.np_lt a c = true \/ F.np_lt c b = true.
Proof.
  unfold F.np_lt. intros H.
  assert (PrimFloat.is_nan a = false) as Ha.
  { apply orb_true_iff in H as [H|[_ H]%andb_true_iff]; [|by apply negb_true_iff in H].
    by destruct (FloatFacts.lt_not_nan _ _ H). }
  destruct (PrimFloat.is_nan c) eqn:Hc; [left; rewrite Ha; simpl; by rewrite orb_true_r|].
  destruct (PrimFloat.is_nan b) eqn:Hb; [right; simpl; by rewrite orb_true_r|].
  simpl in *. rewrite !orb_false_r in *.
  by apply FloatFacts.lt_cotrans.
Qed.

Lemma np_lt_lt a b : F.np_lt a b = false -> F.lt a b = false.
Proof. unfold F.np_lt, F.lt. by intros [? _]%orb_false_iff. Qed.

Section Insertion.

Variable key : nat -> float.

(** [a] may stand before [b] in ascending order. *)
Let before (a b : nat) : Prop := F.np_lt (key b) (key a) = false.

Lemma insert_asc_perm i l : Example.insert_asc key i l ≡ₚ i :: l.
Proof.
  induction l as [|j l IH]; simpl; [done|]. destruct (F.np_lt _ _); [|done].
  rewrite IH. apply perm_swap.
Qed.

Lemma insert_asc_sorted i l :
  StronglySorted before l -> StronglySorted before (Example.insert_asc key i l).
Proof.
  induction 1 as [|j l Hl IH Hj]; simpl; [repeat constructor|].
  destruct (F.np_lt (key j) (key i)) eqn:E.
  - constructor; [done|]. rewrite insert_asc_perm. constructor; [|done].
    unfold before. by apply np_lt_asym.
  - constructor; [by constructor|]. constructor; [done|].
    eapply Forall_impl; [exact Hj|]. intros j' Hj'. unfold before in *.
    destruct (F.np_lt (key j') (key i)) eqn:E'; [|done].
    destruct (np_lt_cotrans _ _ (key j) E'); congruence.
Qed.

End Insertion.

Lemma stable_argsort_perm s : Example.stable_argsort s ≡ₚ seq 0 (length s).
Proof.
  unfold Example.stable_argsort. induction (seq 0 (length s)) as [|i l IH]; simpl; [done|].
  by rewrite insert_asc_perm, IH.
Qed.

Lemma stable_argsort_sorted s :
  StronglySorted (fun a b => F.np_lt (nth b s F.zero) (nth a s F.zero) = false)
    (Example.stable_argsort s).
Proof.
  unfold Example.stable_argsort. induction (seq 0 (length s)) as [|i l IH]; simpl; [constructor|].
  by apply (insert_asc_sorted (fun i => nth i s F.zero)).
Qed.

Lemma slice_last_all {A} (k : Z) (l : list A) :
  (Z.of_nat (length l) <= k)%Z -> Py.slice_last k l = l.
Proof.
  intros Hk. unfold Py.slice_last. destruct (Z.ltb_spec 0 k) as [H|H].
  - replace (length l - Z.to_nat k) with 0 by lia. done.
  - replace (Z.to_nat (- k)) with 0 by lia. done.
Qed.

Lemma StronglySorted_reverse {A} (R : relation A) l :
  StronglySorted R l -> StronglySorted (flip R) (reverse l).
Proof.
  induction 1 as [|x l Hl IH Hx]; simpl; [constructor|].
  rewrite reverse_cons. apply StronglySorted_app_2; [|done|repeat constructor].
  intros a b Ha ->%list_elem_of_singleton. rewrite elem_of_reverse in Ha. unfold flip.
  eapply Forall_forall in Hx; done.
Qed.

Lemma elem_of_drop_incl {A} (x : A) n l : x ∈ drop n l -> x ∈ l.
Proof.
  intros [i Hi]%list_elem_of_lookup. rewrite lookup_drop in Hi. by eapply list_elem_of_lookup_2.
Qed.

Section Provider.

Variable provider : Provider.
Hypothesis encode_ok : provider_ok provider.

Lemma similarities_length texts : length (similarities provider texts) = length texts.
Proof using encode_ok.
  unfold similarities. by rewrite (kernel_rows _ encode_ok), (encode_rows _ encode_ok).
Qed.

Lemma top_indices_valid texts top_k :
  Forall (fun i => i < length texts) (top_indices provider texts top_k).
Proof using encode_ok.
  apply Forall_forall. intros i. unfold top_indices. rewrite elem_of_reverse.
  intros Hi. assert (i ∈ argsort provider (similarities provider texts)) as Hin.
  { unfold Py.slice_last in Hi. destruct (_ <? _)%Z; by eapply elem_of_drop_incl. }
  rewrite (argsort_perm _ encode_ok), similarities_length in Hin. apply elem_of_seq in Hin. lia.
Qed.

(** The arrays of line 72 pass the validation. *)
Lemma cosine_similarity_valid texts :
  texts <> [] ->
  cosine_similarity provider (mean_axis0 provider (encode provider texts))
    (encode provider texts)
  = mret (similarities provider texts).
Proof using encode_ok.
  intros Hne. unfold cosine_similarity.
  destruct (mean_valid _ encode_ok texts Hne) as [-> ->].
  by rewrite (encode_valid _ encode_ok texts Hne), Nat.eqb_refl.
Qed.

(** An array that fails the validation: [ValueError], after the call of
    the provider. *)
Lemma generate_semantic_keywords_invalid cluster_items top_k :
  cluster_items <> [] ->
  Sk.check_array (encode provider (question_text <$> cluster_items)) = false ->
  generate_semantic_keywords provider cluster_items top_k
  = (Raise ValueError, [question_text <$> cluster_items]).
Proof.
  intros Hne Hbad. unfold generate_semantic_keywords.
  destruct (question_text <$> cluster_items) as [|t texts'] eqn:Et; [by destruct cluster_items|].
  unfold model_encode. rewrite (bind_Ok _ _ _ _ eq_refl).
  unfold cosine_similarity. rewrite Hbad, andb_false_r. reflexivity.
Qed.

(** A cluster with members: one provider call, and the texts at the
    selected indices. *)
Lemma generate_semantic_keywords_members cluster_items top_k :
  cluster_items <> [] ->
  let texts := question_text <$> cluster_items in
  exists kws,
    generate_semantic_keywords provider cluster_items top_k = (Ok kws, [texts]) /\
    Forall2 (fun i t => texts !! i = Some t) (top_indices provider texts top_k) kws.
Proof using encode_ok.
  intros Hne texts. unfold generate_semantic_keywords. fold texts.
  destruct texts as [|t texts'] eqn:Et; [by destruct cluster_items|].
  rewrite <- Et.
  destruct (mapM_getitem texts _ (top_indices_valid texts top_k)) as (kws & Hm & HF).
  exists kws. split; [|done].
  unfold model_encode. rewrite (bind_Ok _ _ (encode provider texts) [texts] eq_refl).
  rewrite cosine_similarity_valid by (by rewrite Et). rewrite bind_ret_l.
  fold (top_indices provider texts top_k). by rewrite Hm.
Qed.

Lemma generate_semantic_keywords_Ok cluster_items top_k :
  exists kws, (generate_semantic_keywords provider cluster_items top_k).1 = Ok kws.
Proof using encode_ok.
  destruct cluster_items as [|q items]; [by exists []|].
  destruct (generate_semantic_keywords_members (q :: items) top_k) as (kws & -> & _); [done|].
  by exists kws.
Qed.

End Provider.

(** The provider of the examples meets the contract. *)
Lemma vector_finite t : forallb PrimFloat.is_finite (Example.vector t) = true.
Proof.
  unfold Example.vector. simpl.
  destruct (PrimFloat.is_finite (Example.of_nat (String.length t))) eqn:E; by rewrite ?E.
Qed.

Lemma vectors_finite texts :
  forallb (forallb PrimFloat.is_finite) (Example.vectors texts) = true.
Proof.
  unfold Example.vectors. induction texts as [|t texts IH]; [done|].
  rewrite fmap_cons.
  change (forallb PrimFloat.is_finite (Example.vector t)
          && forallb (forallb PrimFloat.is_finite) (Example.vector <$> texts) = true).
  by rewrite vector_finite, IH.
Qed.

Lemma example_mean_valid texts :
  texts <> [] ->
  Sk.check_array [Example.mean (Example.vectors texts)] = true /\
  length (Example.mean (Example.vectors texts)) = Np.shape1 (Example.vectors texts).
Proof.
  intros Hne. destruct texts as [|t texts]; [done|].
  unfold Example.mean, Sk.check_array.
  destruct (forallb PrimFloat.is_finite (Example.column_mean (Example.vectors (t :: texts))))
    eqn:E.
  - assert (length (Example.column_mean (Example.vectors (t :: texts))) = 2) as Hlen
      by (unfold Example.column_mean; by rewrite length_fmap, length_seq).
    split; [|by rewrite Hlen]. cbn [Np.shape0 Np.shape1 length forallb].
    by rewrite Hlen, E.
  - split; [|done]. change (hd [] (Example.vectors (t :: texts))) with (Example.vector t).
    cbn [Np.shape0 Np.shape1 length forallb]. by rewrite vector_finite.
Qed.

End KeywordFacts.

(** ** Assembling the clusters *)

Module AssemblyFacts.
Import Spec GraphFacts CountFacts StreamFacts MergeFacts ResultFacts MonadFacts KeywordFacts.

Lemma setitem_fresh {V} (d : list (nat * V)) k v :
  k ∉ d.*1 -> Py.setitem d k v = d ++ [(k, v)].
Proof.
  induction d as [|[k' v'] d IH]; intros Hk; simpl; [done|].
  rewrite fmap_cons in Hk. apply not_elem_of_cons in Hk as [Hne Hk]. simpl in Hne.
  destruct (Nat.eqb_spec k' k) as [?|_]; [congruence|]. by rewrite IH.
Qed.

Lemma foldl_setitem_fresh {V} (f : nat -> V) c : forall d : list (nat * V),
  NoDup (d.*1 ++ c) ->
  foldl (fun d idx => Py.setitem d idx (f idx)) d c = d ++ ((fun idx => (idx, f idx)) <$> c).
Proof.
  induction c as [|i c IH]; intros d Hnd; simpl; [by rewrite app_nil_r|].
  assert (i ∉ d.*1) as Hi.
  { apply NoDup_app in Hnd as (_ & Hd & _). intros Hin. apply (Hd _ Hin). by left. }
  rewrite (setitem_fresh d i _ Hi), IH.
  - by rewrite <- (assoc_L (++)).
  - rewrite fmap_app, <- (assoc_L (++)). done.
Qed.

Lemma tag_fst g comps : (tag g comps).*1 = concat comps.
Proof.
  revert g. induction comps as [|c comps IH]; intros g; simpl; [done|].
  rewrite fmap_app, IH. f_equal. rewrite <- list_fmap_compose. by rewrite list_fmap_id.
Qed.

Lemma tag_app g l1 l2 : tag g (l1 ++ l2) = tag g l1 ++ tag (g + length l1) l2.
Proof.
  revert g. induction l1 as [|c l1 IH]; intros g; simpl.
  - by rewrite Nat.add_0_r.
  - rewrite IH, <- (assoc_L (++)). do 3 f_equal. lia.
Qed.

Lemma tag_snd_bounds g comps e : e ∈ tag g comps -> g <= e.2 < g + length comps.
Proof.
  revert g. induction comps as [|c comps IH]; intros g; simpl.
  - intros H. by apply elem_of_nil in H.
  - intros [(i & -> & _)%list_elem_of_fmap|H%IH]%elem_of_app; simpl; lia.
Qed.

Lemma group_lookup_from comps : forall (d : list (nat * nat)) g,
  NoDup (d.*1 ++ concat comps) ->
  foldl (fun '(d, group_idx) component =>
           (foldl (fun d idx => Py.setitem d idx group_idx) d component, S group_idx))
        (d, g) comps
  = (d ++ tag g comps, g + length comps).
Proof.
  induction comps as [|c comps IH]; intros d g Hnd; simpl in *.
  - by rewrite app_nil_r, Nat.add_0_r.
  - rewrite (assoc_L (++)) in Hnd.
    rewrite (foldl_setitem_fresh (fun _ => g)) by (by apply NoDup_app in Hnd as (? & _)).
    rewrite IH.
    + rewrite <- (assoc_L (++)). f_equal. lia.
    + rewrite fmap_app, <- list_fmap_compose. by rewrite list_fmap_id.
Qed.

(** With components that share no node the lookup table lists the
    components one after the other. *)
Lemma group_lookup_tag comps : NoDup (concat comps) -> group_lookup comps = tag 0 comps.
Proof. intros Hnd. unfold group_lookup. by rewrite (group_lookup_from comps [] 0). Qed.

Lemma insert_uniq_seq g n : Py.insert_uniq g (seq (S g) n) = seq g (S n).
Proof. destruct n; simpl; [done|]. by rewrite (proj2 (Nat.ltb_lt g (S g))) by lia. Qed.

Lemma insert_uniq_head g l : Py.insert_uniq g (g :: l) = g :: l.
Proof. simpl. by rewrite Nat.ltb_irrefl, Nat.eqb_refl. Qed.

(** The group indices are [0, 1, ...], one for every component. *)
Lemma sorted_set_tag comps : forall g,
  Forall (fun c => c <> []) comps -> Py.sorted_set ((tag g comps).*2) = seq g (length comps).
Proof.
  unfold Py.sorted_set. induction comps as [|c comps IH]; intros g Hne; simpl; [done|].
  apply Forall_cons in Hne as [Hc Hne]. rewrite fmap_app, foldr_app, (IH (S g) Hne).
  destruct c as [|i c]; [done|]. clear Hc. simpl.
  induction c as [|j c IHc]; simpl.
  - apply insert_uniq_seq.
  - simpl in IHc. rewrite IHc. apply insert_uniq_head.
Qed.

(** *** One pass over the lookup table *)

Lemma collect_skip questions ts g d acc :
  Forall (fun e => e.2 <> g) d -> collect questions ts g d acc = mret acc.
Proof.
  induction 1 as [|[i g'] d Hne _ IH]; simpl; [done|].
  simpl in Hne. by destruct (Nat.eqb_spec g' g).
Qed.

Lemma collect_block questions ts g c qc :
  Forall2 (fun i q => questions !! i = Some q) c qc -> forall d acc,
  NoDup (acc.2.*1 ++ c) ->
  collect questions ts g (((fun idx => (idx, g)) <$> c) ++ d) acc
  = collect questions ts g d
      (acc.1.1 ++ qc, acc.1.2 ++ c, acc.2 ++ ((fun i => (i, Py.counter_get ts i)) <$> c)).
Proof.
  induction 1 as [|i q c qc Hq _ IH]; intros d [[its ids] cs] Hnd; simpl in *.
  - by rewrite !app_nil_r.
  - rewrite Nat.eqb_refl, (getitem_Some _ _ _ Hq), bind_ret_l. simpl.
    assert (i ∉ cs.*1) as Hi.
    { apply NoDup_app in Hnd as (_ & Hd & _). intros Hin. apply (Hd _ Hin). by left. }
    rewrite (setitem_fresh cs i _ Hi), IH; simpl.
    + by rewrite <- !(assoc_L (++)).
    + rewrite fmap_app, <- (assoc_L (++)). done.
Qed.

(** An index outside the question list stops the pass with [IndexError]. *)
Lemma collect_block_error questions ts g c :
  Exists (fun i => questions !! i = None) c -> forall d acc,
  collect questions ts g (((fun idx => (idx, g)) <$> c) ++ d) acc = raise IndexError.
Proof.
  induction c as [|i c IH]; intros Hex d acc; [by apply Exists_nil in Hex|].
  simpl. rewrite Nat.eqb_refl. destruct (questions !! i) as [q|] eqn:Hq.
  - rewrite (getitem_Some _ _ _ Hq), bind_ret_l. apply IH.
    apply Exists_cons in Hex as [?|?]; [congruence|done].
  - by rewrite (getitem_None _ _ Hq).
Qed.

Lemma tag_split comps g c :
  comps !! g = Some c ->
  tag 0 comps = tag 0 (take g comps) ++ ((fun idx => (idx, g)) <$> c) ++ tag (S g) (drop (S g) comps).
Proof.
  intros Hc. rewrite <- (take_drop_middle comps g c Hc) at 1.
  rewrite tag_app. simpl. rewrite length_take_le; [done|].
  apply lookup_lt_Some in Hc. lia.
Qed.

Lemma collect_tag questions ts comps g c qc :
  comps !! g = Some c ->
  Forall2 (fun i q => questions !! i = Some q) c qc ->
  NoDup c ->
  collect questions ts g (tag 0 comps) ([], [], [])
  = mret (qc, c, (fun i => (i, Py.counter_get ts i)) <$> c).
Proof.
  intros Hc Hq Hnd. rewrite (tag_split comps g c Hc).
  assert (forall d2 acc, collect questions ts g (tag 0 (take g comps) ++ d2) acc
                         = collect questions ts g d2 acc) as Hskip.
  { intros d2 acc. assert (Forall (fun e => e.2 <> g) (tag 0 (take g comps))) as HF.
    { apply Forall_forall. intros e He%tag_snd_bounds. rewrite length_take in He. lia. }
    induction HF as [|[i g'] d Hne _ IH]; simpl; [done|].
    simpl in Hne. by destruct (Nat.eqb_spec g' g). }
  rewrite Hskip, (collect_block _ _ _ _ _ Hq); [|done]. simpl.
  apply collect_skip, Forall_forall. intros e He%tag_snd_bounds. lia.
Qed.

Lemma collect_tag_error questions ts comps g c :
  comps !! g = Some c ->
  Exists (fun i => questions !! i = None) c ->
  collect questions ts g (tag 0 comps) ([], [], []) = raise IndexError.
Proof.
  intros Hc Hex. rewrite (tag_split comps g c Hc).
  assert (forall d2 acc, collect questions ts g (tag 0 (take g comps) ++ d2) acc
                         = collect questions ts g d2 acc) as Hskip.
  { intros d2 acc. assert (Forall (fun e => e.2 <> g) (tag 0 (take g comps))) as HF.
    { apply Forall_forall. intros e He%tag_snd_bounds. rewrite length_take in He. lia. }
    induction HF as [|[i g'] d Hne _ IH]; simpl; [done|].
    simpl in Hne. by destruct (Nat.eqb_spec g' g). }
  rewrite Hskip. by apply collect_block_error.
Qed.

(** *** The centroid *)

Lemma dict_get_fmap (f : nat -> float) c i :
  i ∈ c -> dict_get ((fun i => (i, f i)) <$> c) i = f i.
Proof.
  unfold dict_get. induction c as [|j c IH]; intros Hi; [by apply elem_of_nil in Hi|].
  simpl. destruct (Nat.eqb_spec j i) as [->|Hne]; [done|].
  apply elem_of_cons in Hi as [?|Hi]; [congruence|]. by apply IH.
Qed.

Lemma max_from_ext {A} (key1 key2 : A -> float) x l :
  (forall e, e ∈ x :: l -> key1 e = key2 e) -> Py.max_from key1 x l = Py.max_from key2 x l.
Proof.
  revert x. induction l as [|y l IH]; intros x Hext; simpl; [done|].
  rewrite (Hext x), (Hext y) by (by repeat constructor).
  destruct (F.gt _ _); apply IH; intros e He; apply Hext.
  - by right.
  - apply elem_of_cons in He as [->|He]; [by left|by right; right].
Qed.

Lemma max_from_elem_of {A} (key : A -> float) x l : Py.max_from key x l ∈ x :: l.
Proof.
  revert x. induction l as [|y l IH]; intros x; simpl; [by left|].
  destruct (F.gt _ _).
  - right. apply IH.
  - specialize (IH x). apply elem_of_cons in IH as [->|IH]; [by left|by right; right].
Qed.

Lemma centroid_of_elem_of ts c i : centroid_of ts c = Some i -> i ∈ c.
Proof. destruct c as [|j c]; [done|]. intros [= <-]. apply max_from_elem_of. Qed.

End AssemblyFacts.

(** ** The clusters [find_clusters_deterministic] returns *)

Module ClusterFacts.
Import Spec GraphFacts CountFacts StreamFacts MergeFacts ResultFacts MonadFacts KeywordFacts
  AssemblyFacts.

Lemma questions_at (questions : list Question) c :
  (forall i, i ∈ c -> i < length questions) ->
  exists qc, Forall2 (fun i q => questions !! i = Some q) c qc.
Proof.
  induction c as [|i c IH]; intros Hc; [by exists []|].
  destruct (lookup_lt_is_Some_2 questions i) as [q Hq]; [apply Hc; by left|].
  destruct IH as [qc Hqc]; [intros; apply Hc; by right|]. exists (q :: qc). by constructor.
Qed.

Lemma zip_seq_lookup n i p : zip (seq 0 n) (seq 0 n) !! i = Some p -> p = (i, i) /\ i < n.
Proof.
  intros (a & b & -> & [-> ?]%lookup_seq & [-> ?]%lookup_seq)%lookup_zip_with_Some. done.
Qed.

Section Provider.

Variable provider : Provider.
Hypothesis encode_ok : provider_ok provider.

(** The cluster built for one group. *)
Lemma make_cluster_spec questions ts comps group_no g c :
  comps !! g = Some c -> c <> [] -> NoDup c ->
  (forall i, i ∈ c -> i < length questions) ->
  exists cl,
    (make_cluster provider questions ts (tag 0 comps) group_no g).1 = Ok cl /\
    cluster_spec provider questions ts group_no c cl.
Proof using encode_ok.
  intros Hc Hne Hnd Hlt. destruct (questions_at questions c Hlt) as [qc Hqc].
  unfold make_cluster. rewrite (collect_tag _ _ _ _ _ _ Hc Hqc Hnd), bind_ret_l.
  rewrite <- list_fmap_compose.
  assert (fst ∘ (fun i => (i, Py.counter_get ts i)) <$> c = c) as -> by apply list_fmap_id.
  destruct c as [|i rest] eqn:Ec; [done|]. rewrite <- Ec in *.
  assert (Py.max_key (dict_get ((fun i => (i, Py.counter_get ts i)) <$> c)) c
          = mret (Py.max_from (Py.counter_get ts) i rest)) as ->.
  { rewrite Ec. simpl. unfold mret, M_ret.
    rewrite (max_from_ext _ (Py.counter_get ts)); [done|].
    intros e He. by apply (dict_get_fmap (Py.counter_get ts) (i :: rest)). }
  rewrite bind_ret_l. set (best := Py.max_from (Py.counter_get ts) i rest).
  assert (best ∈ c) as Hbest by (rewrite Ec; apply max_from_elem_of).
  destruct (lookup_lt_is_Some_2 questions best (Hlt _ Hbest)) as [q Hq].
  rewrite (getitem_Some _ _ _ Hq), bind_ret_l.
  destruct (generate_semantic_keywords_Ok provider encode_ok qc 5) as [kws Hkws].
  destruct (generate_semantic_keywords provider qc 5) as [r log] eqn:Eg. simpl in Hkws. subst r.
  rewrite (bind_Ok _ _ kws log eq_refl), bind_ret_l. simpl.
  eexists. split; [done|]. split; simpl; try done.
  - by rewrite Ec.
  - by rewrite Eg.
Qed.

Variable set_iter : list nat -> list nat.
Hypothesis set_iter_perm : set_order set_iter.

(** For a square matrix the call is a loop over the components of the
    final graph. *)
Lemma find_clusters_unfold questions m num_clusters n :
  square n m ->
  let r := merge set_iter m num_clusters in
  let comps := Nx.connected_components set_iter r.1 in
  find_clusters_deterministic set_iter provider questions m num_clusters
  = mapM (fun '(group_no, group_idx) =>
            make_cluster provider questions r.2 (tag 0 comps) group_no group_idx)
         (zip (seq 0 (length comps)) (seq 0 (length comps))).
Proof using set_iter_perm.
  intros Hsq r comps. unfold find_clusters_deterministic. fold r.
  destruct (merge_spec set_iter set_iter_perm n m num_clusters Hsq) as (Hwf & Hnodes & _).
  fold r in Hwf, Hnodes. destruct r as [g ts] eqn:Er. simpl in *. fold comps.
  pose proof (components_partition set_iter set_iter_perm g Hwf) as Hpart. fold comps in Hpart.
  assert (NoDup (concat comps)) as Hnd by (rewrite Hpart; apply Hwf).
  assert (Forall (fun c => c <> []) comps) as Hne.
  { apply Forall_forall. intros c Hc. by eapply components_nonempty. }
  by rewrite (group_lookup_tag comps Hnd), (sorted_set_tag comps 0 Hne), length_seq.
Qed.

(** What the components are: distinct nodes below [n], every node in
    one of them, none empty. *)
Lemma components_spec m num_clusters n :
  square n m ->
  let comps := Nx.connected_components set_iter (merge set_iter m num_clusters).1 in
  concat comps ≡ₚ seq 0 n /\
  (forall g c, comps !! g = Some c -> c <> [] /\ NoDup c /\ forall i, i ∈ c -> i < n).
Proof using set_iter_perm.
  intros Hsq comps.
  destruct (merge_spec set_iter set_iter_perm n m num_clusters Hsq) as (Hwf & Hnodes & _).
  pose proof (components_partition set_iter set_iter_perm _ Hwf) as Hpart.
  fold comps in Hpart. rewrite Hnodes in Hpart. split; [done|].
  intros g c Hc. assert (c ∈ comps) as Hin by (by eapply list_elem_of_lookup_2).
  split_and!.
  - by eapply components_nonempty.
  - assert (NoDup (concat comps)) as Hnd by (rewrite Hpart; apply NoDup_seq).
    apply list_elem_of_split in Hin as (l1 & l2 & Heq). rewrite Heq, concat_app in Hnd.
    simpl in Hnd. by apply NoDup_app in Hnd as (_ & _ & (? & _)%NoDup_app).
  - intros j Hj. assert (j ∈ concat comps) as Hjc by (apply elem_of_concat; eauto).
    rewrite Hpart in Hjc. apply elem_of_seq in Hjc. lia.
Qed.

(** For a matrix over the first [n] questions: the call returns one
    cluster for every connected component of the final graph, in the
    order of the components, each built from the members of its
    component. *)
Lemma find_clusters_spec questions m num_clusters n :
  square n m -> n <= length questions ->
  let r := merge set_iter m num_clusters in
  let comps := Nx.connected_components set_iter r.1 in
  exists clusters,
    (find_clusters_deterministic set_iter provider questions m num_clusters).1 = Ok clusters /\
    length clusters = length comps /\
    forall i c cl, comps !! i = Some c -> clusters !! i = Some cl ->
      cluster_spec provider questions r.2 i c cl.
Proof using encode_ok set_iter_perm.
  intros Hsq Hn r comps. rewrite (find_clusters_unfold questions m num_clusters n Hsq).
  fold r. fold comps.
  destruct (components_spec m num_clusters n Hsq) as [_ Hcomps]. fold r comps in Hcomps.
  destruct (mapM_Ok
              (fun '(group_no, group_idx) =>
                 make_cluster provider questions r.2 (tag 0 comps) group_no group_idx)
              (fun p cl => exists c, comps !! p.2 = Some c /\
                                     cluster_spec provider questions r.2 p.1 c cl)
              (zip (seq 0 (length comps)) (seq 0 (length comps)))) as (clusters & Hok & HF).
  { intros p [i Hp]%list_elem_of_lookup. apply zip_seq_lookup in Hp as [-> Hi].
    destruct (lookup_lt_is_Some_2 comps i Hi) as [c Hc].
    destruct (Hcomps i c Hc) as (Hne & Hnd & Hlt).
    destruct (make_cluster_spec questions r.2 comps i i c Hc Hne Hnd) as (cl & Hcl & Hspec).
    - intros j Hj%Hlt. lia.
    - exists cl. split; [done|]. by exists c. }
  exists clusters. split; [done|].
  apply Forall2_same_length_lookup in HF as [Hlen HF].
  rewrite length_zip, length_seq, Nat.min_id in Hlen. split; [done|].
  intros i c cl Hc Hcl.
  destruct (HF i (i, i) cl) as (c' & Hc' & Hspec); [|done|].
  - apply lookup_zip_with_Some. exists i, i.
    apply lookup_lt_Some in Hc. by rewrite !lookup_seq_lt by done.
  - simpl in *. congruence.
Qed.

(** The member lists of the clusters are the components. *)
Lemma find_clusters_item_ids questions m num_clusters n :
  square n m -> n <= length questions ->
  exists clusters,
    (find_clusters_deterministic set_iter provider questions m num_clusters).1 = Ok clusters /\
    item_ids <$> clusters
    = Nx.connected_components set_iter (merge set_iter m num_clusters).1.
Proof using encode_ok set_iter_perm.
  intros Hsq Hn.
  destruct (find_clusters_spec questions m num_clusters n Hsq Hn) as (clusters & Hok & Hlen & Hspec).
  exists clusters. split; [done|]. apply list_eq_same_length with (length clusters).
  - done.
  - by rewrite length_fmap.
  - intros i ids c Hi Hids Hc. rewrite list_lookup_fmap in Hids.
    destruct (clusters !! i) as [cl|] eqn:Hcl; [|done]. simpl in Hids. simplify_eq.
    by destruct (Hspec i c cl Hc Hcl).
Qed.

(** Every item of the matrix is in exactly one cluster. *)
Lemma find_clusters_partition questions m num_clusters n :
  square n m -> n <= length questions ->
  exists clusters,
    (find_clusters_deterministic set_iter provider questions m num_clusters).1 = Ok clusters /\
    concat (item_ids <$> clusters) ≡ₚ seq 0 n.
Proof using encode_ok set_iter_perm.
  intros Hsq Hn.
  destruct (find_clusters_item_ids questions m num_clusters n Hsq Hn) as (clusters & Hok & Hids).
  exists clusters. split; [done|]. rewrite Hids. by apply components_spec.
Qed.

(** A matrix with more rows than there are questions: [IndexError]. *)
Lemma make_cluster_error questions ts comps group_no g c :
  comps !! g = Some c ->
  Exists (fun i => questions !! i = None) c ->
  make_cluster provider questions ts (tag 0 comps) group_no g = raise IndexError.
Proof.
  intros Hc Hex. unfold make_cluster. by rewrite (collect_tag_error _ _ _ _ _ Hc Hex).
Qed.

Lemma mapM_Raise {A B} (f : A -> M B) e (l : list A) :
  (forall x, x ∈ l -> (exists y, (f x).1 = Ok y) \/ (f x).1 = Raise e) ->
  (exists x, x ∈ l /\ (f x).1 = Raise e) ->
  (mapM f l).1 = Raise e.
Proof.
  induction l as [|x l IH]; intros Hall (x' & Hx' & He).
  - by apply elem_of_nil in Hx'.
  - simpl. destruct (f x) as [[y|e'] log] eqn:Ef.
    + apply elem_of_cons in Hx' as [->|Hx']; [rewrite Ef in He; done|].
      assert ((mapM f l).1 = Raise e) as Hm.
      { apply IH; [intros; apply Hall; by right|eauto]. }
      destruct (mapM f l) as [r log']. simpl in Hm. subst r. reflexivity.
    + destruct (Hall x) as [[y Hy]|Hr]; [by left|rewrite Ef in Hy; done|].
      rewrite Ef in Hr. simpl in Hr. by injection Hr as ->.
Qed.

Lemma find_clusters_index_error questions m num_clusters n :
  square n m -> length questions < n ->
  (find_clusters_deterministic set_iter provider questions m num_clusters).1 = Raise IndexError.
Proof using encode_ok set_iter_perm.
  intros Hsq Hn. rewrite (find_clusters_unfold questions m num_clusters n Hsq).
  set (r := merge set_iter m num_clusters).
  set (comps := Nx.connected_components set_iter r.1).
  destruct (components_spec m num_clusters n Hsq) as [Hpart Hcomps]. fold r comps in Hpart, Hcomps.
  apply mapM_Raise.
  - intros p [i Hp]%list_elem_of_lookup. apply zip_seq_lookup in Hp as [-> Hi].
    destruct (lookup_lt_is_Some_2 comps i Hi) as [c Hc].
    destruct (Hcomps i c Hc) as (Hne & Hnd & Hlt).
    destruct (decide (Forall (fun j => j < length questions) c)) as [HF|HF].
    + left. destruct (make_cluster_spec questions r.2 comps i i c Hc Hne Hnd) as (cl & Hcl & _).
      * intros j Hj. eapply Forall_forall in HF; done.
      * by exists cl.
    + right. rewrite (make_cluster_error questions r.2 comps i i c Hc); [done|].
      apply not_Forall_Exists in HF; [|apply _]. eapply Exists_impl; [exact HF|].
      intros j Hj. apply lookup_ge_None. simpl in Hj. lia.
  - assert (length questions ∈ concat comps) as Hin by (rewrite Hpart; apply elem_of_seq; lia).
    apply elem_of_concat in Hin as (c & Hin & [g Hc]%list_elem_of_lookup).
    exists (g, g). split.
    + apply list_elem_of_lookup. exists g. apply lookup_zip_with_Some. exists g, g.
      apply lookup_lt_Some in Hc. by rewrite !lookup_seq_lt by done.
    + rewrite (make_cluster_error questions r.2 comps g g c Hc); [done|].
      apply Exists_exists. exists (length questions). split; [done|]. by apply lookup_ge_None.
Qed.

End Provider.

End ClusterFacts.

(** ** Scores and the choice of the centroid *)

Module ScoreFacts.
Import Spec GraphFacts CountFacts StreamFacts MergeFacts ResultFacts MonadFacts AssemblyFacts.

Lemma le_refl a : F.not_nan a -> F.le a a = true.
Proof. intros Ha. apply FloatFacts.le_of_not_lt; [done..|apply FloatFacts.lt_irrefl]. Qed.

Lemma lt_le a b : F.lt a b = true -> F.le a b = true.
Proof. intros H. apply FloatFacts.le_spec. left. by apply FloatFacts.lt_spec. Qed.

(** [max] returns the first of the items with the greatest key: the
    items before it have smaller keys, the items after it have keys that
    are not greater. *)
Lemma max_from_split {A} (key : A -> float) l : forall x,
  (forall e, e ∈ x :: l -> F.not_nan (key e)) ->
  exists l1 l2,
    x :: l = l1 ++ Py.max_from key x l :: l2 /\
    (forall e, e ∈ l1 -> F.lt (key e) (key (Py.max_from key x l)) = true) /\
    (forall e, e ∈ l2 -> F.le (key e) (key (Py.max_from key x l)) = true).
Proof.
  induction l as [|y l IH]; intros x Hnan; simpl.
  - exists [], []. split_and!; [done|..]; intros e He; by apply elem_of_nil in He.
  - destruct (F.gt (key y) (key x)) eqn:E.
    + destruct (IH y) as (l1 & l2 & Heq & H1 & H2); [intros; apply Hnan; by right|].
      remember (Py.max_from key y l) as b eqn:Hb. clear Hb.
      exists (x :: l1), l2. split_and!; [by rewrite Heq|..|done].
      intros e [->|He]%elem_of_cons; [|auto].
      assert (y ∈ l1 ++ b :: l2) as Hy by (rewrite <- Heq; by left).
      apply elem_of_app in Hy as [Hy|[->|Hy]%elem_of_cons]; [|done|].
      * eapply FloatFacts.lt_trans; [exact E|auto].
      * eapply FloatFacts.lt_le_trans; [exact E|auto].
    + destruct (IH x) as (l1 & l2 & Heq & H1 & H2).
      { intros e He. apply Hnan. apply elem_of_cons in He as [->|He]; [by left|by right; right]. }
      remember (Py.max_from key x l) as b eqn:Hb. clear Hb.
      assert (F.not_nan (key y)) as Hy by (apply Hnan; right; by left).
      destruct l1 as [|x' l1]; simpl in Heq.
      * injection Heq as Hx Hl. subst x l. exists [], (y :: l2).
        split_and!; [done|intros e He; by apply elem_of_nil in He|].
        intros e [->|He]%elem_of_cons; [|auto].
        apply FloatFacts.le_of_not_lt; [done|apply Hnan; by left|exact E].
      * injection Heq as Hx Hl. subst x' l. exists (x :: y :: l1), l2.
        split_and!; [done| |done].
        intros e [->|[->|He]%elem_of_cons]%elem_of_cons.
        -- apply H1. by left.
        -- destruct (FloatFacts.lt_cotrans (key x) (key b) (key y) Hy) as [Hc|Hc];
             [|unfold F.gt, F.lt in *; congruence|done].
           apply H1. by left.
        -- apply H1. by right.
Qed.

Lemma max_from_greatest {A} (key : A -> float) x l e :
  (forall e, e ∈ x :: l -> F.not_nan (key e)) ->
  e ∈ x :: l -> F.le (key e) (key (Py.max_from key x l)) = true.
Proof.
  intros Hnan He. destruct (max_from_split key l x Hnan) as (l1 & l2 & Heq & H1 & H2).
  rewrite Heq in He. apply elem_of_app in He as [He|[->|He]%elem_of_cons]; [| |auto].
  - by apply lt_le, H1.
  - apply le_refl, Hnan, max_from_elem_of.
Qed.

(** *** Scores are sums of weights *)

Lemma counter_get_empty v : Py.counter_get ∅ v = F.zero.
Proof. unfold Py.counter_get. by rewrite lookup_empty. Qed.

Lemma counter_get_iadd ts k s v :
  Py.counter_get (Py.counter_iadd ts k s) v
  = if decide (v = k) then PrimFloat.add (Py.counter_get ts k) s else Py.counter_get ts v.
Proof.
  unfold Py.counter_iadd, Py.counter_get at 1. destruct (decide (v = k)) as [->|Hne].
  - by rewrite lookup_insert_eq.
  - by rewrite lookup_insert_ne.
Qed.

Lemma counter_iadd_weight ts k s :
  weight s -> (forall v, weight (Py.counter_get ts v)) ->
  forall v, weight (Py.counter_get (Py.counter_iadd ts k s) v).
Proof.
  intros Hs Hts v. rewrite counter_get_iadd. destruct (decide (v = k)); [|done].
  by apply FloatFacts.weight_add.
Qed.

Lemma merge_loop_weight set_iter num_clusters stream : forall g ts,
  (forall e, e ∈ stream -> weight e.2) ->
  (forall v, weight (Py.counter_get ts v)) ->
  forall v, weight (Py.counter_get (merge_loop set_iter num_clusters stream g ts).2 v).
Proof.
  induction stream as [|[[y x] sim] stream IH]; intros g ts Hs Hts; simpl; [done|].
  assert (forall e, e ∈ stream -> weight e.2) as Hs' by (intros; apply Hs; by right).
  destruct (x =? y); [by apply IH|]. destruct (_ <=? _)%Z; [done|].
  assert (weight sim) as Hsim by (apply (Hs (y, x, sim)); by left).
  apply IH; [done|]. apply counter_iadd_weight; [done|]. by apply counter_iadd_weight.
Qed.

Lemma nan_free_item n m y x :
  square n m -> nan_free m -> y < n -> x < n -> F.not_nan (Np.item m y x).
Proof.
  intros [Hlen Hrows] Hnan Hy Hx. unfold Np.item.
  destruct (lookup_lt_is_Some_2 m y) as [row Hrow]; [lia|].
  assert (row ∈ m) as Hin by (by eapply list_elem_of_lookup_2).
  assert (length row = n) as Hr by (eapply Forall_forall in Hrows; done).
  destruct (lookup_lt_is_Some_2 row x) as [w Hw]; [lia|].
  rewrite (nth_lookup_Some _ _ _ row) by done. rewrite (nth_lookup_Some _ _ _ w) by done.
  eapply Forall_forall in Hnan; [|exact Hin].
  eapply Forall_forall in Hnan; [done|]. by eapply list_elem_of_lookup_2.
Qed.

(** On a matrix without NaNs no score is a NaN. *)
Lemma score_weight set_iter n m num_clusters v :
  square n m -> nan_free m -> weight (score set_iter m num_clusters v).
Proof.
  intros Hsq Hnan. unfold score, merge. apply merge_loop_weight.
  - intros [[y x] w] (Hy & Hx & ->)%elem_of_ranked. simpl.
    destruct (square_shape n _ (square_abs n m Hsq)) as [Ha0 Ha1]. rewrite Ha0 in Hy. rewrite Ha1 in Hx.
    rewrite (abs_item n) by done. by apply FloatFacts.weight_abs, (nan_free_item n).
  - intros v'. rewrite counter_get_empty. apply FloatFacts.weight_zero.
Qed.

Lemma score_not_nan set_iter n m num_clusters v :
  square n m -> nan_free m -> F.not_nan (score set_iter m num_clusters v).
Proof. intros. by eapply FloatFacts.weight_not_nan, score_weight. Qed.

End ScoreFacts.

(* ===================================================================== *)
(** * The properties of the specification                                 *)
(* ===================================================================== *)

(** ** The instances the examples use *)

Lemma pyset_order : Spec.set_order PySet.iter.
Proof. intros l Hl. by apply PySetFacts.iter_permutation. Qed.

Lemma example_encode_ok : provider_ok Example.provider.
Proof.
  split.
  - intros texts. simpl. unfold Example.vectors. by rewrite length_fmap.
  - intros texts Hne. destruct texts as [|t texts]; [done|].
    change (encode Example.provider (t :: texts)) with (Example.vectors (t :: texts)).
    unfold Sk.check_array. rewrite KeywordFacts.vectors_finite. reflexivity.
  - apply KeywordFacts.example_mean_valid.
  - intros x y. simpl. unfold Example.cosine. by rewrite length_fmap.
  - apply KeywordFacts.stable_argsort_perm.
  - apply KeywordFacts.stable_argsort_sorted.
Qed.

(** ** Partition *)

(** C2.  For a list of [N] questions and an [N] x [N] similarity matrix
    the call returns clusters, and the member lists of the clusters,
    taken together, hold every index [0 .. N-1] exactly once. *)
Theorem partition_property set_iter provider questions m num_clusters :
  Spec.set_order set_iter ->
  provider_ok provider ->
  Spec.square (length questions) m ->
  exists clusters,
    (find_clusters_deterministic set_iter provider questions m num_clusters).1 = Ok clusters /\
    concat (item_ids <$> clusters) ≡ₚ seq 0 (length questions).
Proof.
  intros Hset Henc Hsq. by apply (ClusterFacts.find_clusters_partition provider Henc set_iter Hset).
Qed.

Lemma partition_property_witness :
  Spec.set_order PySet.iter /\
  provider_ok Example.provider /\
  Spec.square (length (Example.questions 4)) Example.scenario_matrix /\
  exists clusters,
    (find_clusters_deterministic PySet.iter Example.provider (Example.questions 4)
       Example.scenario_matrix 2).1 = Ok clusters /\
    concat (item_ids <$> clusters) ≡ₚ seq 0 (length (Example.questions 4)).
Proof.
  assert (Spec.square (length (Example.questions 4)) Example.scenario_matrix) as Hsq
    by (split; [reflexivity|repeat constructor]).
  split; [exact pyset_order|]. split; [exact example_encode_ok|]. split; [exact Hsq|].
  exact (partition_property PySet.iter Example.provider (Example.questions 4)
           Example.scenario_matrix 2 pyset_order example_encode_ok Hsq).
Defined.

(** ** The number of clusters *)

Module SingletonFacts.
Import Spec GraphFacts.

Lemma plain_bfs_no_edges ns v : Nx.plain_bfs (Nx.mkGraph ns []) v = [v].
Proof.
  unfold Nx.plain_bfs. simpl. destruct (length ns) as [|fuel]; [done|].
  simpl. unfold Nx.expand_level. simpl. by destruct fuel.
Qed.

Lemma set_iter_singleton set_iter v : set_order set_iter -> set_iter [v] = [v].
Proof.
  intros Hset. apply Permutation_singleton_r. apply Hset, NoDup_singleton.
Qed.

(** Without edges every component is a single node, in node order. *)
Lemma components_no_edges set_iter ns :
  set_order set_iter -> NoDup ns ->
  Nx.connected_components set_iter (Nx.mkGraph ns []) = (fun v => [v]) <$> ns.
Proof.
  intros Hset Hnd. unfold Nx.connected_components. simpl.
  assert (forall vs (seen : gset nat), NoDup vs -> (forall v, v ∈ vs -> v ∉ seen) ->
            Nx.components_from set_iter (Nx.mkGraph ns []) seen vs = (fun v => [v]) <$> vs) as H.
  { induction vs as [|v vs IH]; intros seen Hvs Hseen; simpl; [done|].
    apply NoDup_cons in Hvs as [Hv Hvs].
    rewrite bool_decide_eq_false_2 by (apply Hseen; by left).
    rewrite plain_bfs_no_edges, (set_iter_singleton set_iter v Hset). f_equal.
    apply IH; [done|]. intros v' Hv'. rewrite elem_of_union, elem_of_list_to_set.
    intros [Hs|Hs]; [by apply (Hseen v'); [right|]|].
    apply list_elem_of_singleton in Hs. by subst. }
  apply H; [done|]. intros v _. apply not_elem_of_empty.
Qed.

End SingletonFacts.

(** C3.  For [N >= 1] questions, an [N] x [N] matrix and a requested
    number of at least one, the call returns [min(num_clusters, N)]
    clusters.  When [num_clusters >= N] the cluster at position [i] holds
    item [i] alone, that item is its centroid, and its score is zero. *)
Theorem cluster_count set_iter provider questions m num_clusters :
  Spec.set_order set_iter ->
  provider_ok provider ->
  Spec.square (length questions) m ->
  1 <= length questions ->
  (1 <= num_clusters)%Z ->
  exists clusters,
    (find_clusters_deterministic set_iter provider questions m num_clusters).1 = Ok clusters /\
    Z.of_nat (length clusters) = Z.min num_clusters (Z.of_nat (length questions)) /\
    ((Z.of_nat (length questions) <= num_clusters)%Z ->
     forall i q, questions !! i = Some q ->
       exists cl,
         clusters !! i = Some cl /\
         item_ids cl = [i] /\ items cl = [q] /\
         centroid_id cl = i /\ centroid cl = q /\
         score set_iter m num_clusters i = F.zero).
Proof.
  intros Hset Henc Hsq Hn Hk.
  destruct (ClusterFacts.find_clusters_spec provider Henc set_iter Hset questions m num_clusters
              (length questions) Hsq (le_n _)) as (clusters & Hok & Hlen & Hspec).
  destruct (ResultFacts.merge_spec set_iter Hset _ m num_clusters Hsq) as (Hwf & _ & _ & Hall & _).
  exists clusters. split; [done|]. split.
  - rewrite Hlen, (ResultFacts.components_length set_iter Hset _ Hwf).
    by apply ResultFacts.merge_count.
  - intros Hge i q Hq. specialize (Hall Hge).
    assert (i < length questions) as Hi by (by eapply lookup_lt_Some).
    unfold score. rewrite Hall in *. simpl in *.
    rewrite (SingletonFacts.components_no_edges set_iter _ Hset (NoDup_seq 0 _)) in Hlen, Hspec.
    rewrite length_fmap, length_seq in Hlen.
    destruct (lookup_lt_is_Some_2 clusters i) as [cl Hcl]; [lia|].
    exists cl. split; [done|].
    destruct (Hspec i [i] cl) as [H1 H2 H3 H4 H5 H6 H7]; [|done|].
    { by rewrite list_lookup_fmap, lookup_seq_lt. }
    simpl in H4. injection H4 as H4. rewrite <- H4 in *.
    apply Forall2_cons_inv_l in H3 as (q' & qs' & Hq' & ->%Forall2_nil_inv_l & Hitems).
    rewrite Hq in Hq', H5. simplify_eq.
    split_and!; done.
Qed.

Lemma cluster_count_witness :
  Spec.set_order PySet.iter /\
  provider_ok Example.provider /\
  Spec.square (length (Example.questions 3)) Example.triple_matrix /\
  1 <= length (Example.questions 3) /\
  (1 <= 5)%Z /\
  exists clusters,
    (find_clusters_deterministic PySet.iter Example.provider (Example.questions 3)
       Example.triple_matrix 5).1 = Ok clusters /\
    Z.of_nat (length clusters) = Z.min 5 (Z.of_nat (length (Example.questions 3))) /\
    ((Z.of_nat (length (Example.questions 3)) <= 5)%Z ->
     forall i q, Example.questions 3 !! i = Some q ->
       exists cl,
         clusters !! i = Some cl /\
         item_ids cl = [i] /\ items cl = [q] /\
         centroid_id cl = i /\ centroid cl = q /\
         score PySet.iter Example.triple_matrix 5 i = F.zero).
Proof.
  assert (Spec.square (length (Example.questions 3)) Example.triple_matrix) as Hsq
    by (split; [reflexivity|repeat constructor]).
  assert (1 <= length (Example.questions 3)) as Hn by (simpl; lia).
  split; [exact pyset_order|]. split; [exact example_encode_ok|]. split; [exact Hsq|].
  split; [exact Hn|]. split; [lia|].
  exact (cluster_count PySet.iter Example.provider (Example.questions 3) Example.triple_matrix 5
           pyset_order example_encode_ok Hsq Hn ltac:(lia)).
Defined.

(** ** A requested number below one *)

(** C7, counterexample.  With [num_clusters = 0] the call raises nothing:
    it returns one cluster that holds both items. *)
Lemma invalid_cluster_count_counterexample :
  (0 <= 0)%Z /\
  find_clusters_deterministic PySet.iter Example.provider (Example.questions 2)
    Example.pair_matrix 0
  = (Ok [mkHarmonyCluster 0 0 (mkQuestion "q") [mkQuestion "q"; mkQuestion "qq"] [0; 1]
           "q" ["qq"; "q"]],
     [["q"; "qq"]])%string.
Proof. split; [lia|]. vm_compute. reflexivity. Qed.

(** C7, amended.  The source does not check [num_clusters].  For
    [N >= 1] questions, an [N] x [N] matrix and [num_clusters <= 0] the
    stop condition never holds, every pair is joined, and the call
    returns, without an error, a single cluster that holds every item. *)
Theorem nonpositive_cluster_count set_iter provider questions m num_clusters :
  Spec.set_order set_iter ->
  provider_ok provider ->
  Spec.square (length questions) m ->
  1 <= length questions ->
  (num_clusters <= 0)%Z ->
  exists cl,
    (find_clusters_deterministic set_iter provider questions m num_clusters).1 = Ok [cl] /\
    item_ids cl ≡ₚ seq 0 (length questions).
Proof.
  intros Hset Henc Hsq Hn Hk.
  destruct (ClusterFacts.find_clusters_item_ids provider Henc set_iter Hset questions m num_clusters
              (length questions) Hsq (le_n _)) as (clusters & Hok & Hids).
  destruct (ClusterFacts.components_spec set_iter Hset m num_clusters _ Hsq) as [Hpart _].
  destruct (ResultFacts.merge_spec set_iter Hset _ m num_clusters Hsq) as (Hwf & _).
  pose proof (ResultFacts.components_length set_iter Hset _ Hwf) as Hlen.
  rewrite (ResultFacts.merge_count_nonpositive set_iter Hset _ m num_clusters Hsq Hn Hk) in Hlen.
  rewrite <- Hids in Hlen, Hpart. rewrite length_fmap in Hlen.
  destruct clusters as [|cl [|cl' clusters]]; simpl in Hlen; try lia.
  exists cl. split; [done|]. simpl in Hpart. by rewrite app_nil_r in Hpart.
Qed.

Lemma nonpositive_cluster_count_witness :
  Spec.set_order PySet.iter /\
  provider_ok Example.provider /\
  Spec.square (length (Example.questions 3)) Example.triple_matrix /\
  1 <= length (Example.questions 3) /\
  (-1 <= 0)%Z /\
  exists cl,
    (find_clusters_deterministic PySet.iter Example.provider (Example.questions 3)
       Example.triple_matrix (-1)).1 = Ok [cl] /\
    item_ids cl ≡ₚ seq 0 (length (Example.questions 3)).
Proof.
  assert (Spec.square (length (Example.questions 3)) Example.triple_matrix) as Hsq
    by (split; [reflexivity|repeat constructor]).
  assert (1 <= length (Example.questions 3)) as Hn by (simpl; lia).
  split; [exact pyset_order|]. split; [exact example_encode_ok|]. split; [exact Hsq|].
  split; [exact Hn|]. split; [lia|].
  exact (nonpositive_cluster_count PySet.iter Example.provider (Example.questions 3)
           Example.triple_matrix (-1) pyset_order example_encode_ok Hsq Hn ltac:(lia)).
Defined.

(** ** The centroid *)

Lemma nan_free_scenario : nan_free Example.scenario_matrix.
Proof. repeat constructor. Qed.

(** C4, counterexample.  Two items whose similarity is NaN, one cluster
    requested.  Both scores are NaN; the centroid is item 0, and its score
    is not greater than or equal to the score of the other member, since
    no comparison with a NaN holds.  (The keys of the ranked stream are 1,
    NaN, NaN, 1 in row-major order; none is [<] the one before it, in
    either direction, so [sorted] leaves the four entries as they are.) *)
Lemma centroid_nan_counterexample :
  exists cl,
    (find_clusters_deterministic PySet.iter Example.provider (Example.questions 2)
       Example.nan_matrix 1).1 = Ok [cl] /\
    item_ids cl = [0; 1] /\
    centroid_id cl = 0 /\
    F.le (score PySet.iter Example.nan_matrix 1 1) (score PySet.iter Example.nan_matrix 1 0)
    = false.
Proof. eexists. split_and!; vm_compute; reflexivity. Qed.

(** C4, amended.  On an [N] x [N] matrix the centroid of every returned
    cluster is one of its members; and when the matrix holds no NaN, no
    member has a greater score: the score of the centroid is greater than
    or equal to the score of every member. *)
Theorem centroid_membership set_iter provider questions m num_clusters :
  Spec.set_order set_iter ->
  provider_ok provider ->
  Spec.square (length questions) m ->
  exists clusters,
    (find_clusters_deterministic set_iter provider questions m num_clusters).1 = Ok clusters /\
    forall cl, cl ∈ clusters ->
      centroid_id cl ∈ item_ids cl /\
      (nan_free m ->
       forall i, i ∈ item_ids cl ->
         F.le (score set_iter m num_clusters i) (score set_iter m num_clusters (centroid_id cl))
         = true).
Proof.
  intros Hset Henc Hsq.
  destruct (ClusterFacts.find_clusters_spec provider Henc set_iter Hset questions m num_clusters
              (length questions) Hsq (le_n _)) as (clusters & Hok & Hlen & Hspec).
  exists clusters. split; [done|]. intros cl [g Hcl]%list_elem_of_lookup.
  destruct (lookup_lt_is_Some_2 (Nx.connected_components set_iter (merge set_iter m num_clusters).1) g)
    as [c Hc]; [rewrite <- Hlen; by eapply lookup_lt_Some|].
  destruct (Hspec g c cl Hc Hcl) as [_ Hids _ Hcen _ _ _]. rewrite Hids.
  split; [by eapply AssemblyFacts.centroid_of_elem_of|]. intros Hnan.
  destruct c as [|j rest]; [done|]. injection Hcen as <-. intros i Hi.
  apply (ScoreFacts.max_from_greatest (Py.counter_get (merge set_iter m num_clusters).2));
    [|done].
  intros e _. by apply (ScoreFacts.score_not_nan set_iter (length questions)).
Qed.

Lemma centroid_membership_witness :
  Spec.set_order PySet.iter /\
  provider_ok Example.provider /\
  Spec.square (length (Example.questions 4)) Example.scenario_matrix /\
  nan_free Example.scenario_matrix /\
  exists clusters,
    (find_clusters_deterministic PySet.iter Example.provider (Example.questions 4)
       Example.scenario_matrix 2).1 = Ok clusters /\
    forall cl, cl ∈ clusters ->
      centroid_id cl ∈ item_ids cl /\
      forall i, i ∈ item_ids cl ->
        F.le (score PySet.iter Example.scenario_matrix 2 i)
             (score PySet.iter Example.scenario_matrix 2 (centroid_id cl)) = true.
Proof.
  assert (Spec.square (length (Example.questions 4)) Example.scenario_matrix) as Hsq
    by (split; [reflexivity|repeat constructor]).
  split; [exact pyset_order|]. split; [exact example_encode_ok|]. split; [exact Hsq|].
  split; [exact nan_free_scenario|].
  destruct (centroid_membership PySet.iter Example.provider (Example.questions 4)
              Example.scenario_matrix 2 pyset_order example_encode_ok Hsq)
    as (clusters & Hrun & Hcl).
  exists clusters. split; [exact Hrun|]. intros cl Hin.
  destruct (Hcl cl Hin) as [Hmember Hgreatest].
  split; [exact Hmember|]. exact (Hgreatest nan_free_scenario).
Defined.

(** C6, counterexample.  Nine items of which only 1 and 8 are similar,
    eight clusters requested.  Items 1 and 8 form a cluster and have the
    same score, the greatest of the cluster.  The set of the two yields 8
    before 1, so the cluster lists them in that order and [max] returns
    8: the centroid is not the tied member with the smallest index. *)
Lemma centroid_tie_break_counterexample :
  exists clusters cl,
    (find_clusters_deterministic PySet.iter Example.provider (Example.questions 9)
       Example.tie_matrix 8).1 = Ok clusters /\
    clusters !! 1 = Some cl /\
    item_ids cl = [8; 1] /\
    score PySet.iter Example.tie_matrix 8 1 = score PySet.iter Example.tie_matrix 8 8 /\
    centroid_id cl = 8 /\
    1 < 8.
Proof.
  eexists _, _. split; [vm_compute; reflexivity|]. split; [reflexivity|].
  split; [reflexivity|]. split; [vm_compute; reflexivity|]. split; [reflexivity|lia].
Qed.

(** C6, amended.  On an [N] x [N] matrix without NaNs the centroid of a
    cluster is the first, in the order of the cluster's [item_ids], of the
    members with the greatest score: every member listed before it has a
    smaller score and no member listed after it has a greater one. *)
Theorem centroid_first_of_ties set_iter provider questions m num_clusters :
  Spec.set_order set_iter ->
  provider_ok provider ->
  Spec.square (length questions) m ->
  nan_free m ->
  exists clusters,
    (find_clusters_deterministic set_iter provider questions m num_clusters).1 = Ok clusters /\
    forall cl, cl ∈ clusters ->
      exists before after,
        item_ids cl = before ++ centroid_id cl :: after /\
        (forall i, i ∈ before ->
           F.lt (score set_iter m num_clusters i) (score set_iter m num_clusters (centroid_id cl))
           = true) /\
        (forall i, i ∈ after ->
           F.le (score set_iter m num_clusters i) (score set_iter m num_clusters (centroid_id cl))
           = true).
Proof.
  intros Hset Henc Hsq Hnan.
  destruct (ClusterFacts.find_clusters_spec provider Henc set_iter Hset questions m num_clusters
              (length questions) Hsq (le_n _)) as (clusters & Hok & Hlen & Hspec).
  exists clusters. split; [done|]. intros cl [g Hcl]%list_elem_of_lookup.
  destruct (lookup_lt_is_Some_2 (Nx.connected_components set_iter (merge set_iter m num_clusters).1) g)
    as [c Hc]; [rewrite <- Hlen; by eapply lookup_lt_Some|].
  destruct (Hspec g c cl Hc Hcl) as [_ Hids _ Hcen _ _ _]. rewrite Hids.
  destruct c as [|j rest]; [done|]. injection Hcen as <-.
  apply (ScoreFacts.max_from_split (Py.counter_get (merge set_iter m num_clusters).2)).
  intros e _. by apply (ScoreFacts.score_not_nan set_iter (length questions)).
Qed.

Lemma centroid_first_of_ties_witness :
  Spec.set_order PySet.iter /\
  provider_ok Example.provider /\
  Spec.square (length (Example.questions 9)) Example.tie_matrix /\
  nan_free Example.tie_matrix /\
  exists clusters,
    (find_clusters_deterministic PySet.iter Example.provider (Example.questions 9)
       Example.tie_matrix 8).1 = Ok clusters /\
    forall cl, cl ∈ clusters ->
      exists before after,
        item_ids cl = before ++ centroid_id cl :: after /\
        (forall i, i ∈ before ->
           F.lt (score PySet.iter Example.tie_matrix 8 i)
                (score PySet.iter Example.tie_matrix 8 (centroid_id cl)) = true) /\
        (forall i, i ∈ after ->
           F.le (score PySet.iter Example.tie_matrix 8 i)
                (score PySet.iter Example.tie_matrix 8 (centroid_id cl)) = true).
Proof.
  assert (Spec.square (length (Example.questions 9)) Example.tie_matrix) as Hsq
    by (split; [reflexivity|repeat constructor]).
  assert (nan_free Example.tie_matrix) as Hnan by (repeat constructor).
  split; [exact pyset_order|]. split; [exact example_encode_ok|]. split; [exact Hsq|].
  split; [exact Hnan|].
  exact (centroid_first_of_ties PySet.iter Example.provider (Example.questions 9)
           Example.tie_matrix 8 pyset_order example_encode_ok Hsq Hnan).
Defined.

(** ** Representative keywords *)

Lemma StronglySorted_weaken {A} (R1 R2 : relation A) l :
  (forall a b, R1 a b -> R2 a b) -> StronglySorted R1 l -> StronglySorted R2 l.
Proof.
  intros HR. induction 1 as [|x l Hl IH Hx]; constructor; [done|].
  eapply Forall_impl; [exact Hx|]. auto.
Qed.

(** C9.  An empty cluster gets the empty list and the provider is not
    called (the log is empty).  A cluster with members, fewer than
    [top_k], costs one provider call and gets the texts of all its
    members, each once (the selected indices are a rearrangement of all
    indices), in descending order of the similarity that line 72 computes
    between the mean of the embeddings and every embedding: no text is
    followed by a text of greater similarity. *)
Theorem keywords_small_cluster provider cluster_items top_k :
  provider_ok provider ->
  generate_semantic_keywords provider [] top_k = (Ok [], []) /\
  (cluster_items <> [] ->
   (Z.of_nat (length cluster_items) < top_k)%Z ->
   let texts := question_text <$> cluster_items in
   let embeddings := encode provider texts in
   let sims := cosine_kernel provider (mean_axis0 provider embeddings) embeddings in
   exists indices kws,
     generate_semantic_keywords provider cluster_items top_k = (Ok kws, [texts]) /\
     indices ≡ₚ seq 0 (length cluster_items) /\
     Forall2 (fun i t => texts !! i = Some t) indices kws /\
     StronglySorted (fun a b => F.lt (nth a sims F.zero) (nth b sims F.zero) = false) indices).
Proof.
  intros Henc. split; [done|]. intros Hne Hk texts embeddings sims.
  destruct (KeywordFacts.generate_semantic_keywords_members provider Henc cluster_items top_k Hne)
    as (kws & Hgen & HF). fold texts in Hgen, HF.
  assert (length (similarities provider texts) = length cluster_items) as Hlen.
  { rewrite (KeywordFacts.similarities_length provider Henc). unfold texts. by rewrite length_fmap. }
  assert (top_indices provider texts top_k
          = reverse (argsort provider (similarities provider texts))) as Htop.
  { unfold top_indices. rewrite KeywordFacts.slice_last_all; [done|].
    rewrite (Permutation_length (argsort_perm _ Henc _)), length_seq. lia. }
  exists (top_indices provider texts top_k), kws. split_and!; [done| |done|].
  - by rewrite Htop, reverse_Permutation, (argsort_perm _ Henc), Hlen.
  - rewrite Htop. eapply StronglySorted_weaken;
      [|apply KeywordFacts.StronglySorted_reverse, (argsort_sorted _ Henc)].
    intros a b Hab. unfold flip in Hab. by apply KeywordFacts.np_lt_lt.
Qed.

Lemma keywords_small_cluster_witness :
  provider_ok Example.provider /\
  Example.questions 2 <> [] /\
  (Z.of_nat (length (Example.questions 2)) < 5)%Z /\
  generate_semantic_keywords Example.provider [] 5 = (Ok [], []) /\
  let texts := question_text <$> Example.questions 2 in
  let embeddings := encode Example.provider texts in
  let sims :=
    cosine_kernel Example.provider (mean_axis0 Example.provider embeddings) embeddings in
  exists indices kws,
    generate_semantic_keywords Example.provider (Example.questions 2) 5 = (Ok kws, [texts]) /\
    indices ≡ₚ seq 0 (length (Example.questions 2)) /\
    Forall2 (fun i t => texts !! i = Some t) indices kws /\
    StronglySorted (fun a b => F.lt (nth a sims F.zero) (nth b sims F.zero) = false) indices.
Proof.
  assert (Example.questions 2 <> []) as Hne by discriminate.
  assert (Z.of_nat (length (Example.questions 2)) < 5)%Z as Hfew by (simpl; lia).
  split; [exact example_encode_ok|]. split; [exact Hne|]. split; [exact Hfew|].
  destruct (keywords_small_cluster Example.provider (Example.questions 2) 5 example_encode_ok)
    as [Hempty Hsmall].
  split; [exact Hempty|]. exact (Hsmall Hne Hfew).
Defined.

(** The scenario of the specification with the provider of the examples:
    two items, [top_k = 5].  And a provider whose vectors are not finite:
    the validation of line 72 raises [ValueError] after the call. *)
Example keywords_of_two :
  generate_semantic_keywords Example.provider (Example.questions 2) 5
  = (Ok ["qq"; "q"], [["q"; "qq"]])%string /\
  generate_semantic_keywords Example.overflowing (Example.questions 2) 5
  = (Raise ValueError, [["q"; "qq"]])%string.
Proof. split; vm_compute; reflexivity. Qed.

(** ** The provider and the clusters *)

(** The members, the centroid and the description of every cluster do
    not depend on the provider at all: two runs with any two providers
    agree on every field but the keywords. *)
Lemma cluster_spec_core provider1 provider2 questions ts group_no members cl1 cl2 :
  cluster_spec provider1 questions ts group_no members cl1 ->
  cluster_spec provider2 questions ts group_no members cl2 ->
  core cl1 = core cl2.
Proof.
  intros [Hid1 Hids1 Hit1 Hc1 Hq1 Ht1 _] [Hid2 Hids2 Hit2 Hc2 Hq2 Ht2 _].
  assert (centroid_id cl1 = centroid_id cl2) as Hc by congruence.
  assert (centroid cl1 = centroid cl2) as Hq by congruence.
  assert (items cl1 = items cl2) as Hit.
  { clear -Hit1 Hit2. revert Hit2. generalize (items cl2).
    induction Hit1 as [|i q members l1 Hq _ IH]; intros l2 Hit2.
    - by inversion Hit2.
    - inversion Hit2 as [|? q' ? l2' Hq' Hl2]; subst. f_equal; [congruence|by apply IH]. }
  unfold core. by rewrite Hid1, Hid2, Hids1, Hids2, Hc, Hq, Hit, Ht1, Ht2, Hq.
Qed.

Lemma assignments_provider_independent set_iter provider1 provider2 questions m num_clusters n :
  Spec.set_order set_iter -> provider_ok provider1 -> provider_ok provider2 ->
  Spec.square n m -> n <= length questions ->
  exists clusters1 clusters2,
    (find_clusters_deterministic set_iter provider1 questions m num_clusters).1 = Ok clusters1 /\
    (find_clusters_deterministic set_iter provider2 questions m num_clusters).1 = Ok clusters2 /\
    core <$> clusters1 = core <$> clusters2.
Proof.
  intros Hset He1 He2 Hsq Hn.
  destruct (ClusterFacts.find_clusters_spec provider1 He1 set_iter Hset questions m num_clusters n
              Hsq Hn) as (cls1 & Hok1 & Hlen1 & Hspec1).
  destruct (ClusterFacts.find_clusters_spec provider2 He2 set_iter Hset questions m num_clusters n
              Hsq Hn) as (cls2 & Hok2 & Hlen2 & Hspec2).
  exists cls1, cls2. split; [exact Hok1|]. split; [exact Hok2|].
  apply list_eq. intros i. rewrite !list_lookup_fmap.
  destruct (cls1 !! i) as [cl1|] eqn:E1, (cls2 !! i) as [cl2|] eqn:E2; simpl.
  - destruct (lookup_lt_is_Some_2
                (Nx.connected_components set_iter (merge set_iter m num_clusters).1) i) as [c Hc].
    { rewrite <- Hlen1. by eapply lookup_lt_Some. }
    f_equal. eapply cluster_spec_core; [by eapply Hspec1|by eapply Hspec2].
  - apply lookup_lt_Some in E1. apply lookup_ge_None in E2. lia.
  - apply lookup_ge_None in E1. apply lookup_lt_Some in E2. lia.
  - done.
Qed.

(** ** Both directed copies of a pair *)

Module AcceptedFacts.
Import Spec StreamFacts ScoreFacts.

(** The scores are the weights of the accepted entries, added in order. *)
Lemma merge_loop_accepted set_iter num_clusters stream : forall g ts,
  (merge_loop set_iter num_clusters stream g ts).2
  = foldl add_entry ts (accepted set_iter num_clusters stream g).
Proof.
  induction stream as [|[[y x] sim] stream IH]; intros g ts; simpl; [done|].
  destruct (x =? y); [by apply IH|]. destruct (_ <=? _)%Z; [done|]. simpl. by rewrite IH.
Qed.

Lemma accepted_off_diagonal set_iter num_clusters stream : forall g e,
  e ∈ accepted set_iter num_clusters stream g -> e.1.1 <> e.1.2.
Proof.
  induction stream as [|[[y x] sim] stream IH]; intros g e; simpl.
  - intros H. by apply elem_of_nil in H.
  - destruct (Nat.eqb_spec x y) as [|Hne]; [by apply IH|].
    destruct (_ <=? _)%Z; [intros H; by apply elem_of_nil in H|].
    intros [->|He]%elem_of_cons; [simpl; congruence|by eapply IH].
Qed.

Lemma accepted_sublist set_iter num_clusters stream : forall g,
  sublist (accepted set_iter num_clusters stream g) stream.
Proof.
  induction stream as [|[[y x] sim] stream IH]; intros g; simpl; [done|].
  destruct (x =? y); [by apply sublist_cons|].
  destruct (_ <=? _)%Z; [apply sublist_nil_l|]. by apply sublist_skip.
Qed.

Lemma counter_get_add_entry ts e v :
  e.1.1 <> e.1.2 ->
  Py.counter_get (add_entry ts e) v
  = if decide (incident v e) then PrimFloat.add (Py.counter_get ts v) e.2
    else Py.counter_get ts v.
Proof.
  destruct e as [[y x] s]. unfold add_entry, incident. simpl. intros Hne.
  rewrite !counter_get_iadd.
  repeat case_decide; subst; try done; try tauto; try congruence.
  exfalso. match goal with H : _ \/ _ |- _ => destruct H; congruence end.
Qed.

Lemma counter_get_foldl_add_entry acc : forall ts v,
  (forall e, e ∈ acc -> e.1.1 <> e.1.2) ->
  Py.counter_get (foldl add_entry ts acc) v
  = fold_left PrimFloat.add (contributions v acc) (Py.counter_get ts v).
Proof.
  unfold contributions. induction acc as [|e acc IH]; intros ts v Hacc; simpl; [done|].
  rewrite IH by (intros; apply Hacc; by right).
  rewrite counter_get_add_entry by (apply Hacc; by left).
  rewrite filter_cons. by destruct (decide (incident v e)).
Qed.

(** Two different members of a list stand at two positions of it. *)
Lemma two_positions {A} (e1 e2 : A) l :
  e1 <> e2 -> e1 ∈ l -> e2 ∈ l ->
  exists l1 l2 l3 a b,
    l = l1 ++ a :: l2 ++ b :: l3 /\ ((a = e1 /\ b = e2) \/ (a = e2 /\ b = e1)).
Proof.
  intros Hne (l1 & l2 & ->)%list_elem_of_split [H2|[?|H2]%elem_of_cons]%elem_of_app; [|done|].
  - apply list_elem_of_split in H2 as (k1 & k2 & ->).
    exists k1, k2, l2, e2, e1. rewrite <- (assoc_L (++)). simpl. auto.
  - apply list_elem_of_split in H2 as (k1 & k2 & ->).
    exists l1, k1, k2, e1, e2. auto.
Qed.

End AcceptedFacts.

(** C10.  On a symmetric [n] x [n] matrix: (1) the ranked stream holds
    both directed copies [(i,j)] and [(j,i)] of every pair, with the same
    weight [|sim(i,j)|]; (2) the score of an item is the sum, in the order
    of acceptance, of the weights of the accepted entries that touch it;
    (3) when both copies of a pair are accepted, the weight of the pair
    stands twice among the weights added to the score of an end point. *)
Theorem directed_copies_count_twice set_iter m num_clusters n :
  Spec.square n m ->
  (forall y x, y < n -> x < n -> Np.item m y x = Np.item m x y) ->
  (forall i j, i < n -> j < n -> i <> j ->
     ((i, j), PrimFloat.abs (Np.item m i j)) ∈ ranked (Np.abs m) /\
     ((j, i), PrimFloat.abs (Np.item m i j)) ∈ ranked (Np.abs m)) /\
  (forall v,
     score set_iter m num_clusters v
     = Np.sum (contributions v (accepted_edges set_iter m num_clusters))) /\
  (forall i j,
     (i, j) ∈ (accepted_edges set_iter m num_clusters).*1 ->
     (j, i) ∈ (accepted_edges set_iter m num_clusters).*1 ->
     forall v, v = i \/ v = j ->
     exists l1 l2 l3,
       contributions v (accepted_edges set_iter m num_clusters)
       = l1 ++ PrimFloat.abs (Np.item m i j) :: l2 ++ PrimFloat.abs (Np.item m i j) :: l3).
Proof.
  intros Hsq Hsym.
  destruct (StreamFacts.square_shape n _ (StreamFacts.square_abs n m Hsq)) as [Ha0 Ha1].
  assert (forall y x w, ((y, x), w) ∈ accepted_edges set_iter m num_clusters ->
            y < n /\ x < n /\ y <> x /\ w = PrimFloat.abs (Np.item m y x)) as Hacc.
  { intros y x w He.
    pose proof (AcceptedFacts.accepted_off_diagonal _ _ _ _ _ He) as Hne.
    eapply elem_of_sublist in He; [|apply AcceptedFacts.accepted_sublist].
    apply StreamFacts.elem_of_ranked in He as (Hy & Hx & ->). rewrite Ha0 in Hy. rewrite Ha1 in Hx.
    split_and!; [done..|]. by apply (StreamFacts.abs_item n). }
  split_and!.
  - intros i j Hi Hj Hne. rewrite !StreamFacts.elem_of_ranked, Ha0, Ha1.
    rewrite !(StreamFacts.abs_item n) by done. rewrite (Hsym i j) by done. done.
  - intros v. unfold score, merge, accepted_edges. rewrite AcceptedFacts.merge_loop_accepted.
    rewrite AcceptedFacts.counter_get_foldl_add_entry.
    + by rewrite ScoreFacts.counter_get_empty.
    + intros e He. by eapply AcceptedFacts.accepted_off_diagonal.
  - intros i j Hij Hji v Hv.
    apply list_elem_of_fmap in Hij as ([[y x] w1] & Heq1 & H1). simpl in Heq1.
    assert (y = i /\ x = j) as [-> ->] by (by injection Heq1).
    apply list_elem_of_fmap in Hji as ([[y x] w2] & Heq2 & H2). simpl in Heq2.
    assert (y = j /\ x = i) as [-> ->] by (by injection Heq2).
    destruct (Hacc _ _ _ H1) as (Hi & Hj & Hne & ->).
    destruct (Hacc _ _ _ H2) as (_ & _ & _ & ->). rewrite (Hsym j i) in H2 by done.
    set (w := PrimFloat.abs (Np.item m i j)) in *.
    assert (forall e, e = ((i, j), w) \/ e = ((j, i), w) ->
              e ∈ filter (incident v) (accepted_edges set_iter m num_clusters)) as Hin.
    { intros e He. apply list_elem_of_filter. unfold incident.
      destruct He as [->| ->]; simpl; (split; [destruct Hv; subst; auto|done]). }
    destruct (AcceptedFacts.two_positions ((i, j), w) ((j, i), w)
                (filter (incident v) (accepted_edges set_iter m num_clusters)))
      as (l1 & l2 & l3 & a & b & Heq & Hab); [congruence|by apply Hin; left|by apply Hin; right|].
    exists (l1.*2), (l2.*2), (l3.*2). unfold contributions. rewrite Heq.
    rewrite fmap_app, fmap_cons, fmap_app, fmap_cons.
    by destruct Hab as [[-> ->]|[-> ->]].
Qed.

Lemma scenario_symmetric y x :
  y < 4 -> x < 4 -> Np.item Example.scenario_matrix y x = Np.item Example.scenario_matrix x y.
Proof.
  intros Hy Hx.
  do 4 (destruct y as [|y]; [do 4 (destruct x as [|x]; [reflexivity|]); lia|]). lia.
Qed.

Lemma directed_copies_count_twice_witness :
  Spec.square 4 Example.scenario_matrix /\
  (forall y x, y < 4 -> x < 4 ->
     Np.item Example.scenario_matrix y x = Np.item Example.scenario_matrix x y) /\
  (forall i j, i < 4 -> j < 4 -> i <> j ->
     ((i, j), PrimFloat.abs (Np.item Example.scenario_matrix i j))
       ∈ ranked (Np.abs Example.scenario_matrix) /\
     ((j, i), PrimFloat.abs (Np.item Example.scenario_matrix i j))
       ∈ ranked (Np.abs Example.scenario_matrix)) /\
  (forall v,
     score PySet.iter Example.scenario_matrix 2 v
     = Np.sum (contributions v (accepted_edges PySet.iter Example.scenario_matrix 2))) /\
  (forall i j,
     (i, j) ∈ (accepted_edges PySet.iter Example.scenario_matrix 2).*1 ->
     (j, i) ∈ (accepted_edges PySet.iter Example.scenario_matrix 2).*1 ->
     forall v, v = i \/ v = j ->
     exists l1 l2 l3,
       contributions v (accepted_edges PySet.iter Example.scenario_matrix 2)
       = l1 ++ PrimFloat.abs (Np.item Example.scenario_matrix i j)
            :: l2 ++ PrimFloat.abs (Np.item Example.scenario_matrix i j) :: l3).
Proof.
  assert (Spec.square 4 Example.scenario_matrix) as Hsq
    by (split; [reflexivity|repeat constructor]).
  split; [exact Hsq|]. split; [exact scenario_symmetric|].
  exact (directed_copies_count_twice PySet.iter Example.scenario_matrix 2 4 Hsq
           scenario_symmetric).
Defined.

(** ** The scenario with two pairs *)

Module SortFacts.

Section Sorting.

Context {A : Type} (key : A -> float).

(** [a] may stand before [b] in descending order. *)
Let ge (a b : A) : Prop := F.lt (key a) (key b) = false.

Lemma lt_asym_false a b : F.lt a b = true -> F.lt b a = false.
Proof.
  intros H. destruct (F.lt b a) eqn:E; [|done].
  pose proof (FloatFacts.lt_trans _ _ _ H E) as Hc. by rewrite FloatFacts.lt_irrefl in Hc.
Qed.

Lemma ge_trans x y z : F.not_nan (key y) -> ge x y -> ge y z -> ge x z.
Proof.
  unfold ge. intros Hy Hxy Hyz. destruct (F.lt (key x) (key z)) eqn:E; [|done].
  destruct (FloatFacts.lt_cotrans _ _ (key y) Hy E); congruence.
Qed.

Lemma insert_desc_head x l :
  (forall z, z ∈ l -> ge x z) -> Py.insert_desc key x l = x :: l.
Proof.
  destruct l as [|y l]; [done|]. intros H. simpl.
  unfold ge in H. by rewrite (H y) by (by left).
Qed.

Lemma insert_desc_sorted x l :
  Forall (fun e => F.not_nan (key e)) l ->
  StronglySorted ge l -> StronglySorted ge (Py.insert_desc key x l).
Proof.
  intros Hnan. induction 1 as [|y l Hl IH Hy]; simpl; [repeat constructor|].
  apply Forall_cons in Hnan as [Hny Hnan].
  destruct (F.lt (key x) (key y)) eqn:E.
  - constructor; [by apply IH|]. rewrite StreamFacts.insert_desc_perm. constructor; [|done].
    by apply lt_asym_false.
  - constructor; [by constructor|]. constructor; [done|].
    eapply Forall_impl; [exact Hy|]. intros z Hz. by apply (ge_trans x y z).
Qed.

(** Python's sort puts the keys in descending order. *)
Lemma sorted_reverse_sorted l :
  Forall (fun e => F.not_nan (key e)) l -> StronglySorted ge (Py.sorted_reverse key l).
Proof.
  unfold Py.sorted_reverse. induction 1 as [|x l Hx Hl IH]; simpl; [constructor|].
  apply insert_desc_sorted; [|done].
  by rewrite (StreamFacts.sorted_reverse_perm key l : foldr _ _ _ ≡ₚ _).
Qed.

Context (P : A -> Prop) `{!forall x, Decision (P x)}.

Lemma filter_insert_desc x l :
  Forall (fun e => F.not_nan (key e)) l ->
  StronglySorted ge l ->
  filter P (Py.insert_desc key x l)
  = if decide (P x) then Py.insert_desc key x (filter P l) else filter P l.
Proof.
  intros Hnan. induction 1 as [|y l Hl IH Hy]; simpl.
  - rewrite filter_cons, filter_nil. by destruct (decide (P x)).
  - apply Forall_cons in Hnan as [Hny Hnan]. specialize (IH Hnan).
    destruct (F.lt (key x) (key y)) eqn:E.
    + rewrite !filter_cons, IH. destruct (decide (P x)), (decide (P y)); simpl; try done.
      by rewrite E.
    + rewrite (filter_cons _ x). destruct (decide (P x)); [|done].
      rewrite insert_desc_head; [done|].
      intros z [->|Hz]%list_elem_of_filter%proj2%elem_of_cons; [done|].
      apply (ge_trans x y z); [done..|]. eapply Forall_forall in Hy; done.
Qed.

(** Selecting before sorting and sorting before selecting agree. *)
Lemma filter_sorted_reverse l :
  Forall (fun e => F.not_nan (key e)) l ->
  filter P (Py.sorted_reverse key l) = Py.sorted_reverse key (filter P l).
Proof.
  induction 1 as [|x l Hx Hl IH]; [done|].
  change (Py.sorted_reverse key (x :: l)) with (Py.insert_desc key x (Py.sorted_reverse key l)).
  rewrite filter_insert_desc.
  - rewrite filter_cons, IH. by destruct (decide (P x)).
  - by rewrite StreamFacts.sorted_reverse_perm.
  - by apply sorted_reverse_sorted.
Qed.

Lemma filter_none (Q : A -> Prop) `{!forall x, Decision (Q x)} l :
  (forall z, z ∈ l -> ~ Q z) -> filter Q l = [].
Proof.
  induction l as [|x l IH]; intros Hall; [done|].
  rewrite filter_cons_False by (apply Hall; by left). apply IH. intros; apply Hall. by right.
Qed.

(** In a sorted list the items heavier than a threshold come first. *)
Lemma sorted_split (t : float) l :
  Forall (fun e => F.not_nan (key e)) l ->
  StronglySorted ge l ->
  l = filter (fun e => F.lt t (key e) = true) l ++ filter (fun e => F.lt t (key e) <> true) l.
Proof.
  intros Hnan. induction 1 as [|x l Hl IH Hx]; [done|].
  apply Forall_cons in Hnan as [Hnx Hnan]. specialize (IH Hnan).
  rewrite !filter_cons. destruct (decide (F.lt t (key x) = true)) as [Hb|Hb].
  - rewrite decide_False by tauto. simpl. by rewrite <- IH.
  - rewrite decide_True by done.
    assert (filter (fun e => F.lt t (key e) = true) l = []) as Hnil.
    { apply filter_none. intros z Hz Hbz.
      eapply Forall_forall in Hx; [|exact Hz].
      destruct (FloatFacts.lt_cotrans _ _ (key x) Hnx Hbz); unfold ge in *; congruence. }
    rewrite Hnil in *. simpl in *. by rewrite <- IH.
Qed.

End Sorting.

End SortFacts.

Module ScenarioFacts.
Import Spec StreamFacts SortFacts.

Lemma accepted_filter set_iter num_clusters stream : forall g,
  accepted set_iter num_clusters stream g
  = accepted set_iter num_clusters (filter off_diagonal stream) g.
Proof.
  induction stream as [|[[y x] sim] stream IH]; intros g; [done|].
  rewrite filter_cons. simpl.
  destruct (Nat.eqb_spec x y) as [->|Hne].
  - rewrite decide_False by (intros Hoff; by apply Hoff). apply IH.
  - rewrite decide_True by (intros Heq; simpl in Heq; congruence). simpl.
    rewrite (proj2 (Nat.eqb_neq x y)) by done. destruct (_ <=? _)%Z; [done|]. by rewrite IH.
Qed.

(** The graph is the initial graph with the accepted edges. *)
Lemma merge_loop_graph set_iter num_clusters stream : forall g ts,
  (merge_loop set_iter num_clusters stream g ts).1
  = foldl (fun g e => Nx.add_edge g e.1.1 e.1.2) g (accepted set_iter num_clusters stream g).
Proof.
  induction stream as [|[[y x] sim] stream IH]; intros g ts; simpl; [done|].
  destruct (x =? y); [by apply IH|]. destruct (_ <=? _)%Z; [done|]. simpl. by rewrite IH.
Qed.

Lemma accepted_accept set_iter num_clusters y x sim stream g :
  (x =? y) = false ->
  (Z.of_nat (Nx.number_connected_components set_iter g) <=? num_clusters)%Z = false ->
  accepted set_iter num_clusters (((y, x), sim) :: stream) g
  = ((y, x), sim) :: accepted set_iter num_clusters stream (Nx.add_edge g y x).
Proof. intros H1 H2. simpl. by rewrite H1, H2. Qed.

Lemma accepted_stop set_iter num_clusters y x sim stream g :
  (x =? y) = false ->
  (Z.of_nat (Nx.number_connected_components set_iter g) <=? num_clusters)%Z = true ->
  accepted set_iter num_clusters (((y, x), sim) :: stream) g = [].
Proof. intros H1 H2. simpl. by rewrite H1, H2. Qed.

Lemma light_entry c t :
  F.le (PrimFloat.abs c) 0.1 = true -> F.lt 0.5 0.1 = false -> t = PrimFloat.abs c ->
  ~ F.lt 0.5 t = true.
Proof.
  intros Hle Hc -> Hlt. pose proof (FloatFacts.lt_le_trans _ _ _ Hlt Hle). congruence.
Qed.

Lemma scenario_square m : scenario m -> square 4 m.
Proof.
  intros (d0 & d1 & d2 & d3 & c02 & c03 & c12 & c13 & c20 & c21 & c30 & c31 & -> & _).
  split; [done|repeat constructor].
Qed.

(** Off the diagonal the ranked stream of the scenario starts with both
    copies of (A, B) and both copies of (C, D). *)
Lemma scenario_stream m :
  scenario m ->
  exists rest,
    filter off_diagonal (ranked (Np.abs m))
    = [((0, 1), 0.9%float); ((1, 0), 0.9%float); ((2, 3), 0.8%float); ((3, 2), 0.8%float)]
      ++ rest.
Proof.
  intros (d0 & d1 & d2 & d3 & c02 & c03 & c12 & c13 & c20 & c21 & c30 & c31 & -> & Hd & Hc).
  apply Forall_cons in Hd as [Hd0 [Hd1 [Hd2 [Hd3 _]%Forall_cons]%Forall_cons]%Forall_cons].
  apply Forall_cons in Hc as
    [H02 [H03 [H12 [H13 [H20 [H21 [H30 [H31 _]%Forall_cons]%Forall_cons]%Forall_cons]%Forall_cons
      ]%Forall_cons]%Forall_cons]%Forall_cons].
  unfold ranked.
  set (a := Np.abs _).
  assert (coord_to_sim a
          = [((0, 0), PrimFloat.abs d0); ((0, 1), 0.9%float); ((0, 2), PrimFloat.abs c02);
             ((0, 3), PrimFloat.abs c03);
             ((1, 0), 0.9%float); ((1, 1), PrimFloat.abs d1); ((1, 2), PrimFloat.abs c12);
             ((1, 3), PrimFloat.abs c13);
             ((2, 0), PrimFloat.abs c20); ((2, 1), PrimFloat.abs c21); ((2, 2), PrimFloat.abs d2);
             ((2, 3), 0.8%float);
             ((3, 0), PrimFloat.abs c30); ((3, 1), PrimFloat.abs c31); ((3, 2), 0.8%float);
             ((3, 3), PrimFloat.abs d3)]) as -> by (vm_compute; reflexivity).
  clear a.
  assert (forall c, F.le (PrimFloat.abs c) 0.1 = true -> F.not_nan (PrimFloat.abs c)) as Hnn
    by (intros c Hle; by destruct (FloatFacts.le_not_nan _ _ Hle)).
  assert (forall d, F.not_nan d -> F.not_nan (PrimFloat.abs d)) as Hnd
    by (intros d Hdn; by apply FloatFacts.weight_not_nan, FloatFacts.weight_abs).
  rewrite filter_sorted_reverse by (repeat constructor; simpl; auto).
  match goal with |- context [Py.sorted_reverse snd ?l] =>
    assert (l = [((0, 1), 0.9%float); ((0, 2), PrimFloat.abs c02); ((0, 3), PrimFloat.abs c03);
                 ((1, 0), 0.9%float); ((1, 2), PrimFloat.abs c12); ((1, 3), PrimFloat.abs c13);
                 ((2, 0), PrimFloat.abs c20); ((2, 1), PrimFloat.abs c21); ((2, 3), 0.8%float);
                 ((3, 0), PrimFloat.abs c30); ((3, 1), PrimFloat.abs c31); ((3, 2), 0.8%float)])
      as -> by reflexivity
  end.
  set (l12 := (_ :: _) : list (nat * nat * float)).
  assert (Forall (fun e => F.not_nan e.2) l12) as Hnan by (repeat constructor; simpl; auto).
  rewrite (sorted_split snd 0.5 (Py.sorted_reverse snd l12)).
  - eexists. f_equal. rewrite filter_sorted_reverse by done. unfold l12.
    assert (F.lt 0.5 0.1 = false) as Hhalf by reflexivity.
    repeat first
      [ rewrite filter_cons_True by reflexivity
      | rewrite filter_cons_False by (eapply light_entry; [|exact Hhalf|reflexivity]; eassumption) ].
    rewrite filter_nil. reflexivity.
  - by rewrite sorted_reverse_perm.
  - by apply sorted_reverse_sorted.
Qed.

(** The loop accepts both copies of (A, B), one copy of (C, D), and
    stops at the second copy of (C, D). *)
Lemma scenario_accepted_edges m :
  scenario m ->
  accepted_edges PySet.iter m 2
  = [((0, 1), 0.9%float); ((1, 0), 0.9%float); ((2, 3), 0.8%float)].
Proof.
  intros Hsc. unfold accepted_edges. rewrite accepted_filter.
  destruct (scenario_stream m Hsc) as [rest ->].
  destruct (square_shape 4 m (scenario_square m Hsc)) as [-> _]. simpl app.
  rewrite accepted_accept by (vm_compute; reflexivity).
  rewrite accepted_accept by (vm_compute; reflexivity).
  rewrite accepted_accept by (vm_compute; reflexivity).
  rewrite accepted_stop by (vm_compute; reflexivity). reflexivity.
Qed.

Lemma scenario_merge m :
  scenario m ->
  merge PySet.iter m 2
  = (Nx.mkGraph [0; 1; 2; 3] [(0, 1); (2, 3)],
     foldl add_entry ∅
       [((0, 1), 0.9%float); ((1, 0), 0.9%float); ((2, 3), 0.8%float)]).
Proof.
  intros Hsc. pose proof (scenario_accepted_edges m Hsc) as Hacc.
  unfold accepted_edges in Hacc. unfold merge.
  rewrite (surjective_pairing (merge_loop _ _ _ _ _)).
  rewrite merge_loop_graph, AcceptedFacts.merge_loop_accepted, Hacc.
  destruct (square_shape 4 m (scenario_square m Hsc)) as [-> _]. f_equal.
Qed.

End ScenarioFacts.

(** ** The scenario with four items *)

Lemma scenario_example : scenario Example.scenario_matrix.
Proof.
  exists 1%float, 1%float, 1%float, 1%float, 0.1%float, 0.05%float, (-0.1)%float, 0%float,
    0.1%float, (-0.1)%float, 0.05%float, 0%float.
  split; [reflexivity|]. split; repeat constructor.
Qed.




(** ** A matrix of the wrong size *)

Module ShapeFacts.
Import Spec StreamFacts MergeFacts ResultFacts MonadFacts AssemblyFacts.

Lemma elem_of_add_node g v w : w ∈ Nx.nodes (Nx.add_node g v) <-> w ∈ Nx.nodes g \/ w = v.
Proof.
  unfold Nx.add_node. case_bool_decide as Hin; simpl.
  - split; [auto|]. by intros [?| ->].
  - rewrite elem_of_app, list_elem_of_singleton. tauto.
Qed.

Lemma add_node_edges g v : Nx.edges (Nx.add_node g v) = Nx.edges g.
Proof. unfold Nx.add_node. by case_bool_decide. Qed.

Lemma add_node_wf g v : graph_wf g -> graph_wf (Nx.add_node g v).
Proof.
  intros [Hnd Hedges]. split.
  - unfold Nx.add_node. case_bool_decide as Hin; simpl; [done|].
    apply NoDup_app. split; [done|]. split; [|apply NoDup_singleton].
    intros w Hw ->%list_elem_of_singleton. done.
  - intros a b. rewrite add_node_edges, !elem_of_add_node. intros Hab.
    destruct (Hedges a b Hab). auto.
Qed.

(** [add_edge] makes nodes of both end points. *)
Lemma elem_of_add_edge g u v w :
  w ∈ Nx.nodes (Nx.add_edge g u v) <-> w ∈ Nx.nodes g \/ w = u \/ w = v.
Proof.
  unfold Nx.add_edge. destruct (Nx.has_edge _ _ _); simpl; rewrite !elem_of_add_node; tauto.
Qed.

Lemma add_edge_wf_any g u v : graph_wf g -> graph_wf (Nx.add_edge g u v).
Proof.
  intros Hwf. pose proof (add_node_wf _ v (add_node_wf _ u Hwf)) as [Hnd Hedges].
  unfold Nx.add_edge. destruct (Nx.has_edge _ _ _); [done|]. split; [done|]. simpl.
  intros a b [Hab|Hab%list_elem_of_singleton]%elem_of_app; [by apply Hedges|].
  injection Hab as -> ->. rewrite !elem_of_add_node. auto.
Qed.

Lemma foldl_add_edge_wf (acc : list ((nat * nat) * float)) : forall g,
  graph_wf g ->
  let g' := foldl (fun g e => Nx.add_edge g e.1.1 e.1.2) g acc in
  graph_wf g' /\
  forall w, w ∈ Nx.nodes g' <-> w ∈ Nx.nodes g \/ exists e, e ∈ acc /\ (w = e.1.1 \/ w = e.1.2).
Proof.
  induction acc as [|e acc IH]; intros g Hwf; simpl.
  - split; [done|]. intros w. split; [auto|]. intros [?|(e & He & _)]; [done|].
    by apply elem_of_nil in He.
  - destruct (IH (Nx.add_edge g e.1.1 e.1.2)) as [Hwf' Hnodes]; [by apply add_edge_wf_any|].
    split; [done|]. intros w. rewrite Hnodes, elem_of_add_edge. split.
    + intros [[?|Hw]|(e' & He' & Hw)]; [by left| |].
      * right. exists e. split; [by left|done].
      * right. exists e'. split; [by right|done].
    + intros [?|(e' & [->|He']%elem_of_cons & Hw)]; [by left; left|by left; right|].
      right. by exists e'.
Qed.

Lemma shape_abs m : Np.shape0 (Np.abs m) = Np.shape0 m /\ Np.shape1 (Np.abs m) = Np.shape1 m.
Proof.
  unfold Np.abs, Np.shape0. rewrite length_fmap. split; [done|].
  destruct m as [|row m]; [done|]. simpl. by rewrite length_fmap.
Qed.

Lemma accepted_edges_shape set_iter m num_clusters e :
  e ∈ accepted_edges set_iter m num_clusters -> e.1.1 < Np.shape0 m /\ e.1.2 < Np.shape1 m.
Proof.
  intros He. unfold accepted_edges in He.
  eapply elem_of_sublist in He; [|apply AcceptedFacts.accepted_sublist].
  destruct e as [[y x] w]. apply elem_of_ranked in He as (Hy & Hx & _).
  destruct (shape_abs m) as [<- <-]. done.
Qed.

(** The final graph, for a matrix of any shape: its nodes are the row
    indices and the columns of the accepted entries. *)
Lemma merge_nodes set_iter m num_clusters :
  graph_wf (merge set_iter m num_clusters).1 /\
  forall v,
    v ∈ Nx.nodes (merge set_iter m num_clusters).1
    <-> v < Np.shape0 m \/ exists e, e ∈ accepted_edges set_iter m num_clusters /\ v = e.1.2.
Proof.
  unfold merge. rewrite ScenarioFacts.merge_loop_graph.
  fold (accepted_edges set_iter m num_clusters). rewrite initial_graph.
  destruct (foldl_add_edge_wf (accepted_edges set_iter m num_clusters)
              (Nx.mkGraph (seq 0 (Np.shape0 m)) []) (initial_graph_wf _)) as [Hwf Hnodes].
  split; [done|]. intros v. rewrite Hnodes. simpl. rewrite elem_of_seq. split.
  - intros [?|(e & He & [->| ->])]; [left; lia| |right; by exists e].
    left. by apply (accepted_edges_shape set_iter m num_clusters e).
  - intros [?|(e & He & ->)]; [left; lia|]. right. exists e. auto.
Qed.

Section Run.

Variable provider : Provider.
Hypothesis encode_ok : provider_ok provider.
Variable set_iter : list nat -> list nat.
Hypothesis set_iter_perm : set_order set_iter.

(** For a matrix of any shape the call is a loop over the components of
    the final graph. *)
Lemma find_clusters_unfold_any questions m num_clusters :
  let r := merge set_iter m num_clusters in
  let comps := Nx.connected_components set_iter r.1 in
  find_clusters_deterministic set_iter provider questions m num_clusters
  = mapM (fun '(group_no, group_idx) =>
            make_cluster provider questions r.2 (tag 0 comps) group_no group_idx)
         (zip (seq 0 (length comps)) (seq 0 (length comps))).
Proof using set_iter_perm.
  intros r comps. unfold find_clusters_deterministic. fold r.
  destruct (merge_nodes set_iter m num_clusters) as [Hwf _]. fold r in Hwf.
  destruct r as [g ts] eqn:Er. simpl in *. fold comps.
  pose proof (components_partition set_iter set_iter_perm g Hwf) as Hpart. fold comps in Hpart.
  assert (NoDup (concat comps)) as Hnd by (rewrite Hpart; apply Hwf).
  assert (Forall (fun c => c <> []) comps) as Hne.
  { apply Forall_forall. intros c Hc. by eapply components_nonempty. }
  by rewrite (group_lookup_tag comps Hnd), (sorted_set_tag comps 0 Hne), length_seq.
Qed.

Lemma components_any m num_clusters :
  let comps := Nx.connected_components set_iter (merge set_iter m num_clusters).1 in
  concat comps ≡ₚ Nx.nodes (merge set_iter m num_clusters).1 /\
  (forall g c, comps !! g = Some c -> c <> [] /\ NoDup c).
Proof using set_iter_perm.
  intros comps. destruct (merge_nodes set_iter m num_clusters) as [Hwf _].
  pose proof (components_partition set_iter set_iter_perm _ Hwf) as Hpart.
  fold comps in Hpart. split; [done|].
  intros g c Hc. assert (c ∈ comps) as Hin by (by eapply list_elem_of_lookup_2).
  split; [by eapply components_nonempty|].
  assert (NoDup (concat comps)) as Hnd by (rewrite Hpart; apply Hwf).
  apply list_elem_of_split in Hin as (l1 & l2 & Heq). rewrite Heq, concat_app in Hnd.
  simpl in Hnd. by apply NoDup_app in Hnd as (_ & _ & (? & _)%NoDup_app).
Qed.

(** Every node has a question: clusters, which partition the nodes. *)
Lemma find_clusters_any_Ok questions m num_clusters :
  (forall v, v ∈ Nx.nodes (merge set_iter m num_clusters).1 -> v < length questions) ->
  exists clusters,
    (find_clusters_deterministic set_iter provider questions m num_clusters).1 = Ok clusters /\
    concat (item_ids <$> clusters) ≡ₚ Nx.nodes (merge set_iter m num_clusters).1.
Proof using encode_ok set_iter_perm.
  intros Hall. rewrite (find_clusters_unfold_any questions m num_clusters).
  set (r := merge set_iter m num_clusters) in *.
  set (comps := Nx.connected_components set_iter r.1).
  destruct (components_any m num_clusters) as [Hpart Hcomps]. fold r comps in Hpart, Hcomps.
  destruct (mapM_Ok
              (fun '(group_no, group_idx) =>
                 make_cluster provider questions r.2 (tag 0 comps) group_no group_idx)
              (fun p cl => comps !! p.2 = Some (item_ids cl))
              (zip (seq 0 (length comps)) (seq 0 (length comps)))) as (clusters & Hok & HF).
  { intros p [i Hp]%list_elem_of_lookup. apply ClusterFacts.zip_seq_lookup in Hp as [-> Hi].
    destruct (lookup_lt_is_Some_2 comps i Hi) as [c Hc].
    destruct (Hcomps i c Hc) as (Hne & Hnd).
    destruct (ClusterFacts.make_cluster_spec provider encode_ok questions r.2 comps i i c
                Hc Hne Hnd) as (cl & Hcl & Hspec).
    - intros j Hj. apply Hall. rewrite <- Hpart. apply elem_of_concat. exists c.
      split; [done|]. by eapply list_elem_of_lookup_2.
    - exists cl. split; [done|]. simpl. by destruct Hspec as [_ -> _ _ _ _ _]. }
  exists clusters. split; [done|].
  assert (item_ids <$> clusters = comps) as ->; [|exact Hpart].
  apply Forall2_same_length_lookup in HF as [Hlen HF].
  rewrite length_zip, length_seq, Nat.min_id in Hlen.
  apply list_eq_same_length with (length comps); [done|by rewrite length_fmap|].
  intros i ids c Hi Hids Hc. rewrite list_lookup_fmap in Hids.
  destruct (clusters !! i) as [cl|] eqn:Hcl; [|done]. simpl in Hids. injection Hids as <-.
  assert (comps !! (i, i).2 = Some (item_ids cl)) as Heq.
  { apply (HF i (i, i) cl); [|done]. apply lookup_zip_with_Some. exists i, i.
    by rewrite !lookup_seq_lt by done. }
  simpl in Heq. congruence.
Qed.

(** A node without a question: [IndexError]. *)
Lemma find_clusters_any_error questions m num_clusters v :
  v ∈ Nx.nodes (merge set_iter m num_clusters).1 -> length questions <= v ->
  (find_clusters_deterministic set_iter provider questions m num_clusters).1 = Raise IndexError.
Proof using encode_ok set_iter_perm.
  intros Hv Hlen. rewrite (find_clusters_unfold_any questions m num_clusters).
  set (r := merge set_iter m num_clusters) in *.
  set (comps := Nx.connected_components set_iter r.1).
  destruct (components_any m num_clusters) as [Hpart Hcomps]. fold r comps in Hpart, Hcomps.
  apply ClusterFacts.mapM_Raise.
  - intros p [i Hp]%list_elem_of_lookup. apply ClusterFacts.zip_seq_lookup in Hp as [-> Hi].
    destruct (lookup_lt_is_Some_2 comps i Hi) as [c Hc].
    destruct (Hcomps i c Hc) as (Hne & Hnd).
    destruct (decide (Forall (fun j => j < length questions) c)) as [HF|HF].
    + left. destruct (ClusterFacts.make_cluster_spec provider encode_ok questions r.2 comps i i c
                        Hc Hne Hnd) as (cl & Hcl & _).
      * intros j Hj. eapply Forall_forall in HF; done.
      * by exists cl.
    + right. rewrite (ClusterFacts.make_cluster_error provider questions r.2 comps i i c Hc);
        [done|].
      apply not_Forall_Exists in HF; [|apply _]. eapply Exists_impl; [exact HF|].
      intros j Hj. apply lookup_ge_None. simpl in Hj. lia.
  - assert (v ∈ concat comps) as Hin by (by rewrite Hpart).
    apply elem_of_concat in Hin as (c & Hin & [g Hc]%list_elem_of_lookup).
    exists (g, g). split.
    + apply list_elem_of_lookup. exists g. apply lookup_zip_with_Some. exists g, g.
      apply lookup_lt_Some in Hc. by rewrite !lookup_seq_lt by done.
    + rewrite (ClusterFacts.make_cluster_error provider questions r.2 comps g g c Hc); [done|].
      apply Exists_exists. exists v. split; [done|]. by apply lookup_ge_None.
Qed.

End Run.

End ShapeFacts.

(** C8, counterexample.  Four questions and a 3 x 3 matrix: no error is
    raised; the first three questions are clustered and the fourth is in
    no cluster. *)
Lemma shape_mismatch_counterexample :
  ~ Spec.square (length (Example.questions 4)) Example.triple_matrix /\
  find_clusters_deterministic PySet.iter Example.provider (Example.questions 4)
    Example.triple_matrix 2
  = (Ok [mkHarmonyCluster 0 0 (mkQuestion "q") [mkQuestion "q"; mkQuestion "qq"] [0; 1]
           "q" ["qq"; "q"];
         mkHarmonyCluster 1 2 (mkQuestion "qqq") [mkQuestion "qqq"] [2] "qqq" ["qqq"]],
     [["q"; "qq"]; ["qqq"]])%string.
Proof. split; [by intros [? _]|]. vm_compute. reflexivity. Qed.

(** In the other direction the error comes late: with two questions and
    the same matrix the first cluster is built, and the provider called
    for it, before the second cluster fails. *)
Example shape_mismatch_late_error :
  find_clusters_deterministic PySet.iter Example.provider (Example.questions 2)
    Example.triple_matrix 2
  = (Raise IndexError, [["q"; "qq"]])%string.
Proof. vm_compute. reflexivity. Qed.

(** A matrix that is wrong on one axis, two rows of three entries.  With
    one cluster requested the entry of row 0 and column 2 is accepted and
    brings index 2 into the graph: three questions are clustered, two
    questions give [IndexError].  With two clusters requested no entry is
    accepted and the third question is in no cluster. *)
Example shape_mismatch_wide :
  Nx.nodes (merge PySet.iter Example.wide_matrix 1).1 = [0; 1; 2] /\
  (exists cl,
     (find_clusters_deterministic PySet.iter Example.provider (Example.questions 3)
        Example.wide_matrix 1).1 = Ok [cl] /\ item_ids cl = [0; 1; 2]) /\
  find_clusters_deterministic PySet.iter Example.provider (Example.questions 2)
    Example.wide_matrix 1 = (Raise IndexError, []) /\
  (exists cl0 cl1,
     (find_clusters_deterministic PySet.iter Example.provider (Example.questions 3)
        Example.wide_matrix 2).1 = Ok [cl0; cl1] /\ item_ids cl0 = [0] /\ item_ids cl1 = [1]).
Proof.
  split; [vm_compute; reflexivity|]. split; [eexists; split; vm_compute; reflexivity|].
  split; [vm_compute; reflexivity|]. eexists _, _. split_and!; vm_compute; reflexivity.
Qed.

(** C8, amended.  The source never compares the shape of the matrix with
    the number of questions, for a matrix of any shape.  The indices it
    clusters are the nodes of the final graph: the row indices and the
    columns of the accepted entries, which lie inside the matrix.  If
    every node has a question, the call returns, without an error,
    clusters that partition the nodes; so it does whenever there are at
    least as many questions as rows and as columns.  If a node has no
    question, the call raises Python's [IndexError] while it assembles the
    clusters; so it does whenever there are fewer questions than rows. *)
Theorem shape_mismatch set_iter provider questions m num_clusters :
  Spec.set_order set_iter ->
  provider_ok provider ->
  let run := find_clusters_deterministic set_iter provider questions m num_clusters in
  let nodes := Nx.nodes (merge set_iter m num_clusters).1 in
  (forall v,
     v ∈ nodes
     <-> v < Np.shape0 m \/ exists e, e ∈ accepted_edges set_iter m num_clusters /\ v = e.1.2) /\
  (forall e, e ∈ accepted_edges set_iter m num_clusters ->
     e.1.1 < Np.shape0 m /\ e.1.2 < Np.shape1 m) /\
  ((forall v, v ∈ nodes -> v < length questions) ->
   exists clusters, run.1 = Ok clusters /\ concat (item_ids <$> clusters) ≡ₚ nodes) /\
  ((exists v, v ∈ nodes /\ length questions <= v) -> run.1 = Raise IndexError) /\
  (Np.shape0 m <= length questions -> Np.shape1 m <= length questions ->
   exists clusters, run.1 = Ok clusters /\ concat (item_ids <$> clusters) ≡ₚ nodes) /\
  (length questions < Np.shape0 m -> run.1 = Raise IndexError).
Proof.
  intros Hset Henc run nodes.
  destruct (ShapeFacts.merge_nodes set_iter m num_clusters) as [_ Hnodes]. fold nodes in Hnodes.
  pose proof (ShapeFacts.accepted_edges_shape set_iter m num_clusters) as Hacc.
  split; [exact Hnodes|]. split; [exact Hacc|]. split; [|split; [|split]].
  - by apply ShapeFacts.find_clusters_any_Ok.
  - intros (v & Hv & Hlen). by apply (ShapeFacts.find_clusters_any_error _ Henc _ Hset _ _ _ v).
  - intros H0 H1. apply ShapeFacts.find_clusters_any_Ok; [done..|].
    intros v [Hv|(e & He & ->)]%Hnodes; [lia|]. destruct (Hacc e He). lia.
  - intros Hlt. apply (ShapeFacts.find_clusters_any_error _ Henc _ Hset _ _ _ (length questions));
      [|done].
    apply Hnodes. by left.
Qed.

Lemma shape_mismatch_witness :
  Spec.set_order PySet.iter /\
  provider_ok Example.provider /\
  let nodes := Nx.nodes (merge PySet.iter Example.wide_matrix 1).1 in
  (2 ∈ nodes /\ length (Example.questions 2) <= 2) /\
  (find_clusters_deterministic PySet.iter Example.provider (Example.questions 2)
     Example.wide_matrix 1).1 = Raise IndexError /\
  (Np.shape0 Example.wide_matrix <= length (Example.questions 3) /\
   Np.shape1 Example.wide_matrix <= length (Example.questions 3)) /\
  (exists clusters,
     (find_clusters_deterministic PySet.iter Example.provider (Example.questions 3)
        Example.wide_matrix 1).1 = Ok clusters /\
     concat (item_ids <$> clusters) ≡ₚ nodes) /\
  (forall v,
     v ∈ nodes
     <-> v < Np.shape0 Example.wide_matrix \/
         exists e, e ∈ accepted_edges PySet.iter Example.wide_matrix 1 /\ v = e.1.2) /\
  (forall e, e ∈ accepted_edges PySet.iter Example.wide_matrix 1 ->
     e.1.1 < Np.shape0 Example.wide_matrix /\ e.1.2 < Np.shape1 Example.wide_matrix).
Proof.
  split; [exact pyset_order|]. split; [exact example_encode_ok|]. intros nodes.
  assert (2 ∈ nodes) as Hnode by (right; right; left).
  assert (length (Example.questions 2) <= 2) as Hshort by (simpl; lia).
  assert (Np.shape0 Example.wide_matrix <= length (Example.questions 3)) as Hrows
    by (simpl; lia).
  assert (Np.shape1 Example.wide_matrix <= length (Example.questions 3)) as Hcols
    by (simpl; lia).
  destruct (shape_mismatch PySet.iter Example.provider (Example.questions 2)
              Example.wide_matrix 1 pyset_order example_encode_ok)
    as (Hnodes & Hinside & _ & Herror & _ & _).
  destruct (shape_mismatch PySet.iter Example.provider (Example.questions 3)
              Example.wide_matrix 1 pyset_order example_encode_ok)
    as (_ & _ & _ & _ & Hfits & _).
  split; [by split|]. split; [apply Herror; by exists 2|].
  split; [by split|]. split; [by apply Hfits|]. by split.
Defined.

(* ===================================================================== *)
(** * Further properties of the two functions                             *)
(* ===================================================================== *)

(** ** Facts about the example inputs *)

Lemma scenario_matrix_square : Spec.square 4 Example.scenario_matrix.
Proof. split; [reflexivity|repeat constructor]. Qed.

Lemma scenario_questions_length : 4 <= length (Example.questions 4).
Proof. vm_compute. lia. Qed.

Lemma identity_order : Spec.set_order (fun l => l).
Proof. by intros l _. Qed.

(** ** Components, chains of accepted pairs and clusters *)

Module ComponentFacts.
Import Spec StreamFacts.

(** The edges of a graph to which a list of entries was added. *)
Lemma foldl_add_edge_spec (acc : list ((nat * nat) * float)) : forall g,
  (forall e, e ∈ acc -> e.1.1 ∈ Nx.nodes g /\ e.1.2 ∈ Nx.nodes g) ->
  let g' := foldl (fun g e => Nx.add_edge g e.1.1 e.1.2) g acc in
  Nx.nodes g' = Nx.nodes g /\
  forall a b,
    adjacent g' a b <-> adjacent g a b \/ (a, b) ∈ acc.*1 \/ (b, a) ∈ acc.*1.
Proof.
  induction acc as [|[[y x] w] acc IH]; intros g Hin; simpl.
  - split; [done|]. intros a b. rewrite !elem_of_nil. tauto.
  - destruct (Hin ((y, x), w)) as [Hy Hx]; [left|]. simpl in Hy, Hx.
    destruct (IH (Nx.add_edge g y x)) as [Hn Hadj].
    { intros e He. rewrite CountFacts.add_edge_nodes by done. apply Hin. by right. }
    split; [by rewrite Hn, CountFacts.add_edge_nodes|].
    intros a b. rewrite Hadj, CountFacts.add_edge_adjacent, !elem_of_cons by done.
    split.
    + intros [[?|[[-> ->]|[-> ->]]]|[?|?]]; auto.
    + intros [?|[[Heq|?]|[Heq|?]]]; auto; injection Heq as -> ->; auto.
Qed.

Lemma accepted_edges_bounds set_iter n m num_clusters e :
  square n m -> e ∈ accepted_edges set_iter m num_clusters -> e.1.1 < n /\ e.1.2 < n.
Proof.
  intros Hsq He. unfold accepted_edges in He.
  eapply elem_of_sublist in He; [|apply AcceptedFacts.accepted_sublist].
  destruct e as [[y x] w]. apply elem_of_ranked in He as (Hy & Hx & _).
  destruct (square_shape n _ (square_abs n m Hsq)) as [Hs0 Hs1].
  rewrite Hs0 in Hy. rewrite Hs1 in Hx. done.
Qed.

(** The edges of the final graph are the accepted pairs. *)
Lemma final_graph_adjacent set_iter n m num_clusters a b :
  square n m ->
  adjacent (merge set_iter m num_clusters).1 a b <-> accepted_pair set_iter m num_clusters a b.
Proof.
  intros Hsq. unfold merge, accepted_pair. rewrite ScenarioFacts.merge_loop_graph.
  fold (accepted_edges set_iter m num_clusters).
  destruct (square_shape n m Hsq) as [Hs0 _]. rewrite Hs0, MergeFacts.initial_graph.
  destruct (foldl_add_edge_spec (accepted_edges set_iter m num_clusters)
              (Nx.mkGraph (seq 0 n) [])) as [_ Hadj].
  { intros e He. destruct (accepted_edges_bounds set_iter n m num_clusters e Hsq He).
    simpl. rewrite !elem_of_seq. lia. }
  rewrite Hadj. unfold adjacent at 1. simpl. rewrite !elem_of_nil. tauto.
Qed.

Lemma final_graph_connected set_iter n m num_clusters a b :
  square n m ->
  connected (merge set_iter m num_clusters).1 a b <-> linked set_iter m num_clusters a b.
Proof.
  intros Hsq. unfold connected, linked.
  split; apply rtc_subrel; intros x y; by apply (final_graph_adjacent set_iter n).
Qed.

Section Components.

Variable set_iter : list nat -> list nat.
Hypothesis set_iter_perm : set_order set_iter.

(** Every component is the connectivity class of each of its members,
    and every node is in a component. *)
Lemma component_class g c i :
  graph_wf g -> c ∈ Nx.connected_components set_iter g -> i ∈ c ->
  forall j, j ∈ c <-> connected g i j.
Proof using set_iter_perm.
  intros Hwf Hc Hi j.
  rewrite (GraphFacts.connected_components_sources set_iter set_iter_perm g Hwf) in Hc.
  apply list_elem_of_fmap in Hc as (s & -> & Hs).
  destruct (GraphFacts.sources_transversal g Hwf) as (_ & Hsub & _ & _).
  pose proof (Hsub s Hs) as Hsn.
  rewrite (ResultFacts.elem_of_component set_iter set_iter_perm g s) in Hi |- * by done.
  split.
  - intros Hj. etrans; [|exact Hj]. by symmetry.
  - intros Hij. by etrans.
Qed.

End Components.

End ComponentFacts.

Module RefineFacts.
Import Spec.

(** A larger [num_clusters] stops the loop no later. *)
Lemma accepted_prefix set_iter k k' stream : forall g,
  (k <= k')%Z ->
  accepted set_iter k' stream g `prefix_of` accepted set_iter k stream g.
Proof.
  induction stream as [|[[y x] w] stream IH]; intros g Hk; simpl; [done|].
  destruct (x =? y); [by apply IH|].
  destruct (Z.leb_spec (Z.of_nat (Nx.number_connected_components set_iter g)) k') as [H'|H'].
  - apply prefix_nil.
  - rewrite (proj2 (Z.leb_gt _ _)) by lia. apply prefix_cons. by apply IH.
Qed.

Lemma accepted_pair_mono set_iter m k k' a b :
  (k <= k')%Z -> accepted_pair set_iter m k' a b -> accepted_pair set_iter m k a b.
Proof.
  intros Hk. unfold accepted_pair, accepted_edges.
  destruct (accepted_prefix set_iter k k' (ranked (Np.abs m))
              (Nx.add_nodes_from Nx.empty (seq 0 (Np.shape0 m))) Hk) as [rest ->].
  rewrite fmap_app, !elem_of_app. tauto.
Qed.

Lemma linked_mono set_iter m k k' a b :
  (k <= k')%Z -> linked set_iter m k' a b -> linked set_iter m k a b.
Proof. intros Hk. apply rtc_subrel. intros x y. by apply accepted_pair_mono. Qed.

Lemma score_contributions set_iter m num_clusters v :
  score set_iter m num_clusters v
  = Np.sum (contributions v (accepted_edges set_iter m num_clusters)).
Proof.
  unfold score, merge. rewrite AcceptedFacts.merge_loop_accepted.
  fold (accepted_edges set_iter m num_clusters).
  rewrite AcceptedFacts.counter_get_foldl_add_entry.
  - by rewrite ScoreFacts.counter_get_empty.
  - intros e He. by eapply AcceptedFacts.accepted_off_diagonal.
Qed.

Lemma singleton_list (c : list nat) i :
  NoDup c -> i ∈ c -> (forall j, j ∈ c -> j = i) -> c = [i].
Proof.
  intros Hnd Hi Hall. destruct c as [|a [|b c]].
  - by apply elem_of_nil in Hi.
  - f_equal. apply Hall. by left.
  - assert (a = i) as -> by (apply Hall; by left).
    assert (b = i) as -> by (apply Hall; right; by left).
    apply NoDup_cons in Hnd as [Hni _]. exfalso. apply Hni. by left.
Qed.

End RefineFacts.

(** X1.  The records of the result: cluster [i] of the list has
    [cluster_id = i]; it is not empty and names no item twice; [items]
    holds the questions at [item_ids], in the same order; the centroid is
    the question at [centroid_id] and the description is its text. *)
Theorem cluster_records set_iter provider questions m num_clusters n :
  Spec.set_order set_iter ->
  provider_ok provider ->
  Spec.square n m ->
  n <= length questions ->
  exists clusters,
    (find_clusters_deterministic set_iter provider questions m num_clusters).1 = Ok clusters /\
    forall i cl, clusters !! i = Some cl ->
      cluster_id cl = i /\
      item_ids cl <> [] /\
      NoDup (item_ids cl) /\
      Forall2 (fun j q => questions !! j = Some q) (item_ids cl) (items cl) /\
      questions !! centroid_id cl = Some (centroid cl) /\
      text_description cl = question_text (centroid cl).
Proof.
  intros Hset Henc Hsq Hn.
  destruct (ClusterFacts.find_clusters_spec provider Henc set_iter Hset questions m num_clusters n
              Hsq Hn) as (clusters & Hok & Hlen & Hspec).
  destruct (ClusterFacts.components_spec set_iter Hset m num_clusters n Hsq) as [_ Hcomps].
  exists clusters. split; [exact Hok|]. intros i cl Hcl.
  destruct (lookup_lt_is_Some_2
              (Nx.connected_components set_iter (merge set_iter m num_clusters).1) i) as [c Hc].
  { rewrite <- Hlen. by eapply lookup_lt_Some. }
  destruct (Hspec i c cl Hc Hcl) as [Hid Hids Hit _ Hq Ht _].
  destruct (Hcomps i c Hc) as (Hne & Hnd & _).
  rewrite Hids. done.
Qed.

Lemma cluster_records_witness :
  Spec.set_order PySet.iter /\
  provider_ok Example.provider /\
  Spec.square 3 Example.triple_matrix /\
  3 <= length (Example.questions 4) /\
  exists clusters,
    (find_clusters_deterministic PySet.iter Example.provider (Example.questions 4)
       Example.triple_matrix 2).1 = Ok clusters /\
    forall i cl, clusters !! i = Some cl ->
      cluster_id cl = i /\
      item_ids cl <> [] /\
      NoDup (item_ids cl) /\
      Forall2 (fun j q => Example.questions 4 !! j = Some q) (item_ids cl) (items cl) /\
      Example.questions 4 !! centroid_id cl = Some (centroid cl) /\
      text_description cl = question_text (centroid cl).
Proof.
  assert (Spec.square 3 Example.triple_matrix) as Hsq
    by (split; [reflexivity|repeat constructor]).
  assert (3 <= length (Example.questions 4)) as Hn by (vm_compute; lia).
  split; [exact pyset_order|]. split; [exact example_encode_ok|].
  split; [exact Hsq|]. split; [exact Hn|].
  exact (cluster_records PySet.iter Example.provider (Example.questions 4) Example.triple_matrix 2 3
           pyset_order example_encode_ok Hsq Hn).
Defined.

Module ClusterClassFacts.
Import Spec.

Section Run.

Variable set_iter : list nat -> list nat.
Hypothesis set_iter_perm : set_order set_iter.
Variable provider : Provider.
Hypothesis encode_ok : provider_ok provider.

(** The run returns clusters; every cluster is the class of each of its
    members under the chains of accepted pairs, and every item below [n]
    is in a cluster. *)
Lemma clusters_classes questions m num_clusters n :
  square n m -> n <= length questions ->
  exists clusters,
    (find_clusters_deterministic set_iter provider questions m num_clusters).1 = Ok clusters /\
    (forall cl i, cl ∈ clusters -> i ∈ item_ids cl ->
       forall j, j ∈ item_ids cl <-> linked set_iter m num_clusters i j) /\
    (forall cl, cl ∈ clusters -> item_ids cl <> [] /\ NoDup (item_ids cl)) /\
    (forall i, i < n -> exists cl, cl ∈ clusters /\ i ∈ item_ids cl).
Proof using set_iter_perm encode_ok.
  intros Hsq Hn.
  destruct (ClusterFacts.find_clusters_item_ids provider encode_ok set_iter set_iter_perm
              questions m num_clusters n Hsq Hn) as (clusters & Hok & Hids).
  destruct (ResultFacts.merge_spec set_iter set_iter_perm n m num_clusters Hsq)
    as (Hwf & Hnodes & _).
  destruct (ClusterFacts.components_spec set_iter set_iter_perm m num_clusters n Hsq)
    as [Hperm Hcomps].
  assert (forall cl, cl ∈ clusters ->
            item_ids cl ∈ Nx.connected_components set_iter (merge set_iter m num_clusters).1)
    as Hin.
  { intros cl Hcl. rewrite <- Hids. apply list_elem_of_fmap. by exists cl. }
  exists clusters. split; [exact Hok|]. split; [|split].
  - intros cl i Hcl Hi j.
    rewrite (ComponentFacts.component_class set_iter set_iter_perm _ _ i Hwf (Hin cl Hcl) Hi).
    by apply ComponentFacts.final_graph_connected with n.
  - intros cl Hcl. destruct (proj1 (list_elem_of_lookup _ _) (Hin cl Hcl)) as [g Hg].
    destruct (Hcomps g _ Hg) as (? & ? & _). done.
  - intros i Hi.
    assert (i ∈ concat (Nx.connected_components set_iter (merge set_iter m num_clusters).1))
      as Hic by (rewrite Hperm, elem_of_seq; lia).
    apply ResultFacts.elem_of_concat in Hic as (c & Hic & Hc).
    rewrite <- Hids in Hc. apply list_elem_of_fmap in Hc as (cl & -> & Hcl). by exists cl.
Qed.

End Run.

End ClusterClassFacts.

(** X2.  Two items are in the same cluster exactly when a chain of accepted
    pairs leads from one to the other: the clusters are the connected
    components of the accepted pairs. *)
Theorem same_cluster_iff_linked set_iter provider questions m num_clusters n :
  Spec.set_order set_iter ->
  provider_ok provider ->
  Spec.square n m ->
  n <= length questions ->
  exists clusters,
    (find_clusters_deterministic set_iter provider questions m num_clusters).1 = Ok clusters /\
    forall i j, i < n ->
      (exists cl, cl ∈ clusters /\ i ∈ item_ids cl /\ j ∈ item_ids cl)
      <-> linked set_iter m num_clusters i j.
Proof.
  intros Hset Henc Hsq Hn.
  destruct (ClusterClassFacts.clusters_classes set_iter Hset provider Henc questions m num_clusters
              n Hsq Hn) as (clusters & Hok & Hclass & _ & Hcover).
  exists clusters. split; [exact Hok|]. intros i j Hi. split.
  - intros (cl & Hcl & Hicl & Hjcl). by apply (Hclass cl i Hcl Hicl j).
  - intros Hij. destruct (Hcover i Hi) as (cl & Hcl & Hicl).
    exists cl. split; [done|]. split; [done|]. by apply (Hclass cl i Hcl Hicl j).
Qed.

Lemma same_cluster_iff_linked_witness :
  Spec.set_order PySet.iter /\
  provider_ok Example.provider /\
  Spec.square 4 Example.scenario_matrix /\
  4 <= length (Example.questions 4) /\
  exists clusters,
    (find_clusters_deterministic PySet.iter Example.provider (Example.questions 4) Example.scenario_matrix 2).1 = Ok clusters /\
    forall i j, i < 4 ->
      (exists cl, cl ∈ clusters /\ i ∈ item_ids cl /\ j ∈ item_ids cl)
      <-> linked PySet.iter Example.scenario_matrix 2 i j.
Proof.
  split; [exact pyset_order|]. split; [exact example_encode_ok|].
  split; [exact scenario_matrix_square|]. split; [exact scenario_questions_length|].
  exact (same_cluster_iff_linked PySet.iter Example.provider (Example.questions 4) Example.scenario_matrix 2 4
           pyset_order example_encode_ok scenario_matrix_square
           scenario_questions_length).
Defined.

(** X3.  Asking for more clusters only splits clusters: every cluster of the
    run with the larger [num_clusters] lies inside one cluster of the run
    with the smaller. *)
Theorem more_clusters_refine set_iter provider questions m k k' n :
  Spec.set_order set_iter ->
  provider_ok provider ->
  Spec.square n m ->
  n <= length questions ->
  (k <= k')%Z ->
  exists clusters clusters',
    (find_clusters_deterministic set_iter provider questions m k).1 = Ok clusters /\
    (find_clusters_deterministic set_iter provider questions m k').1 = Ok clusters' /\
    forall cl', cl' ∈ clusters' ->
      exists cl, cl ∈ clusters /\ forall i, i ∈ item_ids cl' -> i ∈ item_ids cl.
Proof.
  intros Hset Henc Hsq Hn Hk.
  destruct (ClusterClassFacts.clusters_classes set_iter Hset provider Henc questions m k
              n Hsq Hn) as (clusters & Hok & Hclass & _ & Hcover).
  destruct (ClusterClassFacts.clusters_classes set_iter Hset provider Henc questions m k'
              n Hsq Hn) as (clusters' & Hok' & Hclass' & Hne' & _).
  destruct (ClusterFacts.find_clusters_partition provider Henc set_iter Hset questions m k' n
              Hsq Hn) as (clusters'' & Hok'' & Hperm').
  assert (clusters'' = clusters') as -> by congruence.
  exists clusters, clusters'. split; [exact Hok|]. split; [exact Hok'|].
  intros cl' Hcl'. destruct (Hne' cl' Hcl') as [Hne _].
  destruct (item_ids cl') as [|i0 rest] eqn:Hids; [done|].
  assert (i0 ∈ item_ids cl') as Hi0 by (rewrite Hids; by left).
  assert (i0 < n) as Hlt.
  { assert (i0 ∈ concat (item_ids <$> clusters')) as Hc.
    { apply ResultFacts.elem_of_concat. exists (item_ids cl'). split; [done|].
      apply list_elem_of_fmap. by exists cl'. }
    rewrite Hperm', elem_of_seq in Hc. lia. }
  destruct (Hcover i0 Hlt) as (cl & Hcl & Hi0cl).
  exists cl. split; [done|]. intros i Hi. rewrite <- Hids in Hi.
  apply (Hclass cl i0 Hcl Hi0cl i). apply RefineFacts.linked_mono with k'; [done|].
  by apply (Hclass' cl' i0 Hcl' Hi0 i).
Qed.

Lemma more_clusters_refine_witness :
  Spec.set_order PySet.iter /\
  provider_ok Example.provider /\
  Spec.square 4 Example.scenario_matrix /\
  4 <= length (Example.questions 4) /\
  (2 <= 3)%Z /\
  exists clusters clusters',
    (find_clusters_deterministic PySet.iter Example.provider (Example.questions 4) Example.scenario_matrix 2).1 = Ok clusters /\
    (find_clusters_deterministic PySet.iter Example.provider (Example.questions 4) Example.scenario_matrix 3).1 = Ok clusters' /\
    forall cl', cl' ∈ clusters' ->
      exists cl, cl ∈ clusters /\ forall i, i ∈ item_ids cl' -> i ∈ item_ids cl.
Proof.
  assert (2 <= 3)%Z as Hk by lia.
  split; [exact pyset_order|]. split; [exact example_encode_ok|].
  split; [exact scenario_matrix_square|]. split; [exact scenario_questions_length|].
  split; [exact Hk|].
  exact (more_clusters_refine PySet.iter Example.provider (Example.questions 4) Example.scenario_matrix 2 3 4
           pyset_order example_encode_ok scenario_matrix_square
           scenario_questions_length Hk).
Defined.

(** X4.  An item is alone in its cluster exactly when no accepted pair touches
    it; its score is then zero and it is the centroid. *)
Theorem alone_iff_untouched set_iter provider questions m num_clusters n :
  Spec.set_order set_iter ->
  provider_ok provider ->
  Spec.square n m ->
  n <= length questions ->
  exists clusters,
    (find_clusters_deterministic set_iter provider questions m num_clusters).1 = Ok clusters /\
    forall cl i, cl ∈ clusters -> i ∈ item_ids cl ->
      (item_ids cl = [i]
       <-> contributions i (accepted_edges set_iter m num_clusters) = []) /\
      (item_ids cl = [i] ->
       score set_iter m num_clusters i = F.zero /\ centroid_id cl = i).
Proof.
  intros Hset Henc Hsq Hn.
  destruct (ClusterClassFacts.clusters_classes set_iter Hset provider Henc questions m num_clusters
              n Hsq Hn) as (clusters & Hok & Hclass & Hne & _).
  destruct (ClusterFacts.find_clusters_spec provider Henc set_iter Hset questions m num_clusters n
              Hsq Hn) as (clusters' & Hok' & Hlen & Hspec).
  assert (clusters' = clusters) as -> by congruence.
  exists clusters. split; [exact Hok|]. intros cl i Hcl Hi.
  assert (item_ids cl = [i]
          <-> contributions i (accepted_edges set_iter m num_clusters) = []) as Hiff.
  { split.
    - intros Hone. unfold contributions.
      rewrite SortFacts.filter_none; [done|]. intros [[y x] w] He [Hinc|Hinc]; simpl in Hinc; subst.
      + assert (x ∈ item_ids cl) as Hx.
        { apply (Hclass cl i Hcl Hi x). apply rtc_once. left.
          apply list_elem_of_fmap. by exists ((i, x), w). }
        rewrite Hone in Hx. apply list_elem_of_singleton in Hx.
        by apply (AcceptedFacts.accepted_off_diagonal _ _ _ _ _ He).
      + assert (y ∈ item_ids cl) as Hy.
        { apply (Hclass cl i Hcl Hi y). apply rtc_once. right.
          apply list_elem_of_fmap. by exists ((y, i), w). }
        rewrite Hone in Hy. apply list_elem_of_singleton in Hy.
        by apply (AcceptedFacts.accepted_off_diagonal _ _ _ _ _ He).
    - intros Hnone. apply RefineFacts.singleton_list; [by apply Hne|done|].
      intros j Hj. apply (Hclass cl i Hcl Hi j) in Hj.
      destruct (rtc_inv _ _ Hj) as [Heq|(x & Hstep & _)]; [done|]. exfalso.
      assert (exists e, e ∈ accepted_edges set_iter m num_clusters /\ incident i e) as (e & He & Hinc).
      { destruct Hstep as [Hs|Hs]; apply list_elem_of_fmap in Hs as (e & Heq & He);
          exists e; (split; [done|]); unfold incident; rewrite <- Heq; simpl; auto. }
      assert (e.2 ∈ contributions i (accepted_edges set_iter m num_clusters)) as Hc.
      { unfold contributions. apply list_elem_of_fmap. exists e. split; [done|].
        by apply list_elem_of_filter. }
      rewrite Hnone in Hc. by apply elem_of_nil in Hc. }
  split; [exact Hiff|]. intros Hone. split.
  - rewrite RefineFacts.score_contributions, (proj1 Hiff Hone). reflexivity.
  - destruct (proj1 (list_elem_of_lookup _ _) Hcl) as [g Hg].
    destruct (lookup_lt_is_Some_2
                (Nx.connected_components set_iter (merge set_iter m num_clusters).1) g) as [c Hc].
    { rewrite <- Hlen. by eapply lookup_lt_Some. }
    destruct (Hspec g c cl Hc Hg) as [_ Hids _ Hcen _ _ _].
    rewrite <- Hids, Hone in Hcen. simpl in Hcen. by injection Hcen.
Qed.

Lemma alone_iff_untouched_witness :
  Spec.set_order PySet.iter /\
  provider_ok Example.provider /\
  Spec.square 4 Example.scenario_matrix /\
  4 <= length (Example.questions 4) /\
  exists clusters,
    (find_clusters_deterministic PySet.iter Example.provider (Example.questions 4) Example.scenario_matrix 3).1 = Ok clusters /\
    forall cl i, cl ∈ clusters -> i ∈ item_ids cl ->
      (item_ids cl = [i]
       <-> contributions i (accepted_edges PySet.iter Example.scenario_matrix 3) = []) /\
      (item_ids cl = [i] ->
       score PySet.iter Example.scenario_matrix 3 i = F.zero /\ centroid_id cl = i).
Proof.
  split; [exact pyset_order|]. split; [exact example_encode_ok|].
  split; [exact scenario_matrix_square|]. split; [exact scenario_questions_length|].
  exact (alone_iff_untouched PySet.iter Example.provider (Example.questions 4) Example.scenario_matrix 3 4
           pyset_order example_encode_ok scenario_matrix_square
           scenario_questions_length).
Defined.

Module SignFacts.

Lemma abs_opp a : PrimFloat.abs (PrimFloat.opp a) = PrimFloat.abs a.
Proof.
  apply Prim2SF_inj. rewrite !abs_spec, opp_spec. by destruct (Prim2SF a).
Qed.

Lemma abs_equal_up_to_sign (m1 m2 : list (list float)) :
  Forall2 (Forall2 (fun a b => a = b \/ a = PrimFloat.opp b)) m1 m2 -> Np.abs m1 = Np.abs m2.
Proof.
  intros H. unfold Np.abs. induction H as [|r1 r2 m1 m2 Hr _ IH]; [done|].
  rewrite !fmap_cons. f_equal; [|exact IH].
  induction Hr as [|a b r1 r2 [->| ->] _ IHr]; [done| |]; rewrite !fmap_cons; f_equal;
    try done. apply abs_opp.
Qed.

End SignFacts.

Module DiagonalFacts.
Import Spec StreamFacts SortFacts.

(** The loop skips the entries of the diagonal. *)
Lemma merge_loop_filter set_iter num_clusters stream : forall g ts,
  merge_loop set_iter num_clusters stream g ts
  = merge_loop set_iter num_clusters (filter off_diagonal stream) g ts.
Proof.
  induction stream as [|[[y x] sim] stream IH]; intros g ts; [done|].
  rewrite filter_cons. simpl.
  destruct (Nat.eqb_spec x y) as [->|Hne].
  - rewrite decide_False by (intros Hoff; by apply Hoff). apply IH.
  - rewrite decide_True by (intros Heq; simpl in Heq; congruence). simpl.
    rewrite (proj2 (Nat.eqb_neq x y)) by done. destruct (_ <=? _)%Z; [done|]. by rewrite IH.
Qed.

(** Off the diagonal the dictionary of line 103 reads only entries off
    the diagonal. *)
Lemma filter_coords_ext (f1 f2 : nat -> nat -> float) (ys xs : list nat) :
  (forall y x, y ∈ ys -> x ∈ xs -> y <> x -> f1 y x = f2 y x) ->
  filter off_diagonal (y ← ys; x ← xs; [((y, x), f1 y x)])
  = filter off_diagonal (y ← ys; x ← xs; [((y, x), f2 y x)]).
Proof.
  induction ys as [|y ys IH]; intros Hext; [done|].
  rewrite !bind_cons, !filter_app. f_equal.
  - assert (forall x, x ∈ xs -> y <> x -> f1 y x = f2 y x) as Hrow
      by (intros x Hx; apply Hext; [by left|done]).
    clear IH Hext. induction xs as [|x xs IHx]; [done|].
    rewrite !bind_cons, !filter_app. f_equal.
    + rewrite !filter_cons, !filter_nil. destruct (decide (y = x)) as [->|Hne].
      * by rewrite !decide_False by (intros Hoff; by apply Hoff).
      * rewrite !decide_True by done. rewrite Hrow; [done|by left|done].
    + apply IHx. intros x' Hx'. apply Hrow. by right.
  - apply IH. intros y' x Hy'. apply Hext. by right.
Qed.

Lemma abs_not_nan n m :
  square n m -> nan_free m ->
  Forall (fun e : nat * nat * float => F.not_nan e.2) (coord_to_sim (Np.abs m)).
Proof.
  intros Hsq Hnan. apply Forall_forall. intros [[y x] w] He.
  apply elem_of_coord_to_sim in He as (Hy & Hx & ->).
  destruct (square_shape n _ (square_abs n m Hsq)) as [Hs0 Hs1].
  rewrite Hs0 in Hy. rewrite Hs1 in Hx. simpl.
  rewrite (abs_item n m y x Hsq Hy Hx).
  apply FloatFacts.weight_not_nan, FloatFacts.weight_abs.
  by apply (ScoreFacts.nan_free_item n).
Qed.

Lemma merge_off_diagonal set_iter n m1 m2 num_clusters :
  square n m1 -> square n m2 -> nan_free m1 -> nan_free m2 ->
  (forall y x, y < n -> x < n -> y <> x -> Np.item m1 y x = Np.item m2 y x) ->
  merge set_iter m1 num_clusters = merge set_iter m2 num_clusters.
Proof.
  intros Hsq1 Hsq2 Hnan1 Hnan2 Hext. unfold merge.
  destruct (square_shape n m1 Hsq1) as [Hs1 _]. destruct (square_shape n m2 Hsq2) as [Hs2 _].
  rewrite Hs1, Hs2.
  rewrite (merge_loop_filter _ _ (ranked (Np.abs m1))).
  rewrite (merge_loop_filter _ _ (ranked (Np.abs m2))).
  f_equal. unfold ranked.
  rewrite !filter_sorted_reverse by (by eapply abs_not_nan).
  f_equal. unfold coord_to_sim.
  destruct (square_shape n _ (square_abs n m1 Hsq1)) as [-> ->].
  destruct (square_shape n _ (square_abs n m2 Hsq2)) as [-> ->].
  apply filter_coords_ext. intros y x Hy Hx Hne.
  apply elem_of_seq in Hy. apply elem_of_seq in Hx.
  rewrite (abs_item n m1), (abs_item n m2) by (done || lia). rewrite Hext by (done || lia). done.
Qed.

End DiagonalFacts.

(** X5.  Only the magnitude of a similarity counts: changing the sign of any
    entries of the matrix changes nothing in the result. *)
Theorem sign_insensitive set_iter provider questions m1 m2 num_clusters :
  Forall2 (Forall2 (fun a b => a = b \/ a = PrimFloat.opp b)) m1 m2 ->
  find_clusters_deterministic set_iter provider questions m1 num_clusters
  = find_clusters_deterministic set_iter provider questions m2 num_clusters.
Proof.
  intros H. pose proof (SignFacts.abs_equal_up_to_sign m1 m2 H) as Habs.
  assert (Np.shape0 m1 = Np.shape0 m2) as Hshape by (by eapply Forall2_length).
  unfold find_clusters_deterministic, merge. by rewrite Habs, Hshape.
Qed.

Lemma scenario_signs :
  Forall2 (Forall2 (fun a b => a = b \/ a = PrimFloat.opp b))
    Example.scenario_matrix_signs Example.scenario_matrix.
Proof.
  unfold Example.scenario_matrix_signs, Example.scenario_matrix.
  repeat (constructor; [repeat (constructor; [first [by left | by right]|]); constructor|]).
  constructor.
Qed.

Lemma sign_insensitive_witness :
  Forall2 (Forall2 (fun a b => a = b \/ a = PrimFloat.opp b))
    Example.scenario_matrix_signs Example.scenario_matrix /\
  find_clusters_deterministic PySet.iter Example.provider (Example.questions 4)
    Example.scenario_matrix_signs 2
  = find_clusters_deterministic PySet.iter Example.provider (Example.questions 4)
      Example.scenario_matrix 2.
Proof.
  split; [exact scenario_signs|].
  exact (sign_insensitive PySet.iter Example.provider (Example.questions 4)
           Example.scenario_matrix_signs Example.scenario_matrix 2 scenario_signs).
Defined.

(** X6.  The diagonal of the matrix is never used: two matrices without NaNs
    that agree off the diagonal give the same result. *)
Theorem diagonal_ignored set_iter provider questions m1 m2 num_clusters n :
  Spec.square n m1 -> Spec.square n m2 -> nan_free m1 -> nan_free m2 ->
  (forall y x, y < n -> x < n -> y <> x -> Np.item m1 y x = Np.item m2 y x) ->
  find_clusters_deterministic set_iter provider questions m1 num_clusters
  = find_clusters_deterministic set_iter provider questions m2 num_clusters.
Proof.
  intros Hsq1 Hsq2 Hnan1 Hnan2 Hext. unfold find_clusters_deterministic.
  by rewrite (DiagonalFacts.merge_off_diagonal set_iter n m1 m2 num_clusters).
Qed.

Lemma scenario_diagonal_square : Spec.square 4 Example.scenario_matrix_diagonal.
Proof. split; [reflexivity|repeat constructor]. Qed.

Lemma scenario_diagonal_nan_free : nan_free Example.scenario_matrix_diagonal.
Proof. repeat constructor. Qed.

Lemma scenario_diagonal_agrees y x :
  y < 4 -> x < 4 -> y <> x ->
  Np.item Example.scenario_matrix y x = Np.item Example.scenario_matrix_diagonal y x.
Proof.
  intros Hy Hx Hne.
  do 4 (destruct y as [|y]; [do 4 (destruct x as [|x]; [reflexivity || done|]); lia|]). lia.
Qed.

Lemma diagonal_ignored_witness :
  Spec.square 4 Example.scenario_matrix /\
  Spec.square 4 Example.scenario_matrix_diagonal /\
  nan_free Example.scenario_matrix /\
  nan_free Example.scenario_matrix_diagonal /\
  (forall y x, y < 4 -> x < 4 -> y <> x ->
     Np.item Example.scenario_matrix y x = Np.item Example.scenario_matrix_diagonal y x) /\
  find_clusters_deterministic PySet.iter Example.provider (Example.questions 4)
    Example.scenario_matrix 2
  = find_clusters_deterministic PySet.iter Example.provider (Example.questions 4)
      Example.scenario_matrix_diagonal 2.
Proof.
  split; [exact scenario_matrix_square|]. split; [exact scenario_diagonal_square|].
  split; [exact nan_free_scenario|]. split; [exact scenario_diagonal_nan_free|].
  split; [exact scenario_diagonal_agrees|].
  exact (diagonal_ignored PySet.iter Example.provider (Example.questions 4)
           Example.scenario_matrix Example.scenario_matrix_diagonal 2 4
           scenario_matrix_square scenario_diagonal_square nan_free_scenario
           scenario_diagonal_nan_free scenario_diagonal_agrees).
Defined.

(** An empty matrix gives an empty result, without a provider call and
    without an error, whatever the questions and the requested number. *)
Theorem empty_matrix set_iter provider questions num_clusters :
  find_clusters_deterministic set_iter provider questions [] num_clusters = (Ok [], []).
Proof. reflexivity. Qed.

Module OrderFacts.
Import Spec StreamFacts SortFacts.

Lemma SFeqb_eq x y : SFeqb x y = true <-> SF.eq x y.
Proof. unfold SFeqb. sf_destruct; sf_compare; split; sf_crush. Qed.

Lemma sf_eq_eq_not_lt x y w : SF.eq x w -> SF.eq y w -> ~ SF.lt x y.
Proof. sf_destruct; sf_crush. Qed.

(** Two values that equal a third are not ordered by [<]. *)
Lemma eqb_not_lt a b w :
  PrimFloat.eqb a w = true -> PrimFloat.eqb b w = true -> F.lt a b = false.
Proof.
  rewrite !FloatAxioms.eqb_spec, !SFeqb_eq. intros Ha Hb.
  destruct (F.lt a b) eqn:Hlt; [|done]. apply FloatFacts.lt_spec in Hlt.
  by destruct (sf_eq_eq_not_lt _ _ _ Ha Hb).
Qed.

(** [sorted] leaves a list of ties as it is. *)
Lemma sorted_reverse_ties {A} (key : A -> float) (l : list A) :
  (forall a b, a ∈ l -> b ∈ l -> F.lt (key a) (key b) = false) ->
  Py.sorted_reverse key l = l.
Proof.
  induction l as [|x l IH]; intros Hties; [done|].
  unfold Py.sorted_reverse. simpl. fold (Py.sorted_reverse key l).
  rewrite IH by (intros a b Ha Hb; apply Hties; by right).
  apply insert_desc_head. intros z Hz. apply Hties; [by left|by right].
Qed.

Lemma sorted_desc {A} (key : A -> float) (l : list A) :
  Forall (fun e => F.not_nan (key e)) l ->
  StronglySorted (fun a b => F.lt (key a) (key b) = false) l ->
  StronglySorted (fun a b => F.le (key b) (key a) = true) l.
Proof.
  intros Hnan Hs. induction Hs as [|x l Hs IH Hx]; [constructor|].
  apply Forall_cons in Hnan as [Hnx Hnl]. constructor; [by apply IH|].
  apply Forall_forall. intros z Hz.
  apply FloatFacts.le_of_not_lt.
  - by apply (proj1 (Forall_forall _ _) Hnl).
  - done.
  - by apply (proj1 (Forall_forall _ _) Hx).
Qed.

End OrderFacts.

(** X7.  The order in which the loop meets the pairs (line 117), for a matrix
    without NaNs: every coordinate once, the weights never increasing, and
    the entries of one weight in the row-major order of the dictionary. *)
Theorem ranked_order m n :
  Spec.square n m -> nan_free m ->
  ranked (Np.abs m) ≡ₚ coord_to_sim (Np.abs m) /\
  StronglySorted (fun e1 e2 : nat * nat * float => F.le e2.2 e1.2 = true) (ranked (Np.abs m)) /\
  forall w,
    filter (fun e : nat * nat * float => PrimFloat.eqb e.2 w = true) (ranked (Np.abs m))
    = filter (fun e : nat * nat * float => PrimFloat.eqb e.2 w = true)
        (coord_to_sim (Np.abs m)).
Proof.
  intros Hsq Hnan. pose proof (DiagonalFacts.abs_not_nan n m Hsq Hnan) as Hnn.
  unfold ranked. split; [apply StreamFacts.sorted_reverse_perm|]. split.
  - apply (OrderFacts.sorted_desc snd).
    + by rewrite StreamFacts.sorted_reverse_perm.
    + by apply SortFacts.sorted_reverse_sorted.
  - intros w. rewrite SortFacts.filter_sorted_reverse by done.
    apply OrderFacts.sorted_reverse_ties. intros a b Ha Hb.
    apply list_elem_of_filter in Ha as [Ha _]. apply list_elem_of_filter in Hb as [Hb _].
    by apply OrderFacts.eqb_not_lt with w.
Qed.

Lemma ranked_order_witness :
  Spec.square 4 Example.scenario_matrix /\
  nan_free Example.scenario_matrix /\
  ranked (Np.abs Example.scenario_matrix) ≡ₚ coord_to_sim (Np.abs Example.scenario_matrix) /\
  StronglySorted (fun e1 e2 : nat * nat * float => F.le e2.2 e1.2 = true)
    (ranked (Np.abs Example.scenario_matrix)) /\
  forall w,
    filter (fun e : nat * nat * float => PrimFloat.eqb e.2 w = true)
      (ranked (Np.abs Example.scenario_matrix))
    = filter (fun e : nat * nat * float => PrimFloat.eqb e.2 w = true)
        (coord_to_sim (Np.abs Example.scenario_matrix)).
Proof.
  split; [exact scenario_matrix_square|]. split; [exact nan_free_scenario|].
  exact (ranked_order Example.scenario_matrix 4 scenario_matrix_square nan_free_scenario).
Defined.

Module SourceFacts.
Import Spec.

Lemma sources_sublist g : forall vs seen, sublist (sources g seen vs) vs.
Proof.
  induction vs as [|v vs IH]; intros seen; simpl; [constructor|].
  destruct (bool_decide (v ∈ seen)).
  - apply sublist_cons. apply IH.
  - apply sublist_skip. apply IH.
Qed.

Lemma StronglySorted_sublist {A} (R : relation A) (l1 l2 : list A) :
  sublist l1 l2 -> StronglySorted R l2 -> StronglySorted R l1.
Proof.
  intros Hsub. induction Hsub as [|x l1 l2 Hsub IH|x l1 l2 Hsub IH]; intros Hs.
  - constructor.
  - apply StronglySorted_inv in Hs as [Hs Hx]. constructor; [by apply IH|].
    apply Forall_forall. intros z Hz. apply (proj1 (Forall_forall _ _) Hx).
    by eapply elem_of_sublist.
  - apply StronglySorted_inv in Hs as [Hs _]. by apply IH.
Qed.

Lemma StronglySorted_lookup {A} (R : relation A) (l : list A) : forall i j a b,
  StronglySorted R l -> i < j -> l !! i = Some a -> l !! j = Some b -> R a b.
Proof.
  induction l as [|x l IH]; intros i j a b Hs Hij Ha Hb; [done|].
  apply StronglySorted_inv in Hs as [Hs Hx].
  destruct j as [|j]; [lia|]. simpl in Hb. destruct i as [|i]; simpl in Ha.
  - injection Ha as ->. apply (proj1 (Forall_forall _ _) Hx). by eapply list_elem_of_lookup_2.
  - apply (IH i j); (done || lia).
Qed.

(** A search starts from the first node of its component: no node of the
    list that it reaches comes before the node it starts from. *)
Lemma sources_least g : graph_wf g -> forall vs seen,
  StronglySorted lt vs ->
  NoDup vs ->
  (forall v, v ∈ vs -> v ∈ Nx.nodes g) ->
  (forall u w, u ∈ seen -> connected g u w -> w ∈ seen) ->
  forall s w, s ∈ sources g seen vs -> w ∈ vs -> connected g s w -> s <= w.
Proof.
  intros Hwf. induction vs as [|v vs IH]; intros seen Hs Hnd Hnodes Hclosed s w Hsrc Hw Hsw.
  { by apply elem_of_nil in Hw. }
  apply StronglySorted_inv in Hs as [Hs Hv]. apply NoDup_cons in Hnd as [Hv' Hnd].
  assert (v ∈ Nx.nodes g) as Hvn by (apply Hnodes; by left).
  assert (forall v, v ∈ vs -> v ∈ Nx.nodes g) as Hnodes' by (intros ? ?; apply Hnodes; by right).
  simpl in Hsrc. destruct (bool_decide_reflect (v ∈ seen)) as [Hin|Hnin].
  - destruct (GraphFacts.sources_spec g Hwf vs seen Hnd Hnodes' Hclosed) as (_ & Hout & _).
    apply elem_of_cons in Hw as [->|Hw].
    + exfalso. apply (proj2 (Hout s Hsrc)). apply (Hclosed v s Hin). by symmetry.
    + by apply (IH seen).
  - set (seen' := seen ∪ list_to_set (Nx.plain_bfs g v)) in *.
    assert (forall u w, u ∈ seen' -> connected g u w -> w ∈ seen') as Hclosed'.
    { intros u w' Hu Huw. unfold seen' in *. apply elem_of_union in Hu as [Hu|Hu].
      - apply elem_of_union_l. by apply (Hclosed u).
      - apply elem_of_union_r. apply elem_of_list_to_set. apply elem_of_list_to_set in Hu.
        apply GraphFacts.elem_of_plain_bfs in Hu; [|done..].
        apply GraphFacts.elem_of_plain_bfs; [done..|]. by etrans. }
    apply elem_of_cons in Hsrc as [->|Hsrc].
    + apply elem_of_cons in Hw as [->|Hw]; [done|].
      apply Nat.lt_le_incl. by apply (proj1 (Forall_forall _ _) Hv).
    + destruct (GraphFacts.sources_spec g Hwf vs seen' Hnd Hnodes' Hclosed') as (_ & Hout & _).
      apply elem_of_cons in Hw as [->|Hw].
      * exfalso. apply (proj2 (Hout s Hsrc)). unfold seen'. apply elem_of_union_r.
        apply elem_of_list_to_set. apply GraphFacts.elem_of_plain_bfs; [done..|]. by symmetry.
      * by apply (IH seen').
Qed.

Lemma seq_sorted n : forall s, StronglySorted lt (seq s n).
Proof.
  induction n as [|n IH]; intros s; simpl; constructor; [apply IH|].
  apply Forall_forall. intros z Hz. apply elem_of_seq in Hz. lia.
Qed.

End SourceFacts.

(** X8.  The clusters come in the order of their smallest members: the
    smallest member of a cluster is smaller than every member of every
    later cluster, and the first cluster holds item 0. *)
Theorem clusters_by_smallest_member set_iter provider questions m num_clusters n :
  Spec.set_order set_iter ->
  provider_ok provider ->
  Spec.square n m ->
  n <= length questions ->
  exists clusters,
    (find_clusters_deterministic set_iter provider questions m num_clusters).1 = Ok clusters /\
    (forall i j cli clj,
       i < j -> clusters !! i = Some cli -> clusters !! j = Some clj ->
       exists a,
         a ∈ item_ids cli /\
         (forall b, b ∈ item_ids cli -> a <= b) /\
         (forall b, b ∈ item_ids clj -> a < b)) /\
    (1 <= n -> exists cl0, clusters !! 0 = Some cl0 /\ 0 ∈ item_ids cl0).
Proof.
  intros Hset Henc Hsq Hn.
  destruct (ClusterFacts.find_clusters_item_ids provider Henc set_iter Hset questions m
              num_clusters n Hsq Hn) as (clusters & Hok & Hids).
  destruct (ResultFacts.merge_spec set_iter Hset n m num_clusters Hsq) as (Hwf & Hnodes & _).
  set (g := (merge set_iter m num_clusters).1) in *.
  rewrite (GraphFacts.connected_components_sources set_iter Hset g Hwf) in Hids.
  assert (StronglySorted lt (Spec.sources g ∅ (Nx.nodes g))) as Hsorted.
  { eapply SourceFacts.StronglySorted_sublist; [apply SourceFacts.sources_sublist|].
    rewrite Hnodes. apply SourceFacts.seq_sorted. }
  destruct (GraphFacts.sources_transversal g Hwf) as (_ & Hsub & _ & _).
  assert (forall s w, s ∈ Spec.sources g ∅ (Nx.nodes g) -> Spec.connected g s w -> s <= w)
    as Hleast.
  { intros s w Hs Hsw.
    assert (StronglySorted lt (Nx.nodes g)) as Hns
      by (rewrite Hnodes; apply SourceFacts.seq_sorted).
    assert (w ∈ Nx.nodes g) as Hw
      by (eapply GraphFacts.connected_nodes; [done| |exact Hsw]; by apply Hsub).
    refine (SourceFacts.sources_least g Hwf (Nx.nodes g) ∅ Hns (proj1 Hwf) (fun _ H => H) _
              s w Hs Hw Hsw).
    intros u w' Hu. by apply elem_of_empty in Hu. }
  assert (forall i cl, clusters !! i = Some cl ->
            exists s, Spec.sources g ∅ (Nx.nodes g) !! i = Some s /\
                      forall b, b ∈ item_ids cl <-> Spec.connected g s b) as Hsrc.
  { intros i cl Hcl.
    assert ((item_ids <$> clusters) !! i = Some (item_ids cl)) as Hl
      by (by rewrite list_lookup_fmap, Hcl).
    rewrite Hids, list_lookup_fmap in Hl.
    destruct (Spec.sources g ∅ (Nx.nodes g) !! i) as [s|] eqn:Hs; [|done].
    simpl in Hl. injection Hl as Hl. exists s. split; [done|]. intros b. rewrite <- Hl.
    apply ResultFacts.elem_of_component; [done..|]. apply Hsub. by eapply list_elem_of_lookup_2. }
  exists clusters. split; [exact Hok|]. split.
  - intros i j cli clj Hij Hi Hj.
    destruct (Hsrc i cli Hi) as (si & Hsi & Hmi). destruct (Hsrc j clj Hj) as (sj & Hsj & Hmj).
    exists si. split; [by apply Hmi|]. split.
    + intros b Hb. apply Hleast; [by eapply list_elem_of_lookup_2|by apply Hmi].
    + intros b Hb.
      pose proof (SourceFacts.StronglySorted_lookup lt _ i j si sj Hsorted Hij Hsi Hsj).
      assert (sj <= b); [|lia].
      apply Hleast; [by eapply list_elem_of_lookup_2|by apply Hmj].
  - intros Hpos.
    assert (Spec.sources g ∅ (Nx.nodes g) !! 0 = Some 0) as H0.
    { rewrite Hnodes. destruct n as [|n']; [lia|]. reflexivity. }
    destruct (lookup_lt_is_Some_2 clusters 0) as [cl0 Hcl0].
    { apply (f_equal length) in Hids. rewrite !length_fmap in Hids. rewrite Hids.
      by eapply lookup_lt_Some. }
    exists cl0. split; [done|]. destruct (Hsrc 0 cl0 Hcl0) as (s & Hs & Hm).
    rewrite H0 in Hs. injection Hs as <-. by apply Hm.
Qed.

Lemma clusters_by_smallest_member_witness :
  Spec.set_order PySet.iter /\
  provider_ok Example.provider /\
  Spec.square 4 Example.scenario_matrix /\
  4 <= length (Example.questions 4) /\
  exists clusters,
    (find_clusters_deterministic PySet.iter Example.provider (Example.questions 4) Example.scenario_matrix 2).1 = Ok clusters /\
    (forall i j cli clj,
       i < j -> clusters !! i = Some cli -> clusters !! j = Some clj ->
       exists a,
         a ∈ item_ids cli /\
         (forall b, b ∈ item_ids cli -> a <= b) /\
         (forall b, b ∈ item_ids clj -> a < b)) /\
    (1 <= 4 -> exists cl0, clusters !! 0 = Some cl0 /\ 0 ∈ item_ids cl0).
Proof.
  split; [exact pyset_order|]. split; [exact example_encode_ok|].
  split; [exact scenario_matrix_square|]. split; [exact scenario_questions_length|].
  exact (clusters_by_smallest_member PySet.iter Example.provider (Example.questions 4) Example.scenario_matrix 2 4
           pyset_order example_encode_ok scenario_matrix_square
           scenario_questions_length).
Defined.

Module SelectionFacts.

(** [l[-k:]] is a suffix of [l]: what it drops, and how much is left. *)
Lemma slice_last_drop {A} (k : Z) (l : list A) :
  exists d,
    Py.slice_last k l = drop d l /\
    length (Py.slice_last k l)
    = if (0 <? k)%Z then Nat.min (Z.to_nat k) (length l) else length l - Z.to_nat (- k).
Proof.
  unfold Py.slice_last. destruct (0 <? k)%Z; eexists; (split; [reflexivity|]);
    rewrite length_drop; lia.
Qed.

Section Provider.

Variable provider : Provider.
Hypothesis encode_ok : provider_ok provider.

(** The selected indices are the end of the ascending ranking, turned
    round; what the slice drops is its beginning. *)
Lemma top_indices_suffix texts top_k :
  let n := length texts in
  let count :=
    if (0 <? top_k)%Z then Nat.min (Z.to_nat top_k) n else n - Z.to_nat (- top_k) in
  exists dropped,
    argsort provider (similarities provider texts)
    = dropped ++ reverse (top_indices provider texts top_k) /\
    length dropped = n - count /\
    length (top_indices provider texts top_k) = count.
Proof using encode_ok.
  intros n count. unfold top_indices. rewrite reverse_involutive.
  set (ranking := argsort provider (similarities provider texts)).
  assert (length ranking = n) as Hlen.
  { unfold ranking. by rewrite (Permutation_length (argsort_perm _ encode_ok _)), length_seq,
      (KeywordFacts.similarities_length provider encode_ok). }
  destruct (slice_last_drop top_k ranking) as (d & Hd & Hcount).
  rewrite Hlen in Hcount. fold n count in Hcount.
  exists (take d ranking). rewrite Hd in Hcount |- *. split; [by rewrite take_drop|].
  rewrite length_reverse. split; [|done].
  rewrite length_drop in Hcount. rewrite length_take. lia.
Qed.

Lemma top_indices_length texts top_k :
  length (top_indices provider texts top_k)
  = if (0 <? top_k)%Z then Nat.min (Z.to_nat top_k) (length texts)
    else length texts - Z.to_nat (- top_k).
Proof using encode_ok. by destruct (top_indices_suffix texts top_k) as (_ & _ & _ & ->). Qed.

(** The selected indices are distinct, in descending order of similarity
    (numpy's order, a NaN counting as the greatest value), and no index
    left out ranks above a selected one. *)
Lemma top_indices_spec texts top_k :
  let sim := similarity provider texts in
  NoDup (top_indices provider texts top_k) /\
  StronglySorted (fun a b => F.np_lt (sim a) (sim b) = false) (top_indices provider texts top_k) /\
  forall i j,
    i ∈ top_indices provider texts top_k -> j < length texts ->
    j ∉ top_indices provider texts top_k -> F.np_lt (sim i) (sim j) = false.
Proof using encode_ok.
  intros sim. unfold top_indices.
  set (s := similarities provider texts).
  destruct (slice_last_drop top_k (argsort provider s)) as (d & -> & _).
  pose proof (argsort_perm _ encode_ok s) as Hperm.
  pose proof (argsort_sorted _ encode_ok s) as Hsorted.
  rewrite <- (take_drop d (argsort provider s)) in Hsorted.
  split; [|split].
  - rewrite reverse_Permutation. eapply sublist_NoDup; [|apply sublist_drop].
    rewrite Hperm. apply NoDup_seq.
  - apply StronglySorted_app_1_r in Hsorted.
    apply (KeywordFacts.StronglySorted_reverse _ _ Hsorted).
  - intros i j Hi Hj Hnj. rewrite elem_of_reverse in Hi. rewrite elem_of_reverse in Hnj.
    assert (j ∈ argsort provider s) as Hja.
    { rewrite Hperm, elem_of_seq. unfold s.
      rewrite (KeywordFacts.similarities_length provider encode_ok). lia. }
    rewrite <- (take_drop d (argsort provider s)) in Hja.
    apply elem_of_app in Hja as [Hja|Hja]; [|done].
    exact (StronglySorted_app_1_elem_of _ _ _ j i Hsorted Hja Hi).
Qed.

End Provider.

End SelectionFacts.

(** X9.  The slice of line 75, for every [top_k]: the keywords are the
    texts at the end of numpy's ascending ranking of the similarities,
    the last of the ranking first.  Their number is the smaller of
    [top_k] and the number of items when [top_k] is positive; all items
    when [top_k = 0], since [l[-0:]] is all of [l]; and all but [-top_k]
    when [top_k] is negative.  What is left out is the beginning of the
    ranking, the least similar items. *)
Theorem keyword_count provider cluster_items top_k :
  provider_ok provider ->
  let texts := question_text <$> cluster_items in
  let n := length cluster_items in
  let count :=
    if (0 <? top_k)%Z then Nat.min (Z.to_nat top_k) n else n - Z.to_nat (- top_k) in
  exists indices kws dropped,
    (generate_semantic_keywords provider cluster_items top_k).1 = Ok kws /\
    Forall2 (fun i t => texts !! i = Some t) indices kws /\
    length kws = count /\
    argsort provider (similarities provider texts) = dropped ++ reverse indices /\
    length dropped = n - count.
Proof.
  intros Henc texts n count.
  destruct (SelectionFacts.top_indices_suffix provider Henc texts top_k)
    as (dropped & Hrank & Hdropped & Hcount).
  assert (length texts = n) as Hn by (unfold texts; by rewrite length_fmap).
  rewrite Hn in Hdropped, Hcount. fold count in Hdropped, Hcount.
  assert (exists kws,
            (generate_semantic_keywords provider cluster_items top_k).1 = Ok kws /\
            Forall2 (fun i t => texts !! i = Some t) (top_indices provider texts top_k) kws)
    as (kws & Hrun & HF).
  { destruct cluster_items as [|q items].
    - exists []. split; [done|].
      assert (top_indices provider texts top_k = []) as ->; [|constructor].
      apply nil_length_inv. rewrite Hcount. unfold count, n. simpl.
      destruct (0 <? top_k)%Z; lia.
    - destruct (KeywordFacts.generate_semantic_keywords_members provider Henc (q :: items)
                  top_k) as (kws & Hrun & HF); [done|].
      exists kws. split; [by rewrite Hrun|exact HF]. }
  exists (top_indices provider texts top_k), kws, dropped.
  split; [exact Hrun|]. split; [exact HF|].
  split; [by rewrite <- (Forall2_length _ _ _ HF)|]. done.
Qed.

Lemma keyword_count_witness :
  provider_ok Example.provider /\
  let texts := question_text <$> Example.questions 3 in
  let n := length (Example.questions 3) in
  let count :=
    if (0 <? -1)%Z then Nat.min (Z.to_nat (-1)) n else n - Z.to_nat (- -1) in
  exists indices kws dropped,
    (generate_semantic_keywords Example.provider (Example.questions 3) (-1)).1 = Ok kws /\
    Forall2 (fun i t => texts !! i = Some t) indices kws /\
    length kws = count /\
    argsort Example.provider (similarities Example.provider texts) = dropped ++ reverse indices /\
    length dropped = n - count.
Proof.
  split; [exact example_encode_ok|].
  exact (keyword_count Example.provider (Example.questions 3) (-1) example_encode_ok).
Defined.

(** X10.  The keywords are the texts of distinct items, the most similar
    first, and no item left out is more similar than a selected one.  The
    similarity of an item is the value line 72 computes for it, from the
    mean of the embeddings and the embedding of the item; the order is
    numpy's, in which a NaN counts as the greatest value. *)
Theorem keywords_most_similar provider cluster_items top_k :
  provider_ok provider ->
  cluster_items <> [] ->
  let texts := question_text <$> cluster_items in
  let sim := similarity provider texts in
  exists indices kws,
    generate_semantic_keywords provider cluster_items top_k = (Ok kws, [texts]) /\
    Forall2 (fun i t => texts !! i = Some t) indices kws /\
    NoDup indices /\
    StronglySorted (fun a b => F.np_lt (sim a) (sim b) = false) indices /\
    forall i j,
      i ∈ indices -> j < length cluster_items -> j ∉ indices ->
      F.np_lt (sim i) (sim j) = false.
Proof.
  intros Henc Hne texts sim.
  destruct (KeywordFacts.generate_semantic_keywords_members provider Henc cluster_items top_k Hne)
    as (kws & Hrun & HF).
  destruct (SelectionFacts.top_indices_spec provider Henc texts top_k) as (Hnd & Hs & Htop).
  exists (top_indices provider texts top_k), kws.
  split; [exact Hrun|]. split; [exact HF|]. split; [exact Hnd|]. split; [exact Hs|].
  intros i j Hi Hj Hnj. apply Htop; [done| |done]. unfold texts. by rewrite length_fmap.
Qed.

Lemma scenario_questions_nonempty : Example.questions 4 <> [].
Proof. discriminate. Qed.

Lemma keywords_most_similar_witness :
  provider_ok Example.provider /\
  Example.questions 4 <> [] /\
  let texts := question_text <$> Example.questions 4 in
  let sim := similarity Example.provider texts in
  exists indices kws,
    generate_semantic_keywords Example.provider (Example.questions 4) 2 = (Ok kws, [texts]) /\
    Forall2 (fun i t => texts !! i = Some t) indices kws /\
    NoDup indices /\
    StronglySorted (fun a b => F.np_lt (sim a) (sim b) = false) indices /\
    forall i j,
      i ∈ indices -> j < length (Example.questions 4) -> j ∉ indices ->
      F.np_lt (sim i) (sim j) = false.
Proof.
  split; [exact example_encode_ok|]. split; [exact scenario_questions_nonempty|].
  exact (keywords_most_similar Example.provider (Example.questions 4) 2 example_encode_ok
           scenario_questions_nonempty).
Defined.

Module CallFacts.
Import Spec MonadFacts AssemblyFacts.

Lemma mapM_calls {A B} (f : A -> M B) (call : B -> list string) (l : list A) :
  (forall x, x ∈ l -> exists y, f x = (Ok y, [call y])) ->
  exists ys, mapM f l = (Ok ys, call <$> ys).
Proof.
  induction l as [|x l IH]; intros Hf; simpl.
  - by exists [].
  - destruct (Hf x) as (y & Hy); [by left|].
    destruct IH as (ys & Hys); [intros; apply Hf; by right|].
    exists (y :: ys). rewrite Hy, Hys.
    unfold mbind, M_bind, bind, mret, M_ret, ret. simpl. by rewrite app_nil_r.
Qed.

Section Provider.

Variable provider : Provider.
Hypothesis encode_ok : provider_ok provider.

(** Building a cluster calls the provider once, with the texts of the
    items of the cluster. *)
Lemma make_cluster_call questions ts comps group_no g c :
  comps !! g = Some c -> c <> [] -> NoDup c ->
  (forall i, i ∈ c -> i < length questions) ->
  exists cl,
    make_cluster provider questions ts (tag 0 comps) group_no g
    = (Ok cl, [question_text <$> items cl]).
Proof using encode_ok.
  intros Hc Hne Hnd Hlt.
  destruct (ClusterFacts.make_cluster_spec provider encode_ok questions ts comps group_no g c
              Hc Hne Hnd Hlt) as (cl & Hcl & Hspec).
  exists cl. destruct (make_cluster provider questions ts (tag 0 comps) group_no g)
    as [r log] eqn:Erun.
  simpl in Hcl. subst r. f_equal.
  destruct (ClusterFacts.questions_at questions c Hlt) as [qc Hqc].
  assert (items cl = qc) as Hitems.
  { destruct Hspec as [_ _ Hit _ _ _ _]. clear -Hit Hqc. revert Hit. generalize (items cl).
    induction Hqc as [|i q c qc Hq _ IH]; intros l Hit.
    - by inversion Hit.
    - inversion Hit as [|? q' ? l' Hq' Hl]; subst. f_equal; [congruence|by apply IH]. }
  assert (qc <> []) as Hqne.
  { intros ->. apply Forall2_length in Hqc. by destruct c. }
  destruct (KeywordFacts.generate_semantic_keywords_members provider encode_ok qc 5 Hqne)
    as (kws & Hrun & _).
  revert Erun. unfold make_cluster.
  rewrite (collect_tag _ _ _ _ _ _ Hc Hqc Hnd), bind_ret_l.
  rewrite <- list_fmap_compose.
  assert (fst ∘ (fun i => (i, Py.counter_get ts i)) <$> c = c) as -> by apply list_fmap_id.
  destruct c as [|i rest] eqn:Ec; [done|]. rewrite <- Ec in *.
  assert (Py.max_key (dict_get ((fun i => (i, Py.counter_get ts i)) <$> c)) c
          = mret (Py.max_from (dict_get ((fun i => (i, Py.counter_get ts i)) <$> c)) i rest))
    as -> by (by rewrite Ec).
  rewrite bind_ret_l.
  set (best := Py.max_from _ i rest).
  assert (best ∈ c) as Hbest by (rewrite Ec; apply max_from_elem_of).
  destruct (lookup_lt_is_Some_2 questions best (Hlt _ Hbest)) as [q Hq].
  rewrite (getitem_Some _ _ _ Hq), bind_ret_l.
  rewrite (bind_Ok _ _ kws [question_text <$> qc] Hrun), bind_ret_l. simpl.
  intros [= _ <-]. by rewrite Hitems.
Qed.

End Provider.

End CallFacts.

(** X11.  The provider is called once for every cluster, in the order of the
    clusters, each time with the texts of the items of the cluster, in
    their order; there is no other call, and no call with an empty
    list. *)
Theorem provider_calls set_iter provider questions m num_clusters n :
  Spec.set_order set_iter ->
  provider_ok provider ->
  Spec.square n m ->
  n <= length questions ->
  exists clusters,
    find_clusters_deterministic set_iter provider questions m num_clusters
    = (Ok clusters, (fun cl => question_text <$> items cl) <$> clusters) /\
    forall cl, cl ∈ clusters -> question_text <$> items cl <> [].
Proof.
  intros Hset Henc Hsq Hn.
  destruct (ClusterFacts.find_clusters_spec provider Henc set_iter Hset questions m num_clusters n
              Hsq Hn) as (clusters' & Hok & Hlen & Hspec).
  destruct (ClusterFacts.components_spec set_iter Hset m num_clusters n Hsq) as [_ Hcomps].
  assert (exists clusters,
            find_clusters_deterministic set_iter provider questions m num_clusters
            = (Ok clusters, (fun cl => question_text <$> items cl) <$> clusters))
    as [clusters Hrun].
  { rewrite (ClusterFacts.find_clusters_unfold provider set_iter Hset questions m num_clusters n
               Hsq).
    apply CallFacts.mapM_calls.
    intros p [i Hp]%list_elem_of_lookup. apply ClusterFacts.zip_seq_lookup in Hp as [-> Hi].
    destruct (lookup_lt_is_Some_2 _ i Hi) as [c Hc].
    destruct (Hcomps i c Hc) as (Hne & Hnd & Hlt).
    apply (CallFacts.make_cluster_call provider Henc questions _ _ i i c Hc Hne Hnd).
    intros j Hj%Hlt. lia. }
  exists clusters. split; [exact Hrun|].
  rewrite Hrun in Hok. simpl in Hok. injection Hok as <-.
  intros cl [i Hcl]%list_elem_of_lookup Hnil.
  destruct (lookup_lt_is_Some_2
              (Nx.connected_components set_iter (merge set_iter m num_clusters).1) i) as [c Hc].
  { rewrite <- Hlen. by eapply lookup_lt_Some. }
  destruct (Hspec i c cl Hc Hcl) as [_ _ Hit _ _ _ _].
  destruct (Hcomps i c Hc) as (Hne & _ & _).
  apply fmap_nil_inv in Hnil. rewrite Hnil in Hit. apply Forall2_length in Hit. by destruct c.
Qed.

Lemma provider_calls_witness :
  Spec.set_order PySet.iter /\
  provider_ok Example.provider /\
  Spec.square 4 Example.scenario_matrix /\
  4 <= length (Example.questions 4) /\
  exists clusters,
    find_clusters_deterministic PySet.iter Example.provider (Example.questions 4) Example.scenario_matrix 2
    = (Ok clusters, (fun cl => question_text <$> items cl) <$> clusters) /\
    forall cl, cl ∈ clusters -> question_text <$> items cl <> [].
Proof.
  split; [exact pyset_order|]. split; [exact example_encode_ok|].
  split; [exact scenario_matrix_square|]. split; [exact scenario_questions_length|].
  exact (provider_calls PySet.iter Example.provider (Example.questions 4) Example.scenario_matrix 2 4
           pyset_order example_encode_ok scenario_matrix_square
           scenario_questions_length).
Defined.

(** X12.  Every cluster has five keywords, or as many as it has items when
    these are fewer, and every keyword is the text of one of its items. *)
Theorem cluster_keywords set_iter provider questions m num_clusters n :
  Spec.set_order set_iter ->
  provider_ok provider ->
  Spec.square n m ->
  n <= length questions ->
  exists clusters,
    (find_clusters_deterministic set_iter provider questions m num_clusters).1 = Ok clusters /\
    forall cl, cl ∈ clusters ->
      length (keywords cl) = Nat.min 5 (length (item_ids cl)) /\
      forall kw, kw ∈ keywords cl -> exists q, q ∈ items cl /\ question_text q = kw.
Proof.
  intros Hset Henc Hsq Hn.
  destruct (ClusterFacts.find_clusters_spec provider Henc set_iter Hset questions m num_clusters n
              Hsq Hn) as (clusters & Hok & Hlen & Hspec).
  destruct (ClusterFacts.components_spec set_iter Hset m num_clusters n Hsq) as [_ Hcomps].
  exists clusters. split; [exact Hok|]. intros cl [i Hcl]%list_elem_of_lookup.
  destruct (lookup_lt_is_Some_2
              (Nx.connected_components set_iter (merge set_iter m num_clusters).1) i) as [c Hc].
  { rewrite <- Hlen. by eapply lookup_lt_Some. }
  destruct (Hspec i c cl Hc Hcl) as [_ Hids Hit _ _ _ Hkw].
  destruct (Hcomps i c Hc) as (Hne & _ & _).
  assert (length (items cl) = length (item_ids cl)) as Hlenit
    by (rewrite Hids; symmetry; by eapply Forall2_length).
  assert (items cl <> []) as Hine.
  { intros Hnil. rewrite Hnil in Hlenit. rewrite Hids in Hlenit. by destruct c. }
  destruct (KeywordFacts.generate_semantic_keywords_members provider Henc (items cl) 5 Hine)
    as (kws & Hrun & HF).
  rewrite Hrun in Hkw. simpl in Hkw. injection Hkw as ->. split.
  - rewrite <- (Forall2_length _ _ _ HF), (SelectionFacts.top_indices_length provider Henc).
    rewrite length_fmap, Hlenit. reflexivity.
  - intros kw [j Hj]%list_elem_of_lookup.
    destruct (Forall2_lookup_r _ _ _ _ _ HF Hj) as (idx & _ & Ht).
    rewrite list_lookup_fmap in Ht. destruct (items cl !! idx) as [q|] eqn:Eq; [|done].
    exists q. split; [by eapply list_elem_of_lookup_2|]. simpl in Ht. by injection Ht.
Qed.

Lemma cluster_keywords_witness :
  Spec.set_order PySet.iter /\
  provider_ok Example.provider /\
  Spec.square 4 Example.scenario_matrix /\
  4 <= length (Example.questions 4) /\
  exists clusters,
    (find_clusters_deterministic PySet.iter Example.provider (Example.questions 4) Example.scenario_matrix 2).1 = Ok clusters /\
    forall cl, cl ∈ clusters ->
      length (keywords cl) = Nat.min 5 (length (item_ids cl)) /\
      forall kw, kw ∈ keywords cl -> exists q, q ∈ items cl /\ question_text q = kw.
Proof.
  split; [exact pyset_order|]. split; [exact example_encode_ok|].
  split; [exact scenario_matrix_square|]. split; [exact scenario_questions_length|].
  exact (cluster_keywords PySet.iter Example.provider (Example.questions 4) Example.scenario_matrix 2 4
           pyset_order example_encode_ok scenario_matrix_square
           scenario_questions_length).
Defined.

Module NonnegFacts.

Lemma weight_le_zero a : weight a -> F.le F.zero a = true.
Proof.
  intros Hw. apply FloatFacts.le_spec. unfold weight in Hw.
  change (Prim2SF F.zero) with (S754_zero false).
  destruct (Prim2SF a) as [s|s| |s mm e]; simpl in *; try done; subst; auto.
Qed.

End NonnegFacts.

(** X13.  On a matrix without NaNs every centrality score is a number that is
    not negative, whatever the signs of the entries. *)
Theorem scores_nonnegative set_iter m num_clusters n v :
  Spec.square n m -> nan_free m ->
  F.not_nan (score set_iter m num_clusters v) /\
  F.le F.zero (score set_iter m num_clusters v) = true.
Proof.
  intros Hsq Hnan. pose proof (ScoreFacts.score_weight set_iter n m num_clusters v Hsq Hnan).
  split; [by apply FloatFacts.weight_not_nan|by apply NonnegFacts.weight_le_zero].
Qed.

Lemma scores_nonnegative_witness :
  Spec.square 4 Example.scenario_matrix_signs /\
  nan_free Example.scenario_matrix_signs /\
  F.not_nan (score PySet.iter Example.scenario_matrix_signs 2 0) /\
  F.le F.zero (score PySet.iter Example.scenario_matrix_signs 2 0) = true.
Proof.
  assert (Spec.square 4 Example.scenario_matrix_signs) as Hsq
    by (split; [reflexivity|repeat constructor]).
  assert (nan_free Example.scenario_matrix_signs) as Hnan by repeat constructor.
  split; [exact Hsq|]. split; [exact Hnan|].
  exact (scores_nonnegative PySet.iter Example.scenario_matrix_signs 2 4 0 Hsq Hnan).
Defined.

Module GreedyFacts.
Import Spec StreamFacts SortFacts.

(** The loop accepts the off-diagonal entries from the front of the
    stream and stops for good. *)
Lemma accepted_prefix_stream set_iter num_clusters stream : forall g,
  accepted set_iter num_clusters stream g `prefix_of` filter off_diagonal stream.
Proof.
  induction stream as [|[[y x] sim] stream IH]; intros g; [done|].
  rewrite filter_cons. simpl.
  destruct (Nat.eqb_spec x y) as [->|Hne].
  - rewrite decide_False by (intros Hoff; by apply Hoff). apply IH.
  - rewrite decide_True by (intros Heq; simpl in Heq; congruence).
    destruct (_ <=? _)%Z; [apply prefix_nil|]. apply prefix_cons, IH.
Qed.

(** The test of line 119 does not depend on the order in which sets are
    iterated, so neither do the graph and the scores. *)
Lemma merge_loop_set_order set_iter1 set_iter2 num_clusters stream :
  set_order set_iter1 -> set_order set_iter2 ->
  forall g ts,
    graph_wf g ->
    (forall y x w, ((y, x), w) ∈ stream -> y ∈ Nx.nodes g /\ x ∈ Nx.nodes g) ->
    merge_loop set_iter1 num_clusters stream g ts = merge_loop set_iter2 num_clusters stream g ts.
Proof.
  intros H1 H2. induction stream as [|[[y x] sim] stream IH]; intros g ts Hwf Hin; [done|].
  simpl. destruct (Hin y x sim) as [Hy Hx]; [by left|].
  assert (forall y' x' w, ((y', x'), w) ∈ stream -> y' ∈ Nx.nodes g /\ x' ∈ Nx.nodes g) as Hin'
    by (intros ? ? ? ?; eapply Hin; by right).
  destruct (x =? y); [by apply IH|].
  rewrite (GraphFacts.number_connected_components_sources set_iter1 H1 g Hwf).
  rewrite (GraphFacts.number_connected_components_sources set_iter2 H2 g Hwf).
  destruct (_ <=? _)%Z; [done|]. apply IH.
  - by apply CountFacts.add_edge_wf.
  - intros y' x' w Hw. rewrite CountFacts.add_edge_nodes by done. by eapply Hin'.
Qed.

Lemma merge_set_order set_iter1 set_iter2 n m num_clusters :
  set_order set_iter1 -> set_order set_iter2 -> square n m ->
  merge set_iter1 m num_clusters = merge set_iter2 m num_clusters.
Proof.
  intros H1 H2 Hsq. unfold merge. destruct (square_shape n m Hsq) as [-> _].
  rewrite MergeFacts.initial_graph.
  apply merge_loop_set_order; [done..|apply MergeFacts.initial_graph_wf|].
  intros y x w Hw. apply elem_of_ranked in Hw as (Hy & Hx & _).
  destruct (square_shape n _ (square_abs n m Hsq)) as [Hs0 Hs1].
  rewrite Hs0 in Hy. rewrite Hs1 in Hx. simpl. rewrite !elem_of_seq. lia.
Qed.

End GreedyFacts.

(** X14.  The loop is greedy: off the diagonal, the accepted entries are the
    front of the ranked stream, so on a matrix without NaNs no entry that
    was left is heavier than an accepted one. *)
Theorem accepted_heaviest set_iter m num_clusters n :
  Spec.square n m -> nan_free m ->
  exists rest,
    filter off_diagonal (ranked (Np.abs m)) = accepted_edges set_iter m num_clusters ++ rest /\
    forall e e', e ∈ accepted_edges set_iter m num_clusters -> e' ∈ rest ->
      F.le e'.2 e.2 = true.
Proof.
  intros Hsq Hnan. unfold accepted_edges.
  destruct (GreedyFacts.accepted_prefix_stream set_iter num_clusters (ranked (Np.abs m))
              (Nx.add_nodes_from Nx.empty (seq 0 (Np.shape0 m)))) as [rest Hrest].
  exists rest. split; [exact Hrest|]. intros e e' He He'.
  pose proof (DiagonalFacts.abs_not_nan n m Hsq Hnan) as Hnn.
  assert (Forall (fun e : nat * nat * float => F.not_nan e.2)
            (filter off_diagonal (coord_to_sim (Np.abs m)))) as Hnn'.
  { apply Forall_forall. intros z [_ Hz]%list_elem_of_filter.
    by apply (proj1 (Forall_forall _ _) Hnn). }
  assert (StronglySorted (fun e1 e2 : nat * nat * float => F.le e2.2 e1.2 = true)
            (filter off_diagonal (ranked (Np.abs m)))) as Hsorted.
  { unfold ranked. rewrite SortFacts.filter_sorted_reverse by done.
    apply (OrderFacts.sorted_desc snd).
    - by rewrite StreamFacts.sorted_reverse_perm.
    - by apply SortFacts.sorted_reverse_sorted. }
  rewrite Hrest in Hsorted.
  exact (StronglySorted_app_1_elem_of _ _ _ e e' Hsorted He He').
Qed.

Lemma accepted_heaviest_witness :
  Spec.square 4 Example.scenario_matrix /\
  nan_free Example.scenario_matrix /\
  exists rest,
    filter off_diagonal (ranked (Np.abs Example.scenario_matrix))
    = accepted_edges PySet.iter Example.scenario_matrix 2 ++ rest /\
    forall e e', e ∈ accepted_edges PySet.iter Example.scenario_matrix 2 -> e' ∈ rest ->
      F.le e'.2 e.2 = true.
Proof.
  split; [exact scenario_matrix_square|]. split; [exact nan_free_scenario|].
  exact (accepted_heaviest PySet.iter Example.scenario_matrix 2 4 scenario_matrix_square
           nan_free_scenario).
Defined.

(** X15.  What does not depend on the order in which the platform
    iterates sets: under any two such orders the runs return as many
    clusters, cluster by cluster with the same [cluster_id] and the same
    members, and every item has the same score.  (The order of the
    members inside a cluster is not covered, nor what follows from it.) *)
Theorem set_order_independent set_iter1 set_iter2 provider questions m num_clusters n :
  Spec.set_order set_iter1 ->
  Spec.set_order set_iter2 ->
  provider_ok provider ->
  Spec.square n m ->
  n <= length questions ->
  exists clusters1 clusters2,
    (find_clusters_deterministic set_iter1 provider questions m num_clusters).1 = Ok clusters1 /\
    (find_clusters_deterministic set_iter2 provider questions m num_clusters).1 = Ok clusters2 /\
    Forall2 (fun cl1 cl2 => cluster_id cl1 = cluster_id cl2 /\ item_ids cl1 ≡ₚ item_ids cl2)
      clusters1 clusters2 /\
    forall v, score set_iter1 m num_clusters v = score set_iter2 m num_clusters v.
Proof.
  intros H1 H2 Henc Hsq Hn.
  destruct (ClusterFacts.find_clusters_spec provider Henc set_iter1 H1 questions m
              num_clusters n Hsq Hn) as (cls1 & Hok1 & Hlen1 & Hspec1).
  destruct (ClusterFacts.find_clusters_spec provider Henc set_iter2 H2 questions m
              num_clusters n Hsq Hn) as (cls2 & Hok2 & Hlen2 & Hspec2).
  pose proof (GreedyFacts.merge_set_order set_iter1 set_iter2 n m num_clusters H1 H2 Hsq) as Hm.
  destruct (ResultFacts.merge_spec set_iter2 H2 n m num_clusters Hsq) as (Hwf & Hnodes & _).
  rewrite Hm in Hlen1, Hspec1. cbv zeta in Hlen1, Hlen2, Hspec1, Hspec2.
  set (g := (merge set_iter2 m num_clusters).1) in *.
  rewrite (GraphFacts.connected_components_sources set_iter1 H1 g Hwf) in Hlen1, Hspec1.
  rewrite (GraphFacts.connected_components_sources set_iter2 H2 g Hwf) in Hlen2, Hspec2.
  rewrite length_fmap in Hlen1, Hlen2.
  destruct (GraphFacts.sources_transversal g Hwf) as (_ & Hsub & _ & _).
  exists cls1, cls2. split; [exact Hok1|]. split; [exact Hok2|]. split.
  - apply Forall2_same_length_lookup. split; [lia|].
    intros i cl1 cl2 Hcl1 Hcl2.
    destruct (lookup_lt_is_Some_2 (Spec.sources g ∅ (Nx.nodes g)) i) as [s Hs].
    { rewrite <- Hlen1. by eapply lookup_lt_Some. }
    destruct (Hspec1 i (set_iter1 (Nx.plain_bfs g s)) cl1) as [Hid1 Hids1 _ _ _ _ _];
      [by rewrite list_lookup_fmap, Hs|done|].
    destruct (Hspec2 i (set_iter2 (Nx.plain_bfs g s)) cl2) as [Hid2 Hids2 _ _ _ _ _];
      [by rewrite list_lookup_fmap, Hs|done|].
    split; [congruence|]. rewrite Hids1, Hids2.
    assert (NoDup (Nx.plain_bfs g s)) as Hnd.
    { apply GraphFacts.plain_bfs_spec; [done|]. apply Hsub. by eapply list_elem_of_lookup_2. }
    by rewrite (H1 _ Hnd), (H2 _ Hnd).
  - intros v. unfold score. by rewrite Hm.
Qed.

(** The order inside a cluster does depend on it, and with it the
    centroid among members of equal score: CPython's order and the order
    of insertion on the matrix with the tie. *)
Example set_order_reaches_centroid :
  exists cl1 cl2 clusters1 clusters2,
    (find_clusters_deterministic PySet.iter Example.provider (Example.questions 9)
       Example.tie_matrix 8).1 = Ok clusters1 /\
    (find_clusters_deterministic (fun l => l) Example.provider (Example.questions 9)
       Example.tie_matrix 8).1 = Ok clusters2 /\
    clusters1 !! 1 = Some cl1 /\ clusters2 !! 1 = Some cl2 /\
    item_ids cl1 = [8; 1] /\ centroid_id cl1 = 8 /\
    item_ids cl2 = [1; 8] /\ centroid_id cl2 = 1.
Proof.
  eexists _, _, _, _. split; [vm_compute; reflexivity|]. split; [vm_compute; reflexivity|].
  split_and!; reflexivity.
Qed.

Lemma set_order_independent_witness :
  Spec.set_order PySet.iter /\
  Spec.set_order (fun l => l) /\
  provider_ok Example.provider /\
  Spec.square 4 Example.scenario_matrix /\
  4 <= length (Example.questions 4) /\
  exists clusters1 clusters2,
    (find_clusters_deterministic PySet.iter Example.provider (Example.questions 4)
       Example.scenario_matrix 2).1 = Ok clusters1 /\
    (find_clusters_deterministic (fun l => l) Example.provider (Example.questions 4)
       Example.scenario_matrix 2).1 = Ok clusters2 /\
    Forall2 (fun cl1 cl2 => cluster_id cl1 = cluster_id cl2 /\ item_ids cl1 ≡ₚ item_ids cl2)
      clusters1 clusters2 /\
    forall v, score PySet.iter Example.scenario_matrix 2 v
              = score (fun l => l) Example.scenario_matrix 2 v.
Proof.
  split; [exact pyset_order|]. split; [exact identity_order|].
  split; [exact example_encode_ok|]. split; [exact scenario_matrix_square|].
  split; [exact scenario_questions_length|].
  exact (set_order_independent PySet.iter (fun l => l) Example.provider (Example.questions 4)
           Example.scenario_matrix 2 4 pyset_order identity_order example_encode_ok
           scenario_matrix_square scenario_questions_length).
Defined.

(** ** CPython sets of small integers *)

Module SmallSetFacts.

Lemma elem_of_keys (t : PySet.table) x : x ∈ PySet.keys t <-> exists j, t !! j = Some (Some x).
Proof.
  unfold PySet.keys. rewrite list_elem_of_omap. split.
  - intros (o & [j Hj]%list_elem_of_lookup & Ho). simpl in Ho. subst o. by exists j.
  - intros [j Hj]. exists (Some x). split; [by eapply list_elem_of_lookup_2|done].
Qed.

(** The keys of a table whose keys sit in their own slots come out in
    ascending order. *)
Lemma keys_offset_sorted (t : PySet.table) : forall o,
  (forall j x, t !! j = Some (Some x) -> x = o + j) ->
  StronglySorted lt (PySet.keys t) /\ Forall (fun x => o <= x) (PySet.keys t).
Proof.
  induction t as [|a t IH]; intros o Hd; [split; constructor|].
  destruct (IH (S o)) as [Hs Hf].
  { intros j x Hj. rewrite (Hd (S j) x Hj). lia. }
  destruct a as [x|]; simpl; [|split; [done|]; eapply Forall_impl; [exact Hf|]; simpl; lia].
  assert (x = o) as -> by (rewrite (Hd 0 x eq_refl); lia).
  split.
  - constructor; [done|]. eapply Forall_impl; [exact Hf|]. simpl. lia.
  - constructor; [lia|]. eapply Forall_impl; [exact Hf|]. simpl. lia.
Qed.

Lemma keys_direct_sorted t : direct t -> StronglySorted lt (PySet.keys t).
Proof. intros Hd. apply (keys_offset_sorted t 0). intros j x Hj. by rewrite (Hd j x Hj). Qed.

Lemma sorted_NoDup (l : list nat) : StronglySorted lt l -> NoDup l.
Proof.
  induction 1 as [|x l _ IH Hx]; constructor; [|done].
  intros Hin. apply (proj1 (Forall_forall _ _) Hx) in Hin. lia.
Qed.

Lemma land_small x len :
  x < 8 -> len = 8 \/ len = 32 -> Z.land (Z.of_nat x) (Z.of_nat len - 1) = Z.of_nat x.
Proof.
  intros Hx [-> | ->]; do 8 (destruct x as [|x]; [reflexivity|]); lia.
Qed.

Lemma first_free_head t i probes :
  PySet.slot_free t i = true -> PySet.first_free t i probes = Some (Z.to_nat i).
Proof. intros H. destruct probes; simpl; by rewrite H. Qed.

Lemma probe_head fuel t i perturb :
  PySet.slot_free t i = true -> PySet.probe (S fuel) t i perturb = Some (Z.to_nat i).
Proof. intros H. simpl. by rewrite (first_free_head _ _ _ H). Qed.

(** A small key that is not in the table goes to the slot of its number. *)
Lemma insert_clean_direct t x :
  direct t -> length t = 8 \/ length t = 32 -> x < 8 -> x ∉ PySet.keys t ->
  PySet.insert_clean t x = <[x := Some x]> t.
Proof.
  intros Hd Hlen Hx Hnin. unfold PySet.insert_clean, PySet.mask.
  rewrite (land_small x (length t) Hx Hlen).
  change (16 + length t) with (S (15 + length t)).
  rewrite probe_head; [by rewrite Nat2Z.id|].
  unfold PySet.slot_free. apply bool_decide_eq_true. rewrite Nat2Z.id.
  destruct (lookup_lt_is_Some_2 t x) as [o Ho]; [lia|].
  destruct o as [y|]; [|done]. exfalso. apply Hnin, elem_of_keys.
  exists x. by rewrite (Hd x y Ho) in Ho.
Qed.

Lemma insert_direct t x : direct t -> direct (<[x := Some x]> t).
Proof.
  intros Hd j y Hj.
  apply list_lookup_insert_Some in Hj as [(Hxj & Heq & _)|[_ Hj]]; [congruence|by apply Hd].
Qed.

Lemma foldl_insert_clean_direct ks : forall t,
  direct t -> length t = 8 \/ length t = 32 ->
  Forall (fun x => x < 8) ks -> NoDup (PySet.keys t ++ ks) ->
  direct (foldl PySet.insert_clean t ks) /\ length (foldl PySet.insert_clean t ks) = length t.
Proof.
  induction ks as [|k ks IH]; intros t Hd Hlen Hks Hnd; [done|].
  apply Forall_cons in Hks as [Hk Hks]. simpl.
  assert (k ∉ PySet.keys t) as Hnin.
  { apply NoDup_app in Hnd as (_ & Hdis & _). intros Hin. apply (Hdis _ Hin). by left. }
  rewrite (insert_clean_direct t k Hd Hlen Hk Hnin).
  assert (length (<[k := Some k]> t) = length t) as Hlent by apply length_insert.
  destruct (IH (<[k := Some k]> t)) as [Hd' Hlen'].
  - by apply insert_direct.
  - by rewrite Hlent.
  - done.
  - rewrite <- (insert_clean_direct t k Hd Hlen Hk Hnin), PySetFacts.keys_insert_clean.
    simpl. by rewrite Permutation_middle.
  - split; [done|]. by rewrite Hlen', Hlent.
Qed.

Lemma small_table_empty : small_table PySet.empty.
Proof.
  split; [|split].
  - left. split; [reflexivity|]. unfold PySet.used, PySet.empty.
    rewrite PySetFacts.keys_replicate. simpl. lia.
  - intros j x Hj. unfold PySet.empty in Hj. apply lookup_replicate in Hj as [Hj _]. done.
  - unfold PySet.empty. by rewrite PySetFacts.keys_replicate.
Qed.

(** Adding a small key keeps the table among the small tables. *)
Lemma small_table_add t x : small_table t -> x < 8 -> small_table (PySet.add t x).
Proof.
  intros (Hlen & Hd & Hks) Hx. unfold PySet.add. case_bool_decide as Hin; [done|].
  assert (length t = 8 \/ length t = 32) as Hlen' by tauto.
  rewrite (insert_clean_direct t x Hd Hlen' Hx Hin).
  set (t' := <[x := Some x]> t).
  assert (PySet.keys t' ≡ₚ x :: PySet.keys t) as Hperm
    by (unfold t'; rewrite <- (insert_clean_direct t x Hd Hlen' Hx Hin);
        apply PySetFacts.keys_insert_clean).
  assert (direct t') as Hd' by (by apply insert_direct).
  assert (Forall (fun x => x < 8) (PySet.keys t')) as Hks' by (rewrite Hperm; by constructor).
  assert (PySet.used t' = S (PySet.used t)) as Hused
    by (unfold PySet.used; by rewrite Hperm).
  assert (length t' = length t) as Hlent by apply length_insert.
  assert (PySet.used t' <= 8) as Hbound.
  { unfold PySet.used.
    etrans; [apply (GraphFacts.NoDup_incl_length _ (seq 0 8))|done].
    - apply sorted_NoDup. by apply keys_direct_sorted.
    - intros y Hy. apply (proj1 (Forall_forall _ _) Hks') in Hy. apply elem_of_seq. lia. }
  unfold PySet.mask. rewrite Hlent.
  destruct Hlen as [[Hl8 Hu]|Hl32].
  - rewrite Hl8. destruct (Z.ltb_spec (Z.of_nat (PySet.used t') * 5) ((Z.of_nat 8 - 1) * 3)) as [Hlt|Hge].
    + split; [|done]. left. split; [lia|lia].
    + assert (PySet.used t' = 5) as Hu5 by lia. rewrite Hu5. simpl.
      unfold PySet.resize.
      destruct (foldl_insert_clean_direct (PySet.keys t') (replicate 32 None)) as [Hdr Hlr].
      * intros j y Hj. apply lookup_replicate in Hj as [Hj _]. done.
      * right. by rewrite length_replicate.
      * done.
      * rewrite PySetFacts.keys_replicate. simpl. apply sorted_NoDup. by apply keys_direct_sorted.
      * change (PySet.newsize 21 PySet.MINSIZE 20) with 32.
        split; [|split].
        -- right. by rewrite Hlr, length_replicate.
        -- done.
        -- rewrite PySetFacts.keys_foldl_insert_clean, PySetFacts.keys_replicate. done.
  - rewrite Hl32. rewrite (proj2 (Z.ltb_lt _ _)) by lia. split; [|done]. right. lia.
Qed.

Lemma small_table_foldl l : forall t,
  small_table t -> Forall (fun x => x < 8) l -> small_table (foldl PySet.add t l).
Proof.
  induction l as [|x l IH]; intros t Ht Hl; [done|].
  apply Forall_cons in Hl as [Hx Hl]. simpl. apply IH; [|done]. by apply small_table_add.
Qed.

(** A CPython set of integers below eight yields them in ascending
    order. *)
Lemma iter_sorted l : Forall (fun x => x < 8) l -> StronglySorted lt (PySet.iter l).
Proof.
  intros Hl. unfold PySet.iter. apply keys_direct_sorted.
  by apply (small_table_foldl l PySet.empty small_table_empty Hl).
Qed.

End SmallSetFacts.

(** X16.  With at most eight items, under CPython: the members of every
    cluster are listed in ascending order, and among the members whose
    score is not below the centroid's the centroid has the smallest
    index. *)
Theorem small_inputs_smallest_index provider questions m num_clusters n :
  provider_ok provider ->
  Spec.square n m ->
  n <= 8 ->
  n <= length questions ->
  nan_free m ->
  exists clusters,
    (find_clusters_deterministic PySet.iter provider questions m num_clusters).1 = Ok clusters /\
    forall cl, cl ∈ clusters ->
      StronglySorted lt (item_ids cl) /\
      forall i, i ∈ item_ids cl ->
        F.le (score PySet.iter m num_clusters (centroid_id cl)) (score PySet.iter m num_clusters i)
        = true ->
        centroid_id cl <= i.
Proof.
  intros Henc Hsq Hn8 Hn Hnan.
  destruct (ClusterFacts.find_clusters_spec provider Henc PySet.iter pyset_order questions m
              num_clusters n Hsq Hn) as (clusters & Hok & Hlen & Hspec).
  destruct (ResultFacts.merge_spec PySet.iter pyset_order n m num_clusters Hsq)
    as (Hwf & Hnodes & _).
  set (g := (merge PySet.iter m num_clusters).1) in *.
  exists clusters. split; [exact Hok|]. intros cl [idx Hcl]%list_elem_of_lookup.
  destruct (lookup_lt_is_Some_2 (Nx.connected_components PySet.iter g) idx) as [c Hc].
  { rewrite <- Hlen. by eapply lookup_lt_Some. }
  destruct (Hspec idx c cl Hc Hcl) as [_ Hids _ Hcen _ _ _].
  assert (StronglySorted lt c) as Hsorted.
  { apply list_elem_of_lookup_2 in Hc.
    rewrite (GraphFacts.connected_components_sources PySet.iter pyset_order g Hwf) in Hc.
    apply list_elem_of_fmap in Hc as (s & -> & Hs).
    destruct (GraphFacts.sources_transversal g Hwf) as (_ & Hsub & _ & _).
    apply SmallSetFacts.iter_sorted. apply Forall_forall. intros w Hw.
    apply (GraphFacts.plain_bfs_spec g s Hwf (Hsub s Hs)) in Hw.
    rewrite Hnodes in Hw. apply elem_of_seq in Hw. lia. }
  rewrite Hids. split; [exact Hsorted|]. intros i Hi Hle.
  destruct c as [|x l]; [by apply elem_of_nil in Hi|].
  simpl in Hcen. injection Hcen as Hcen.
  destruct (ScoreFacts.max_from_split (Py.counter_get (merge PySet.iter m num_clusters).2) l x)
    as (l1 & l2 & Hsplit & Hbefore & _).
  { intros e _. by apply (ScoreFacts.score_not_nan PySet.iter n m num_clusters e). }
  rewrite Hcen in Hsplit, Hbefore. rewrite Hsplit in Hi, Hsorted.
  apply elem_of_app in Hi as [Hi|Hi].
  - exfalso. pose proof (FloatFacts.lt_le_trans _ _ _ (Hbefore i Hi) Hle) as Hlt.
    unfold score in Hlt. by rewrite FloatFacts.lt_irrefl in Hlt.
  - apply StronglySorted_app_1_r in Hsorted. apply StronglySorted_inv in Hsorted as [_ Hall].
    apply elem_of_cons in Hi as [->|Hi]; [done|].
    apply Nat.lt_le_incl. by apply (proj1 (Forall_forall _ _) Hall).
Qed.

Lemma small_inputs_smallest_index_witness :
  provider_ok Example.provider /\
  Spec.square 4 Example.scenario_matrix /\
  4 <= 8 /\
  4 <= length (Example.questions 4) /\
  nan_free Example.scenario_matrix /\
  exists clusters,
    (find_clusters_deterministic PySet.iter Example.provider (Example.questions 4)
       Example.scenario_matrix 2).1 = Ok clusters /\
    forall cl, cl ∈ clusters ->
      StronglySorted lt (item_ids cl) /\
      forall i, i ∈ item_ids cl ->
        F.le (score PySet.iter Example.scenario_matrix 2 (centroid_id cl))
             (score PySet.iter Example.scenario_matrix 2 i) = true ->
        centroid_id cl <= i.
Proof.
  assert (4 <= 8) as H8 by lia.
  split; [exact example_encode_ok|]. split; [exact scenario_matrix_square|].
  split; [exact H8|]. split; [exact scenario_questions_length|].
  split; [exact nan_free_scenario|].
  exact (small_inputs_smallest_index Example.provider (Example.questions 4)
           Example.scenario_matrix 2 4 example_encode_ok scenario_matrix_square H8
           scenario_questions_length nan_free_scenario).
Defined.
